(** * Sizing engine of WeeklySAUpdate: a shallow embedding

    The two scripts [Sizing/MongoDBSizing_CL.py] (tier recommendation) and
    [Sizing/MongoSizing.py] (proportional cost allocation) share their
    normalizer ([parse_data_size], [parse_float_maybe]) and their record
    assembly loop. They are embedded here as Rocq functions:

    - a Python [str] is a [string]; a character is a code point below 256,
      with the whitespace, digit and case tables of Python on that range;
    - a Python [float] is a primitive binary64 [float]; [float(s)] and a
      float literal of the source are the correctly rounded quotient of two
      integers, computed by [SFdiv], and [round(x, n)] rounds the exact
      binary value of [x];
    - an exception that escapes a function is the [Raise] case of [result];
    - the input file is the list of its lines; the list of per-client dicts
      [clients_data] is a list of records, updated in place at the first
      record whose client matches;
    - [sum] adds from left to right;
    - the CSV writer is not modelled: the tier rows carry the rounded cells
      it is given, the allocation rows the values before rounding. *)

From Stdlib Require Import ZArith List String Ascii Bool Lia Floats.
From Stdlib Require Uint63.
From Stdlib Require Import Reals Lra.
From stdpp Require Import gmap strings.
Import ListNotations.

Local Open Scope string_scope.
Local Open Scope bool_scope.

(** A decimal float literal stands for the nearest binary64, as in Python. *)
Set Warnings "-inexact-float".

(** ** Exceptions *)

Inductive exn : Type := ValueError.

Inductive result (A : Type) : Type :=
| Ok (a : A)
| Raise (e : exn).

Arguments Ok {A} a.
Arguments Raise {A} e.

(** ** The string methods the scripts call *)

Module PyStr.

Definition code (c : ascii) : nat := nat_of_ascii c.

Definition between (lo hi n : nat) : bool := Nat.leb lo n && Nat.leb n hi.

(** [str.isspace] on one character, also the class [\s] of [re]:
    TAB..CR, FS..US, SPACE, NEL and NBSP. *)
Definition is_space (c : ascii) : bool :=
  between 9 13 (code c) || between 28 32 (code c)
  || Nat.eqb (code c) 133 || Nat.eqb (code c) 160.

(** The class [\d] of [re] below code point 256. *)
Definition is_digit (c : ascii) : bool := between 48 57 (code c).

Definition lower_char (c : ascii) : ascii :=
  if between 65 90 (code c)
     || (between 192 222 (code c) && negb (Nat.eqb (code c) 215))
  then ascii_of_nat (code c + 32) else c.

(** [s.lower()] *)
Fixpoint lower (s : string) : string :=
  match s with
  | EmptyString => EmptyString
  | String c s' => String (lower_char c) (lower s')
  end.

Fixpoint lstrip (s : string) : string :=
  match s with
  | EmptyString => EmptyString
  | String c s' => if is_space c then lstrip s' else s
  end.

Fixpoint rstrip (s : string) : string :=
  match s with
  | EmptyString => EmptyString
  | String c s' =>
      match rstrip s' with
      | EmptyString => if is_space c then EmptyString else String c EmptyString
      | r => String c r
      end
  end.

(** [s.strip()] *)
Definition strip (s : string) : string := rstrip (lstrip s).

(** [s.startswith(p)] *)
Definition startswith (p s : string) : bool := String.prefix p s.

(** [needle in hay] *)
Fixpoint contains (needle hay : string) : bool :=
  String.prefix needle hay
  || match hay with
     | EmptyString => false
     | String _ hay' => contains needle hay'
     end.

(** [not s] *)
Definition is_empty (s : string) : bool :=
  match s with EmptyString => true | _ => false end.

(** [s.split(sep)] for a one-character separator. *)
Fixpoint split_char (sep : ascii) (s : string) : list string :=
  match s with
  | EmptyString => [EmptyString]
  | String c s' =>
      if Ascii.eqb c sep then EmptyString :: split_char sep s'
      else match split_char sep s' with
           | [] => [String c EmptyString]
           | w :: ws => String c w :: ws
           end
  end.

(** The longest prefix of whitespace, and what follows it. *)
Fixpoint span_space (s : string) : string * string :=
  match s with
  | EmptyString => (EmptyString, EmptyString)
  | String c s' =>
      if is_space c
      then let (w, r) := span_space s' in (String c w, r)
      else (EmptyString, s)
  end.

(** [re.split(r"\s{2,}", s)]: the separators are the maximal runs of two
    or more whitespace characters; a single whitespace character stays
    inside its field. [skip] counts the characters of the current
    separator that are still to be passed over. *)
Fixpoint re_split_from (skip : nat) (s : string) : list string :=
  match s with
  | EmptyString => [EmptyString]
  | String c s' =>
      match skip with
      | S k => re_split_from k s'
      | O =>
          let w := fst (span_space s) in
          if Nat.leb 2 (String.length w)
          then EmptyString :: re_split_from (String.length w - 1) s'
          else match re_split_from 0 s' with
               | [] => [String c EmptyString]
               | f :: fs => String c f :: fs
               end
      end
  end.

Definition re_split_2ws (s : string) : list string := re_split_from 0 s.

End PyStr.

(** ** The conversion [float(s)] *)

Module PyFloat.
Import PyStr.

Definition digit_val (c : ascii) : Z := Z.of_nat (code c) - 48.

(** Value of a digit string read in base ten, most significant first. *)
Definition digits_value (ds : list ascii) : Z :=
  fold_left (fun acc c => 10 * acc + digit_val c)%Z ds 0%Z.

Fixpoint span_digits (l : list ascii) : list ascii * list ascii :=
  match l with
  | c :: l' =>
      if is_digit c
      then let (ds, r) := span_digits l' in (c :: ds, r)
      else ([], l)
  | [] => ([], [])
  end.

(** Underscores are legal only between two digits. *)
Fixpoint underscores_ok (prev : option ascii) (l : list ascii) : bool :=
  match l with
  | [] => match prev with
          | Some p => negb (Ascii.eqb p "_")
          | None => true
          end
  | c :: l' =>
      let prev_digit := match prev with Some p => is_digit p | None => false end in
      let prev_us := match prev with Some p => Ascii.eqb p "_" | None => false end in
      (if Ascii.eqb c "_" then prev_digit
       else negb (prev_us && negb (is_digit c)))
      && underscores_ok (Some c) l'
  end.

Definition drop_underscores (l : list ascii) : list ascii :=
  List.filter (fun c => negb (Ascii.eqb c "_")) l.

(** The binary64 nearest to [(-1)^neg * n * 10^e], ties to even; a value
    beyond the largest finite float becomes an infinity. *)
Definition of_decimal (neg : bool) (n : Z) (e : Z) : float :=
  match n with
  | Zpos p =>
      let num := if (0 <? e)%Z then (p * Pos.pow 10 (Z.to_pos e))%positive else p in
      let den := if (e <? 0)%Z then Pos.pow 10 (Z.to_pos (- e)) else 1%positive in
      SF2Prim (SFdiv prec emax (S754_finite neg num 0) (S754_finite false den 0))
  | _ => if neg then neg_zero else zero
  end.

Definition sign_of (l : list ascii) : bool * list ascii :=
  match l with
  | "-"%char :: l' => (true, l')
  | "+"%char :: l' => (false, l')
  | _ => (false, l)
  end.

(** [digits [. digits] [e [sign] digits]] with at least one mantissa
    digit, and nothing after it. *)
Definition parse_number (neg : bool) (l : list ascii) : option float :=
  let (ip, r1) := span_digits l in
  let (fp, r2) :=
    match r1 with
    | "."%char :: r => span_digits r
    | _ => ([], r1)
    end in
  match (ip ++ fp)%list with
  | [] => None
  | mant =>
      let scale := (- Z.of_nat (List.length fp))%Z in
      match r2 with
      | [] => Some (of_decimal neg (digits_value mant) scale)
      | c :: r3 =>
          if Ascii.eqb c "e" || Ascii.eqb c "E" then
            let (eneg, r4) := sign_of r3 in
            match span_digits r4 with
            | (d :: ds, []) =>
                let ex := digits_value (d :: ds) in
                Some (of_decimal neg (digits_value mant)
                        (scale + (if eneg then - ex else ex))%Z)
            | _ => None
            end
          else None
      end
  end.

(** [float(s)]; [None] stands for the [ValueError] it raises. *)
Definition float_of_string (s : string) : option float :=
  let l := list_ascii_of_string (strip s) in
  if underscores_ok None l then
    let (neg, body) := sign_of (drop_underscores l) in
    let word := lower (string_of_list_ascii body) in
    if String.eqb word "inf" || String.eqb word "infinity"
    then Some (if neg then neg_infinity else infinity)
    else if String.eqb word "nan" then Some nan
    else parse_number neg body
  else None.

End PyFloat.

(** [round(x, ndigits)] on a float: the exact binary value of [x] is
    rounded to [ndigits] decimal places, ties to even, and the decimal
    obtained is converted back to the nearest float. *)
Module PyRound.

(** Nearest integer to [n / d], ties to even, for [d] positive. *)
Definition div_half_even (n d : Z) : Z :=
  let q := (n / d)%Z in
  let r := (n mod d)%Z in
  match (2 * r ?= d)%Z with
  | Lt => q
  | Gt => (q + 1)%Z
  | Eq => if Z.even q then q else (q + 1)%Z
  end.

Definition round (x : float) (ndigits : nat) : float :=
  match Prim2SF x with
  | S754_finite s m e =>
      let p10 := Z.pow 10 (Z.of_nat ndigits) in
      let n :=
        if (0 <=? e)%Z
        then (Zpos m * Z.pow 2 e * p10)%Z
        else div_half_even (Zpos m * p10) (Z.pow 2 (- e)) in
      PyFloat.of_decimal s n (- Z.of_nat ndigits)
  | _ => x
  end.

End PyRound.

(** ** The normalizer (both scripts, section 2) *)

Import PyStr.

Definition is_num_char (c : ascii) : bool := is_digit c || Ascii.eqb c ".".

(** Group 1 of [re.match(r"([\d\.]+)", s)]: the longest prefix of digits
    and dots, [None] when it is empty. *)
Fixpoint span_num (s : string) : string :=
  match s with
  | EmptyString => EmptyString
  | String c s' => if is_num_char c then String c (span_num s') else EmptyString
  end.

Definition re_match_num (s : string) : option string :=
  match span_num s with
  | EmptyString => None
  | g => Some g
  end.

Definition parse_data_size (size_str : string) : result float :=
  let size_str := lower (strip size_str) in
  if contains "#div/0" size_str || String.eqb size_str "0.00 mb"
     || startswith "0.00" size_str
  then Ok 0%float
  else if String.eqb size_str "0.00 mb" || String.eqb size_str EmptyString
  then Ok 0%float
  else
    match re_match_num size_str with
    | None => Ok 0%float
    | Some g =>
        match PyFloat.float_of_string g with
        | None => Raise ValueError
        | Some val =>
            if contains "tb" size_str then Ok (val * 1024)%float
            else if contains "gb" size_str then Ok val
            else if contains "mb" size_str then Ok (val / 1024)%float
            else Ok val
        end
    end.

Definition parse_float_maybe (s : string) : float :=
  let s := lower (strip s) in
  if contains "#div/0" s || is_empty s then 0%float
  else
    match PyFloat.float_of_string s with
    | Some v => v
    | None => 0%float
    end.

(** ** Record assembly (both scripts, section 3) *)

(** One dict of [clients_data]. The number type is a parameter; the scripts
    run on binary64 floats, the instance [float_number] below. *)
Record client_record (F : Type) : Type := mk_record {
  client : string;
  data_gb : F;
  avg_read_ops_s : F;
  avg_write_ops_s : F
}.

Arguments mk_record {F} _ _ _ _.
Arguments client {F} _.
Arguments data_gb {F} _.
Arguments avg_read_ops_s {F} _.
Arguments avg_write_ops_s {F} _.

(** A raised exception skips the rest of the computation. *)
#[global] Instance result_bind : MBind result :=
  fun A B (k : A -> result B) (r : result A) =>
    match r with
    | Ok a => k a
    | Raise e => Raise e
    end.

#[global] Instance result_ret : MRet result := fun A a => Ok a.

Definition TAB : ascii := ascii_of_nat 9.

(** [cols = raw_line.split("\t")], re-tokenized on runs of whitespace when
    that gives fewer than four columns. *)
Definition tokenize (raw_line : string) : list string :=
  let cols := split_char TAB raw_line in
  if Nat.ltb (List.length cols) 4 then re_split_2ws raw_line else cols.

(** The inner [for d in clients_data] loop of a throughput row: the first
    record of the client is overwritten in place; [None] is [found = False]. *)
Fixpoint update_first (client_name : string) (read_ops write_ops : float)
    (clients_data : list (client_record float))
    : option (list (client_record float)) :=
  match clients_data with
  | [] => None
  | d :: rest =>
      if String.eqb (client d) client_name
      then Some (mk_record (client d) (data_gb d) read_ops write_ops :: rest)
      else option_map (cons d) (update_first client_name read_ops write_ops rest)
  end.

(** One iteration of [for line in f]. *)
Definition process_line (clients_data : list (client_record float))
    (line : string) : result (list (client_record float)) :=
  let raw_line := strip line in
  if is_empty raw_line then Ok clients_data
  else
    let cols := tokenize raw_line in
    if Nat.eqb (List.length cols) 4 then
      let client_name := lower (strip (nth 0 cols EmptyString)) in
      let size_2025_02_07 := strip (nth 2 cols EmptyString) in
      data_gb ← parse_data_size size_2025_02_07;
      Ok (clients_data ++ [mk_record client_name data_gb 0%float 0%float])%list
    else if Nat.eqb (List.length cols) 5 then
      let client_name := lower (strip (nth 0 cols EmptyString)) in
      let read_ops := parse_float_maybe (nth 1 cols EmptyString) in
      let write_ops := parse_float_maybe (nth 2 cols EmptyString) in
      match update_first client_name read_ops write_ops clients_data with
      | Some updated => Ok updated
      | None => Ok (clients_data ++ [mk_record client_name 0%float read_ops write_ops])%list
      end
    else Ok clients_data.

Fixpoint assemble_from (clients_data : list (client_record float))
    (lines : list string) : result (list (client_record float)) :=
  match lines with
  | [] => Ok clients_data
  | line :: rest =>
      clients_data' ← process_line clients_data line;
      assemble_from clients_data' rest
  end.

(** [clients_data] once the whole input has been read. *)
Definition assemble (lines : list string) : result (list (client_record float)) :=
  assemble_from [] lines.

(** ** Classification and tier ([MongoDBSizing_CL.py], sections 1 and 4) *)

Definition DATA_INTENSIVE_THRESHOLD : float := 1024.
Definition IOPS_INTENSIVE_THRESHOLD : float := 4000.

Definition CLUSTER_TIERS : gmap string float :=
  {[ "M30" := 1500%float; "M50" := 3000%float;
     "M100" := 5000%float; "M200" := 8000%float ]}.

Definition recommend_cluster_tier (data_gb iops : float) : string :=
  if (5000 <=? data_gb)%float || (15000 <=? iops)%float then "M200"
  else if (2000 <=? data_gb)%float || (8000 <=? iops)%float then "M100"
  else if (500 <=? data_gb)%float || (2000 <=? iops)%float then "M50"
  else "M30".

(** The classification branch of the output loop. *)
Definition classify (data_gb iops : float) : string :=
  let data_intensive := (DATA_INTENSIVE_THRESHOLD <=? data_gb)%float in
  let iops_intensive := (IOPS_INTENSIVE_THRESHOLD <=? iops)%float in
  if data_intensive && iops_intensive then "Data+IOPS Intensive"
  else if data_intensive then "Data-Intensive"
  else if iops_intensive then "IOPS-Intensive"
  else "Moderate".

(** [CLUSTER_TIERS.get(tier, 2000.0)] *)
Definition tier_cost (tier : string) : float :=
  default 2000%float (CLUSTER_TIERS !! tier).

Record tier_row : Type := mk_tier_row {
  Client : string;
  Data_GB : float;
  Avg_Read_Ops_s : float;
  Avg_Write_Ops_s : float;
  Total_IOPS : float;
  Classification : string;
  Recommended_Cluster : string;
  Estimated_Monthly_Cost : float
}.

(** The row the output loop writes for one record. *)
Definition tier_row_of (d : client_record float) : tier_row :=
  let iops := (avg_read_ops_s d + avg_write_ops_s d)%float in
  let tier := recommend_cluster_tier (data_gb d) iops in
  let monthly_cost := tier_cost tier in
  mk_tier_row (client d)
    (PyRound.round (data_gb d) 3)
    (PyRound.round (avg_read_ops_s d) 3)
    (PyRound.round (avg_write_ops_s d) 3)
    (PyRound.round iops 3)
    (classify (data_gb d) iops)
    tier
    (PyRound.round monthly_cost 2).

Definition tier_report (clients_data : list (client_record float)) : list tier_row :=
  List.map tier_row_of clients_data.

(** ** Proportional allocation ([MongoSizing.py], sections 1, 4 and 5) *)

(** The arithmetic the allocation uses. [lit n e] is the decimal literal
    [n * 10^e] of the source text. *)
Class Number (F : Type) : Type := {
  lit : Z -> Z -> F;
  fadd : F -> F -> F;
  fmul : F -> F -> F;
  fdiv : F -> F -> F;
  feqb : F -> F -> bool;
  fleb : F -> F -> bool
}.

#[global] Instance float_number : Number float := {
  lit := PyFloat.of_decimal false;
  fadd := PrimFloat.add;
  fmul := PrimFloat.mul;
  fdiv := PrimFloat.div;
  feqb := PrimFloat.eqb;
  fleb := PrimFloat.leb
}.

Definition HEAVY_IOPS_CLIENTS : gset string :=
  {[ "adventhealth"; "clevelandclin"; "psjhealth" ]}.

Record alloc_row (F : Type) : Type := mk_alloc_row {
  row_client : string;
  row_iops : F;
  data_share : F;
  iops_share : F;
  weighted_share : F;
  monthly_cost : F
}.

Arguments mk_alloc_row {F} _ _ _ _ _ _.
Arguments row_client {F} _.
Arguments row_iops {F} _.
Arguments data_share {F} _.
Arguments iops_share {F} _.
Arguments weighted_share {F} _.
Arguments monthly_cost {F} _.

Section Allocation.
Context {F : Type} `{Number F}.

Definition DEFAULT_DATA_WEIGHT : F := lit 5 (-1).
Definition DEFAULT_IOPS_WEIGHT : F := lit 5 (-1).
Definition HEAVY_DATA_WEIGHT : F := lit 25 (-2).
Definition HEAVY_IOPS_WEIGHT : F := lit 75 (-2).
Definition IOPS_THRESHOLD : F := lit 4000 0.
Definition TOTAL_CLUSTER_COST : F := lit 240000 0.
Definition EPSILON : F := lit 1 (-9).

(** [sum(...)]: the terms are added from left to right, starting at 0. *)
Definition py_sum (l : list F) : F := fold_left fadd l (lit 0 0).

Definition iops_of (d : client_record F) : F :=
  fadd (avg_read_ops_s d) (avg_write_ops_s d).

(** The two totals after the zero guard of section 4. *)
Definition total_data_gb (clients_data : list (client_record F)) : F :=
  let t := py_sum (List.map data_gb clients_data) in
  if feqb t (lit 0 0) then EPSILON else t.

Definition total_iops (clients_data : list (client_record F)) : F :=
  let t := py_sum (List.map iops_of clients_data) in
  if feqb t (lit 0 0) then EPSILON else t.

(** The 25/75 rule of the blended policy. *)
Definition is_heavy (d : client_record F) : bool :=
  bool_decide (client d ∈ HEAVY_IOPS_CLIENTS) || fleb IOPS_THRESHOLD (iops_of d).

(** One iteration of the output loop, before the cells are rounded for
    display. [pure_data_only] and [total_cost] are [PURE_DATA_ONLY] and
    [TOTAL_CLUSTER_COST]. *)
Definition alloc_row_of (pure_data_only : bool) (total_cost : F)
    (total_data total_io : F) (d : client_record F) : alloc_row F :=
  let iops := iops_of d in
  let data_share := fdiv (data_gb d) total_data in
  let iops_share := fdiv iops total_io in
  let weighted_share :=
    if pure_data_only then data_share
    else
      let '(data_w, iops_w) :=
        if is_heavy d then (HEAVY_DATA_WEIGHT, HEAVY_IOPS_WEIGHT)
        else (DEFAULT_DATA_WEIGHT, DEFAULT_IOPS_WEIGHT) in
      fadd (fmul data_share data_w) (fmul iops_share iops_w) in
  let monthly_cost := fmul weighted_share total_cost in
  mk_alloc_row (client d) iops data_share iops_share weighted_share monthly_cost.

Definition allocate (pure_data_only : bool) (total_cost : F)
    (clients_data : list (client_record F)) : list (alloc_row F) :=
  List.map
    (alloc_row_of pure_data_only total_cost
       (total_data_gb clients_data) (total_iops clients_data))
    clients_data.

End Allocation.

(** The script as configured: [PURE_DATA_ONLY = True], a total of 240000. *)
Definition PURE_DATA_ONLY : bool := true.

Definition allocation_report (clients_data : list (client_record float))
    : list (alloc_row float) :=
  allocate PURE_DATA_ONLY TOTAL_CLUSTER_COST clients_data.

(** A line of the export: the fields joined by TAB, ended by a newline. *)
Definition row (fields : list string) : string :=
  String.concat (String TAB EmptyString) fields
  ++ String (ascii_of_nat 10) EmptyString.

(** ** Vocabulary of the statements *)

Local Open Scope float_scope.

(** The tier names and the costs of the table. *)
Definition tier_names : list string := ["M200"; "M100"; "M50"; "M30"].
Definition tier_costs : list float := [8000; 5000; 3000; 1500].

(** [abs (x - y) <= tol] *)
Definition close_to (tol x y : float) : bool := abs (x - y) <=? tol.

(** A float that compares equal to zero: either signed zero. *)
Definition is_zero_sf (x : spec_float) : Prop :=
  match x with
  | S754_zero _ => True
  | _ => False
  end.

(** Zero, finite or infinite with the sign bit clear. *)
Definition nonneg_sf (x : spec_float) : Prop :=
  match x with
  | S754_nan => False
  | S754_zero s | S754_infinity s | S754_finite s _ _ => s = false
  end.

Definition nonneg (x : float) : Prop := nonneg_sf (Prim2SF x).

(** Every character is a digit or a dot. *)
Definition numeric (l : list ascii) : Prop :=
  Forall (fun c => is_num_char c = true) l.

(** The size of a record is at least zero. *)
Definition size_ok (d : client_record float) : Prop := (0 <=? data_gb d) = true.

(** [2 ^ e] as a real number. *)
Definition bpow (e : Z) : R := powerRZ 2 e.

(** The magnitude and the real value of a float; the infinities and NaN
    count as 0. *)
Definition mag (x : spec_float) : R :=
  match x with
  | S754_finite _ m e => (IZR (Zpos m) * bpow e)%R
  | _ => 0%R
  end.

Definition SF2R (x : spec_float) : R :=
  match x with
  | S754_finite true _ _ => (- mag x)%R
  | _ => mag x
  end.

Definition value (x : float) : R := SF2R (Prim2SF x).

(** Zero of either sign, or finite with the sign bit clear. *)
Definition finite_nonneg_sf (x : spec_float) : Prop :=
  match x with
  | S754_zero _ | S754_finite false _ _ => True
  | _ => False
  end.

(** A float that is finite and not negative. *)
Definition finite_nonneg (x : float) : Prop := finite_nonneg_sf (Prim2SF x).

(** The exponent of a finite float is at least [emin]. *)
Definition emin_ok (x : spec_float) : Prop :=
  match x with
  | S754_finite _ _ e => (-1074 <= e)%Z
  | _ => True
  end.

(** The sum of a list of reals. *)
Definition Rsum (l : list R) : R := fold_right Rplus 0%R l.

(** The bound on the relative error of one operation, and the smallest
    positive float. *)
Definition u52 : R := bpow (-52).
Definition eta : R := bpow (-1074).

(** The tolerances of the allocation of [n] clients: on the sum of the
    weighted shares, and on the sum of the costs for a total cost [c]. *)
Definition share_tolerance (n : nat) : R := ((6 * INR n + 8) * bpow (-52))%R.
Definition cost_tolerance (n : nat) (c : R) : R :=
  ((6 * INR n + 10) * bpow (-52) * c + INR n * bpow (-1074))%R.

(** The weight pair of the blended policy. *)
Definition weights (heavy : bool) : float * float :=
  if heavy then (HEAVY_DATA_WEIGHT, HEAVY_IOPS_WEIGHT)
  else (DEFAULT_DATA_WEIGHT, DEFAULT_IOPS_WEIGHT).

(** Evaluates the values of a list of float constants. *)
Ltac float_values :=
  cbn [List.map Rsum fold_right]; unfold value;
  repeat match goal with
         | |- context [Prim2SF ?x] =>
             let s := fresh "s" in
             set (s := Prim2SF x); vm_compute in s; subst s
         end;
  cbn [SF2R mag].

(** ** Sample inputs *)

Definition acme_size : string := row ["acme"; "1.00 TB"; "1.20 TB"; "5.00%"].
Definition acme_throughput : string := row ["acme"; "900.0"; "100.0"; "90%"; "10%"].

Definition sample_export : list string :=
  [ "aahs  1.24 TB  1.26 TB  1.75%";
    EmptyString;
    row ["bcd"; "n/a"; "512 MB"; "#DIV/0!"];
    "aahs  884.711   421.300   67.74%   32.26%";
    row ["efg"; "#DIV/0!"; "abc"; "0%"; "0%"];
    "a header line" ].

(** Two clients of size zero. *)
Definition idle_pair : list (client_record float) :=
  [mk_record "a" 0 5 6; mk_record "b" 0 0 0].

(** Two light clients with sizes and rates. *)
Definition light_pair : list (client_record float) :=
  [mk_record "a" 100 10 0; mk_record "b" 300 0 30].

(** Two sizes whose float total is infinite. *)
Definition huge_sizes : list (client_record float) :=
  [mk_record "a" 1e308 0 0; mk_record "b" 1e308 0 0].

(** Two light clients without any rate. *)
Definition quiet_pair : list (client_record float) :=
  [mk_record "a" 100 0 0; mk_record "b" 300 0 0].

(** Three light clients whose rates nearly cancel. *)
Definition swing_trio : list (client_record float) :=
  [mk_record "a" 1 2000 0; mk_record "b" 1 3e-13 0; mk_record "c" 1 (-2000) 0].

(** An export with a throughput field that reads NaN. *)
Definition nan_export : list string :=
  [ acme_size;
    row ["acme"; " NaN "; "5"; "50%"; "50%"];
    row ["zed"; "100"; "200"; "50%"; "50%"] ].

(** Two clients whose rates cancel, moderate and huge. *)
Definition cancel_pair : list (client_record float) :=
  [mk_record "a" 0 5 0; mk_record "b" 0 (-5) 0].
Definition huge_pair : list (client_record float) :=
  [mk_record "a" 0 1e300 0; mk_record "b" 0 (-1e300) 0].

(** A float that is neither an infinity nor NaN. *)
Definition finite_sf (x : spec_float) : Prop :=
  match x with
  | S754_zero _ | S754_finite _ _ _ => True
  | _ => False
  end.

(** A light client and one over the IOPS threshold. *)
Definition mixed_pair : list (client_record float) :=
  [mk_record "a" 100 0 0; mk_record "b" 0 5000 0].

(** ** Vocabulary of the further properties *)

(** The number of columns the loop sees in a line; [None] for a blank line,
    which the loop skips. *)
Definition columns (line : string) : option nat :=
  let raw_line := strip line in
  if is_empty raw_line then None else Some (List.length (tokenize raw_line)).

(** The client, size and throughput fields the loop reads from a line. *)
Definition client_field (line : string) : string :=
  lower (strip (nth 0 (tokenize (strip line)) EmptyString)).
Definition size_field (line : string) : string :=
  strip (nth 2 (tokenize (strip line)) EmptyString).
Definition read_field (line : string) : string :=
  nth 1 (tokenize (strip line)) EmptyString.
Definition write_field (line : string) : string :=
  nth 2 (tokenize (strip line)) EmptyString.

(** A line the loop passes over: blank, or neither four nor five columns. *)
Definition ignored (line : string) : Prop :=
  columns line <> Some 4%nat /\ columns line <> Some 5%nat.

(** The first record of a client, the one the search of a throughput row
    stops at. *)
Fixpoint first_of (name : string) (l : list (client_record float))
    : option (client_record float) :=
  match l with
  | [] => None
  | d :: rest => if String.eqb (client d) name then Some d else first_of name rest
  end.

(** A key that orders the floats other than NaN as [SFcompare] does:
    sign class, then exponent, then mantissa. *)
Definition sf_key (x : spec_float) : Z * Z * Z :=
  match x with
  | S754_nan => (0, 0, 0)
  | S754_zero _ => (0, 0, 0)
  | S754_infinity true => (-2, 0, 0)
  | S754_infinity false => (2, 0, 0)
  | S754_finite true m e => (-1, - e, - Zpos m)
  | S754_finite false m e => (1, e, Zpos m)
  end%Z.

Definition key_le (a b : Z * Z * Z) : Prop :=
  (a.1.1 < b.1.1
   \/ (a.1.1 = b.1.1
       /\ (a.1.2 < b.1.2 \/ (a.1.2 = b.1.2 /\ a.2 <= b.2))))%Z.

(** Two whitespace characters side by side somewhere in a string. *)
Fixpoint has_ws2 (s : string) : bool :=
  match s with
  | String a (String b _ as t) => (is_space a && is_space b) || has_ws2 t
  | _ => false
  end.

(** A string that is empty or starts with a character other than
    whitespace. *)
Definition starts_clean (s : string) : Prop :=
  match s with
  | EmptyString => True
  | String c _ => is_space c = false
  end.

(** A string that is empty or ends with a character other than
    whitespace. *)
Fixpoint ends_clean (s : string) : Prop :=
  match s with
  | EmptyString => True
  | String c EmptyString => is_space c = false
  | String _ t => ends_clean t
  end.

(** A string of whitespace characters only. *)
Fixpoint all_space (s : string) : bool :=
  match s with
  | EmptyString => true
  | String c t => is_space c && all_space t
  end.

(** * Properties *)

(** ** Tier recommendation and classification *)

(** C7: the tier is chosen by an ordered cascade of inclusive thresholds,
    either dimension being enough at each step: 5000 GB or 15000 ops/s
    gives M200, else 2000 or 8000 gives M100, else 500 or 2000 gives M50,
    else M30; 100 GB with 16000 ops/s is M200. *)
Theorem recommend_cluster_tier_cascade (data_gb iops : float) :
  ((5000 <=? data_gb) || (15000 <=? iops) = true ->
     recommend_cluster_tier data_gb iops = "M200")
  /\ ((5000 <=? data_gb) || (15000 <=? iops) = false ->
      (2000 <=? data_gb) || (8000 <=? iops) = true ->
      recommend_cluster_tier data_gb iops = "M100")
  /\ ((5000 <=? data_gb) || (15000 <=? iops) = false ->
      (2000 <=? data_gb) || (8000 <=? iops) = false ->
      (500 <=? data_gb) || (2000 <=? iops) = true ->
      recommend_cluster_tier data_gb iops = "M50")
  /\ ((5000 <=? data_gb) || (15000 <=? iops) = false ->
      (2000 <=? data_gb) || (8000 <=? iops) = false ->
      (500 <=? data_gb) || (2000 <=? iops) = false ->
      recommend_cluster_tier data_gb iops = "M30")
  /\ recommend_cluster_tier 100 16000 = "M200".
Proof.
  unfold recommend_cluster_tier.
  repeat split; intros; repeat match goal with H : _ = _ |- _ => rewrite H end;
    reflexivity.
Qed.

Lemma recommend_cluster_tier_cascade_witness :
  recommend_cluster_tier 1228.8 1000 = "M50"
  /\ recommend_cluster_tier 100 16000 = "M200".
Proof.
  split.
  - apply (recommend_cluster_tier_cascade 1228.8 1000); reflexivity.
  - apply (recommend_cluster_tier_cascade 100 16000); reflexivity.
Defined.

(** C6: the two thresholds, 1024 GB and 4000 ops/s, are tested
    independently and inclusively; both give the combined label, one alone
    its own label, neither gives Moderate; with the three boundary cases. *)
Theorem classify_thresholds (data_gb iops : float) :
  ((1024 <=? data_gb) = true -> (4000 <=? iops) = true ->
     classify data_gb iops = "Data+IOPS Intensive")
  /\ ((1024 <=? data_gb) = true -> (4000 <=? iops) = false ->
      classify data_gb iops = "Data-Intensive")
  /\ ((1024 <=? data_gb) = false -> (4000 <=? iops) = true ->
      classify data_gb iops = "IOPS-Intensive")
  /\ ((1024 <=? data_gb) = false -> (4000 <=? iops) = false ->
      classify data_gb iops = "Moderate")
  /\ classify 1024 0 = "Data-Intensive"
  /\ classify 1023.99 3999.99 = "Moderate"
  /\ classify 1024 4000 = "Data+IOPS Intensive".
Proof.
  unfold classify, DATA_INTENSIVE_THRESHOLD, IOPS_INTENSIVE_THRESHOLD.
  repeat split; intros; repeat match goal with H : _ = _ |- _ => rewrite H end;
    reflexivity.
Qed.

Lemma classify_thresholds_witness :
  classify 2048 10 = "Data-Intensive" /\ classify 10 4000 = "IOPS-Intensive".
Proof.
  split.
  - apply (classify_thresholds 2048 10); reflexivity.
  - apply (classify_thresholds 10 4000); reflexivity.
Defined.

Lemma recommend_cluster_tier_closed (data_gb iops : float) :
  In (recommend_cluster_tier data_gb iops) tier_names.
Proof.
  unfold recommend_cluster_tier, tier_names.
  destruct (_ || _); [simpl; tauto|].
  destruct (_ || _); [simpl; tauto|].
  destruct (_ || _); simpl; tauto.
Qed.

(** C10: the recommended tier is always one of M200, M100, M50 and M30,
    all four are keys of the cost table, so the lookup never takes its
    default and the cost written for a record is one of the four table
    values. *)
Theorem tier_cost_never_falls_back :
  Forall (fun t => is_Some (CLUSTER_TIERS !! t)) tier_names
  /\ (forall data_gb iops : float,
        In (recommend_cluster_tier data_gb iops) tier_names
        /\ CLUSTER_TIERS !! recommend_cluster_tier data_gb iops
           = Some (tier_cost (recommend_cluster_tier data_gb iops))
        /\ In (tier_cost (recommend_cluster_tier data_gb iops)) tier_costs)
  /\ (forall d : client_record float,
        In (Estimated_Monthly_Cost (tier_row_of d)) tier_costs).
Proof.
  assert (Hnames : forall t, In t tier_names ->
            CLUSTER_TIERS !! t = Some (tier_cost t)
            /\ In (tier_cost t) tier_costs
            /\ In (PyRound.round (tier_cost t) 2) tier_costs).
  { intros t Ht. unfold tier_names in Ht. simpl in Ht.
    destruct Ht as [<-|[<-|[<-|[<-|[]]]]]; vm_compute; tauto. }
  split; [|split].
  - unfold tier_names. repeat constructor; vm_compute; eauto.
  - intros data_gb iops.
    pose proof (recommend_cluster_tier_closed data_gb iops) as Hin.
    destruct (Hnames _ Hin) as (Hl & Hc & _). auto.
  - intros d. unfold tier_row_of. cbn [Estimated_Monthly_Cost].
    apply Hnames, recommend_cluster_tier_closed.
Qed.

(** ** The size normalizer *)

Lemma parse_data_size_guard (s : string) :
  contains "#div/0" (lower (strip s)) = true
  \/ startswith "0.00" (lower (strip s)) = true
  \/ lower (strip s) = EmptyString ->
  parse_data_size s = Ok 0.
Proof.
  unfold parse_data_size. intros [H|[H|H]]; rewrite H.
  - reflexivity.
  - rewrite !orb_true_r. reflexivity.
  - reflexivity.
Qed.

(** C9: a size whose trimmed, lower-cased text starts with 0.00 is 0.0
    whatever follows, unit included. *)
Theorem parse_data_size_zero_prefix (s : string) :
  startswith "0.00" (lower (strip s)) = true -> parse_data_size s = Ok 0.
Proof.
  intros H. apply parse_data_size_guard. auto.
Qed.

(** [0.005 TB] is normalized to 0.0 although its literal times 1024 is the
    float 5.12. *)
Lemma parse_data_size_zero_prefix_witness :
  parse_data_size "0.005 TB" = Ok 0
  /\ option_map (fun val => val * 1024) (PyFloat.float_of_string "0.005")
     = Some 5.12.
Proof.
  split.
  - apply (parse_data_size_zero_prefix "0.005 TB"). reflexivity.
  - vm_compute. reflexivity.
Defined.

(** The conversion that follows the guards, for a size whose numeric prefix
    is a float literal of value [val]. *)
Lemma parse_data_size_units (s : string) (val : float) :
  contains "#div/0" (lower (strip s)) = false ->
  startswith "0.00" (lower (strip s)) = false ->
  PyFloat.float_of_string (span_num (lower (strip s))) = Some val ->
  parse_data_size s =
    Ok (if contains "tb" (lower (strip s)) then val * 1024
        else if contains "gb" (lower (strip s)) then val
        else if contains "mb" (lower (strip s)) then val / 1024
        else val).
Proof.
  intros Hdiv Hzero Hval. unfold parse_data_size.
  set (t := lower (strip s)) in *.
  rewrite Hdiv, Hzero.
  assert (Hne : span_num t <> EmptyString).
  { intros E. rewrite E in Hval. vm_compute in Hval. discriminate. }
  assert (H1 : String.eqb t "0.00 mb" = false).
  { destruct (String.eqb_spec t "0.00 mb") as [E|]; [|reflexivity].
    rewrite E in Hzero. vm_compute in Hzero. discriminate. }
  assert (H2 : String.eqb t EmptyString = false).
  { destruct (String.eqb_spec t EmptyString) as [E|]; [|reflexivity].
    rewrite E in Hne. now contradiction Hne. }
  rewrite H1, H2. cbn [orb].
  unfold re_match_num.
  destruct (span_num t) eqn:E; [now contradiction Hne|].
  rewrite Hval.
  repeat destruct (contains _ t); reflexivity.
Qed.

(** C5, as amended: the five conversions of the spec hold exactly; and for
    a size that passes the two guards (no error sentinel, no leading 0.00)
    and whose leading run of digits and dots is a float literal, the tests
    are made in the order of the code: a size containing [tb] is its
    literal times 1024, else one containing [gb] is its literal, else one
    containing [mb] is its literal divided by 1024, else it is its
    literal. *)
Theorem parse_data_size_conversion :
  (parse_data_size "1 TB" = Ok 1024
   /\ parse_data_size "512 MB" = Ok 0.5
   /\ parse_data_size "3.5 GB" = Ok 3.5
   /\ parse_data_size "#DIV/0!" = Ok 0
   /\ parse_data_size EmptyString = Ok 0)
  /\ (forall (s : string) (val : float),
        contains "#div/0" (lower (strip s)) = false ->
        startswith "0.00" (lower (strip s)) = false ->
        PyFloat.float_of_string (span_num (lower (strip s))) = Some val ->
        (contains "tb" (lower (strip s)) = true ->
         parse_data_size s = Ok (val * 1024))
        /\ (contains "tb" (lower (strip s)) = false ->
            contains "gb" (lower (strip s)) = true ->
            parse_data_size s = Ok val)
        /\ (contains "tb" (lower (strip s)) = false ->
            contains "gb" (lower (strip s)) = false ->
            contains "mb" (lower (strip s)) = true ->
            parse_data_size s = Ok (val / 1024))
        /\ (contains "tb" (lower (strip s)) = false ->
            contains "gb" (lower (strip s)) = false ->
            contains "mb" (lower (strip s)) = false ->
            parse_data_size s = Ok val)).
Proof.
  split; [repeat split; vm_compute; reflexivity|].
  intros s val Hdiv Hzero Hval.
  pose proof (parse_data_size_units s val Hdiv Hzero Hval) as Hu.
  repeat split; intros; rewrite Hu;
    repeat match goal with H : contains _ _ = _ |- _ => rewrite H end;
    reflexivity.
Qed.

Lemma parse_data_size_conversion_witness :
  parse_data_size " 1.26 TB " = Ok (1.26 * 1024)
  /\ parse_data_size "897.46 GB" = Ok 897.46
  /\ parse_data_size "0.21 MB" = Ok (0.21 / 1024)
  /\ parse_data_size "12" = Ok 12.
Proof.
  split; [|split; [|split]].
  - pose proof (proj2 parse_data_size_conversion " 1.26 TB " 1.26
                  eq_refl eq_refl eq_refl) as (H & _).
    apply H. reflexivity.
  - pose proof (proj2 parse_data_size_conversion "897.46 GB" 897.46
                  eq_refl eq_refl eq_refl) as (_ & H & _).
    apply H; reflexivity.
  - pose proof (proj2 parse_data_size_conversion "0.21 MB" 0.21
                  eq_refl eq_refl eq_refl) as (_ & _ & H & _).
    apply H; reflexivity.
  - pose proof (proj2 parse_data_size_conversion "12" 12
                  eq_refl eq_refl eq_refl) as (_ & _ & _ & H).
    apply H; reflexivity.
Defined.

(** The unit rule does not hold of every input: a size that starts with
    0.00 is 0.0 whatever its unit, and with two unit tokens the first test
    that matches decides, [tb] before [gb] before [mb]. *)
Lemma unit_rule_has_exceptions :
  parse_data_size "0.005 TB" = Ok 0
  /\ parse_data_size "0.005 TB" <> Ok (0.005 * 1024)
  /\ parse_data_size "2 mb of 1 tb" = Ok 2048
  /\ parse_data_size "2 mb of 1 tb" <> Ok (2 / 1024)
  /\ parse_data_size "3 GB (was 1 TB)" = Ok 3072
  /\ parse_data_size "3 GB (was 1 TB)" <> Ok 3.
Proof.
  repeat split; try (vm_compute; reflexivity);
    intros H; vm_compute in H; discriminate H.
Qed.

(** [parse_data_size] raises exactly when no guard fires and the numeric
    prefix matched by the regular expression is not a float literal. *)
Lemma parse_data_size_raises_iff (s : string) :
  parse_data_size s = Raise ValueError
  <-> contains "#div/0" (lower (strip s)) = false
      /\ startswith "0.00" (lower (strip s)) = false
      /\ span_num (lower (strip s)) <> EmptyString
      /\ PyFloat.float_of_string (span_num (lower (strip s))) = None.
Proof.
  unfold parse_data_size, re_match_num. set (t := lower (strip s)).
  destruct (contains "#div/0" t) eqn:Hd;
    [split; [discriminate | intros (H & _); discriminate]|].
  destruct (startswith "0.00" t) eqn:Hz;
    [rewrite orb_true_r; split; [discriminate | intros (_ & H & _); discriminate]|].
  destruct (String.eqb_spec t "0.00 mb") as [E|_];
    [rewrite E in Hz; vm_compute in Hz; discriminate|].
  cbn [orb].
  destruct (String.eqb_spec t EmptyString) as [E|_].
  - rewrite E. simpl.
    split; [discriminate | intros (_ & _ & H & _); now contradiction H].
  - destruct (span_num t) as [|c g].
    + split; [discriminate | intros (_ & _ & H & _); now contradiction H].
    + destruct (PyFloat.float_of_string (String c g)).
      * split; [repeat destruct (contains _ t); discriminate
               | intros (_ & _ & _ & H); discriminate].
      * split; [intros _; repeat split; discriminate | reflexivity].
Qed.

(** C2: [parse_data_size] is not total. A numeric prefix that is not a float
    literal (two dots, or a dot alone) passes the regular expression and
    makes [float] raise [ValueError]; a prefix of more than 308 digits gives
    an infinite size. *)
Theorem parse_data_size_raises :
  parse_data_size "1.2.3 GB" = Raise ValueError
  /\ parse_data_size "." = Raise ValueError
  /\ parse_data_size "..5 TB" = Raise ValueError
  /\ parse_data_size (String "1" (string_of_list_ascii (repeat "0"%char 309)))
     = Ok infinity.
Proof.
  repeat split; vm_compute; reflexivity.
Qed.

(** ** Record assembly *)

(** A throughput row changes no client name and adds no record when its
    client is already present. *)
Lemma update_first_clients (name : string) (r w : float)
    (l l' : list (client_record float)) :
  update_first name r w l = Some l' ->
  List.map client l' = List.map client l
  /\ List.map data_gb l' = List.map data_gb l
  /\ In name (List.map client l).
Proof.
  revert l'. induction l as [|d l IH]; intros l' H; simpl in H; [discriminate|].
  destruct (String.eqb_spec (client d) name) as [E|E].
  - injection H as <-. simpl. rewrite E. auto.
  - destruct (update_first name r w l) as [u|]; [|discriminate].
    injection H as <-. destruct (IH u eq_refl) as (Hc & Hd & Hi).
    simpl. rewrite Hc, Hd. auto.
Qed.

(** The search of a throughput row fails exactly when no record has its
    client. *)
Lemma update_first_None (name : string) (r w : float)
    (l : list (client_record float)) :
  update_first name r w l = None <-> ~ In name (List.map client l).
Proof.
  induction l as [|d l IH]; simpl.
  - tauto.
  - destruct (String.eqb_spec (client d) name) as [E|E].
    + split; [discriminate|]. intros H. exfalso. apply H. auto.
    + destruct (update_first name r w l); simpl.
      * split; [discriminate|]. intros H. exfalso.
        assert (~ In name (List.map client l)) as H' by tauto.
        apply IH in H'. discriminate.
      * split; [|reflexivity]. intros _ [H|H]; [tauto|].
        now apply (proj1 IH).
Qed.

(** A size row appends a record whatever [clients_data] holds. *)
Lemma process_line_size_row (clients_data : list (client_record float))
    (line : string) (v : float) :
  is_empty (strip line) = false ->
  List.length (tokenize (strip line)) = 4%nat ->
  parse_data_size (strip (nth 2 (tokenize (strip line)) EmptyString)) = Ok v ->
  process_line clients_data line
  = Ok (clients_data
        ++ [mk_record (lower (strip (nth 0 (tokenize (strip line)) EmptyString)))
              v 0 0])%list.
Proof.
  intros Hne Hlen Hv. unfold process_line. rewrite Hne, Hlen, Hv. reflexivity.
Qed.

(** A throughput row adds a record only for a client not yet present. *)
Lemma process_line_throughput_row (clients_data : list (client_record float))
    (line : string) :
  is_empty (strip line) = false ->
  List.length (tokenize (strip line)) = 5%nat ->
  exists clients_data',
    process_line clients_data line = Ok clients_data'
    /\ (In (lower (strip (nth 0 (tokenize (strip line)) EmptyString)))
           (List.map client clients_data) ->
        List.map client clients_data' = List.map client clients_data)
    /\ (~ In (lower (strip (nth 0 (tokenize (strip line)) EmptyString)))
             (List.map client clients_data) ->
        List.map client clients_data'
        = (List.map client clients_data
           ++ [lower (strip (nth 0 (tokenize (strip line)) EmptyString))])%list).
Proof.
  intros Hne Hlen. unfold process_line. rewrite Hne, Hlen. cbn [Nat.eqb].
  set (name := lower (strip (nth 0 (tokenize (strip line)) EmptyString))).
  destruct (update_first name _ _ clients_data) as [u|] eqn:Eu.
  - exists u. split; [reflexivity|].
    destruct (update_first_clients _ _ _ _ _ Eu) as (Hc & _ & Hin).
    split; [intros _; exact Hc | intros Hn; contradiction].
  - eexists. split; [reflexivity|].
    apply update_first_None in Eu.
    split; [intros Hin; contradiction|].
    intros _. rewrite List.map_app. reflexivity.
Qed.

(** C1: a size row followed by a throughput row of the same client gives
    one merged record, but the size branch appends without searching: a
    throughput row followed by a size row, or two size rows, leave two
    records for the client. *)
Theorem assemble_size_row_never_merges :
  assemble [acme_size; acme_throughput]
    = Ok [mk_record "acme" 1228.8 900 100]
  /\ assemble [acme_throughput; acme_size]
    = Ok [mk_record "acme" 0 900 100; mk_record "acme" 1228.8 0 0]
  /\ assemble [acme_size; acme_size]
    = Ok [mk_record "acme" 1228.8 0 0; mk_record "acme" 1228.8 0 0].
Proof.
  repeat split; vm_compute; reflexivity.
Qed.

(** ** Floats that compare equal to zero *)

Lemma eqb_zero_iff (x : float) : (x =? 0) = true <-> is_zero_sf (Prim2SF x).
Proof.
  rewrite FloatAxioms.eqb_spec.
  change (Prim2SF 0) with (S754_zero false).
  destruct (Prim2SF x) as [s|s| |s m e]; simpl; try destruct s;
    intuition discriminate.
Qed.

Lemma add_zero_zero (x y : float) :
  (x =? 0) = true -> (y =? 0) = true -> (x + y =? 0) = true.
Proof.
  rewrite !eqb_zero_iff, FloatAxioms.add_spec.
  destruct (Prim2SF x) as [s1| | |]; try contradiction.
  destruct (Prim2SF y) as [s2| | |]; try contradiction.
  destruct s1, s2; simpl; trivial.
Qed.

Lemma div_zero_epsilon (x : float) :
  (x =? 0) = true -> (x / EPSILON =? 0) = true.
Proof.
  rewrite !eqb_zero_iff, FloatAxioms.div_spec.
  set (eps := Prim2SF EPSILON). vm_compute in eps. subst eps.
  destruct (Prim2SF x) as [s| | |]; try contradiction.
  simpl. trivial.
Qed.

Lemma py_sum_zero (l : list float) (acc : float) :
  (acc =? 0) = true ->
  Forall (fun x => (x =? 0) = true) l ->
  (fold_left PrimFloat.add l acc =? 0) = true.
Proof.
  revert acc. induction l as [|x l IH]; intros acc Hacc Hl; simpl; [exact Hacc|].
  inversion Hl; subst. apply IH; [apply add_zero_zero|]; assumption.
Qed.

(** The divisors of the output loop are never zero: float division cannot
    raise [ZeroDivisionError] there. *)
Lemma totals_nonzero (clients_data : list (client_record float)) :
  (total_data_gb clients_data =? 0) = false
  /\ (total_iops clients_data =? 0) = false.
Proof.
  unfold total_data_gb, total_iops. cbn [feqb float_number].
  change (lit 0 0) with 0.
  split.
  - destruct (py_sum (List.map data_gb clients_data) =? 0) eqn:E;
      [vm_compute; reflexivity | exact E].
  - destruct (py_sum (List.map iops_of clients_data) =? 0) eqn:E;
      [vm_compute; reflexivity | exact E].
Qed.

(** ** Signs of float results *)

Lemma nonneg_leb (x : float) : nonneg x -> (0 <=? x) = true.
Proof.
  unfold nonneg. rewrite FloatAxioms.leb_spec.
  change (Prim2SF 0) with (S754_zero false).
  destruct (Prim2SF x) as [s|s| |s m e]; simpl; intros H;
    try contradiction; subst; reflexivity.
Qed.

Section Rounding.
Local Open Scope Z_scope.

Lemma shr_1_nonneg (mrs : shr_record) :
  0 <= shr_m mrs -> 0 <= shr_m (shr_1 mrs).
Proof.
  destruct mrs as [m r s]. destruct m as [|p|p]; simpl; try lia;
    destruct p; simpl; lia.
Qed.

Lemma iter_pos_invariant {A : Type} (P : A -> Prop) (f : A -> A) :
  (forall x, P x -> P (f x)) -> forall n x, P x -> P (SpecFloat.iter_pos f n x).
Proof.
  intros Hf. induction n as [n IH|n IH|]; intros x Hx; simpl; auto.
Qed.

Lemma shr_nonneg (mrs : shr_record) (e n : Z) :
  0 <= shr_m mrs -> 0 <= shr_m (fst (shr mrs e n)).
Proof.
  intros H. unfold shr. destruct n; simpl; trivial.
  apply (iter_pos_invariant (fun r => 0 <= shr_m r)); trivial.
  apply shr_1_nonneg.
Qed.

Lemma shr_fexp_nonneg (m e : Z) (l : location) :
  0 <= m -> 0 <= shr_m (fst (shr_fexp prec emax m e l)).
Proof.
  intros H. unfold shr_fexp. apply shr_nonneg.
  destruct l as [|[]]; exact H.
Qed.

Lemma round_nearest_even_nonneg (m : Z) (l : location) :
  0 <= m -> 0 <= round_nearest_even m l.
Proof.
  intros H. destruct l as [|[]]; simpl; try destruct (Z.even m); lia.
Qed.

Lemma binary_round_aux_nonneg (m e : Z) (l : location) :
  0 <= m -> nonneg_sf (binary_round_aux prec emax false m e l).
Proof.
  intros H. unfold binary_round_aux.
  pose proof (shr_fexp_nonneg m e l H) as H1.
  destruct (shr_fexp prec emax m e l) as [mrs1 e1]. simpl in H1.
  pose proof (shr_fexp_nonneg _ e1 loc_Exact
                (round_nearest_even_nonneg _ (loc_of_shr_record mrs1) H1))
    as H2.
  destruct (shr_fexp prec emax _ e1 loc_Exact) as [mrs2 e2]. simpl in H2.
  destruct (shr_m mrs2); simpl; [reflexivity| |lia].
  destruct (_ <=? _); reflexivity.
Qed.

Lemma binary_round_nonneg (m : positive) (e : Z) :
  nonneg_sf (binary_round prec emax false m e).
Proof.
  unfold binary_round. destruct (shl_align _ _ _) as [mz ez].
  apply binary_round_aux_nonneg. lia.
Qed.

Lemma SFdiv_nonneg (x : spec_float) (m : positive) (e : Z) :
  nonneg_sf x -> nonneg_sf (SFdiv prec emax x (S754_finite false m e)).
Proof.
  destruct x as [s|s| |s mx ex]; simpl; intros Hx; try contradiction;
    subst; try reflexivity.
  unfold SFdiv_core_binary.
  set (m' := match _ - _ - _ with Zpos _ => _ | Z0 => _ | Zneg _ => _ end).
  assert (Hm' : 0 <= m').
  { subst m'. destruct (_ - _ - _); try lia. apply Z.shiftl_nonneg. lia. }
  pose proof (Z.div_pos m' (Zpos m) Hm' ltac:(lia)) as Hq.
  unfold Z.div in Hq. destruct (Z.div_eucl m' (Zpos m)) as [q r].
  apply binary_round_aux_nonneg. exact Hq.
Qed.

Lemma SFmul_nonneg (x : spec_float) (m : positive) (e : Z) :
  nonneg_sf x -> nonneg_sf (SFmul prec emax x (S754_finite false m e)).
Proof.
  destruct x as [s|s| |s mx ex]; simpl; intros Hx; try contradiction;
    subst; try reflexivity.
  apply binary_round_aux_nonneg. lia.
Qed.

Lemma SFldexp_nonneg (x : spec_float) (e : Z) :
  nonneg_sf x -> nonneg_sf (SFldexp prec emax x e).
Proof.
  destruct x as [s|s| |s mx ex]; simpl; intros Hx; try contradiction;
    subst; try reflexivity.
  apply binary_round_nonneg.
Qed.

Lemma SF2Prim_nonneg (x : spec_float) :
  nonneg_sf x -> nonneg (SF2Prim x).
Proof.
  unfold nonneg.
  destruct x as [s|s| |s m e]; simpl; intros Hx; try contradiction; subst.
  - reflexivity.
  - reflexivity.
  - unfold Z.ldexp. rewrite ldshiftexp_spec. apply SFldexp_nonneg.
    rewrite of_uint63_spec. unfold binary_normalize.
    pose proof (Uint63.to_Z_bounded (Uint63Axioms.of_Z (Zpos m))) as Hb.
    destruct (Uint63Axioms.to_Z _); [reflexivity| |lia].
    apply binary_round_nonneg.
Qed.

End Rounding.

Lemma mul_1024_nonneg (x : float) : nonneg x -> nonneg (x * 1024).
Proof.
  unfold nonneg. rewrite FloatAxioms.mul_spec.
  set (k := Prim2SF 1024). vm_compute in k. subst k.
  apply SFmul_nonneg.
Qed.

Lemma div_1024_nonneg (x : float) : nonneg x -> nonneg (x / 1024).
Proof.
  unfold nonneg. rewrite FloatAxioms.div_spec.
  set (k := Prim2SF 1024). vm_compute in k. subst k.
  apply SFdiv_nonneg.
Qed.

Lemma of_decimal_nonneg (n e : Z) : nonneg (PyFloat.of_decimal false n e).
Proof.
  unfold PyFloat.of_decimal. destruct n; try reflexivity.
  apply SF2Prim_nonneg, SFdiv_nonneg. reflexivity.
Qed.

(** ** Sizes are never negative *)

Lemma parse_number_nonneg (l : list ascii) (v : float) :
  PyFloat.parse_number false l = Some v -> nonneg v.
Proof.
  unfold PyFloat.parse_number.
  destruct (PyFloat.span_digits l) as [ip r1].
  destruct (match r1 with
            | "."%char :: r => PyFloat.span_digits r
            | _ => ([], r1)
            end) as [fp r2].
  destruct (ip ++ fp)%list as [|c mant]; [discriminate|].
  destruct r2 as [|c' r3].
  - intros [= <-]. apply of_decimal_nonneg.
  - destruct (Ascii.eqb c' "e" || Ascii.eqb c' "E"); [|discriminate].
    destruct (PyFloat.sign_of r3) as [eneg r4].
    destruct (PyFloat.span_digits r4) as [[|d ds] [|? ?]]; try discriminate.
    intros [= <-]. apply of_decimal_nonneg.
Qed.

Lemma num_char_facts (c : ascii) :
  is_num_char c = true ->
  is_space c = false
  /\ Ascii.eqb c "_" = false
  /\ Ascii.eqb c "-" = false
  /\ Ascii.eqb c "+" = false
  /\ Ascii.eqb (lower_char c) "n" = false
  /\ Ascii.eqb (lower_char c) "i" = false.
Proof.
  destruct c as [[] [] [] [] [] [] [] []]; vm_compute; intros H;
    try discriminate H; repeat split.
Qed.

Lemma span_num_numeric (s : string) : numeric (list_ascii_of_string (span_num s)).
Proof.
  induction s as [|c s IH]; simpl; [constructor|].
  destruct (is_num_char c) eqn:E; simpl; constructor; assumption.
Qed.

Lemma lstrip_numeric (s : string) :
  numeric (list_ascii_of_string s) -> lstrip s = s.
Proof.
  destruct s as [|c s]; simpl; [reflexivity|]. intros H. inversion H; subst.
  destruct (num_char_facts c) as (-> & _); trivial.
Qed.

Lemma rstrip_numeric (s : string) :
  numeric (list_ascii_of_string s) -> rstrip s = s.
Proof.
  induction s as [|c s IH]; simpl; [reflexivity|]. intros H. inversion H; subst.
  rewrite IH by assumption.
  destruct (num_char_facts c) as (-> & _); trivial.
  destruct s; reflexivity.
Qed.

Lemma sign_of_numeric (l : list ascii) :
  numeric l -> PyFloat.sign_of l = (false, l).
Proof.
  destruct l as [|c l]; [reflexivity|]. intros H. inversion H as [|? ? Hc _]; subst.
  destruct c as [[] [] [] [] [] [] [] []]; try reflexivity;
    vm_compute in Hc; discriminate Hc.
Qed.

Lemma numeric_word_not_special (l : list ascii) :
  numeric l ->
  String.eqb (lower (string_of_list_ascii l)) "inf" = false
  /\ String.eqb (lower (string_of_list_ascii l)) "infinity" = false
  /\ String.eqb (lower (string_of_list_ascii l)) "nan" = false.
Proof.
  destruct l as [|c l]; [repeat split|]. intros H. inversion H; subst.
  destruct (num_char_facts c) as (_ & _ & _ & _ & Hn & Hi); trivial.
  simpl. rewrite Hn, Hi. repeat split.
Qed.

(** [float] applied to a string of digits and dots gives no NaN and no
    negative value. *)
Lemma float_of_numeric_nonneg (g : string) (val : float) :
  numeric (list_ascii_of_string g) ->
  PyFloat.float_of_string g = Some val -> nonneg val.
Proof.
  intros Hg. unfold PyFloat.float_of_string, strip.
  rewrite (lstrip_numeric g Hg), (rstrip_numeric g Hg).
  destruct (PyFloat.underscores_ok None _); [|discriminate].
  assert (Hd : numeric (PyFloat.drop_underscores (list_ascii_of_string g))).
  { unfold PyFloat.drop_underscores, numeric.
    apply List.Forall_forall. intros c Hc. apply List.filter_In in Hc.
    unfold numeric in Hg. rewrite List.Forall_forall in Hg. apply Hg, Hc. }
  rewrite (sign_of_numeric _ Hd).
  destruct (numeric_word_not_special _ Hd) as (-> & -> & ->).
  cbn [orb]. apply parse_number_nonneg.
Qed.

Lemma parse_data_size_nonneg (s : string) (v : float) :
  parse_data_size s = Ok v -> (0 <=? v) = true.
Proof.
  unfold parse_data_size. set (t := lower (strip s)).
  destruct (_ || _ || _); [intros [= <-]; reflexivity|].
  destruct (_ || _); [intros [= <-]; reflexivity|].
  unfold re_match_num.
  pose proof (span_num_numeric t) as Hg.
  destruct (span_num t) as [|c g] eqn:E; [intros [= <-]; reflexivity|].
  destruct (PyFloat.float_of_string (String c g)) as [val|] eqn:Ev;
    [|discriminate].
  apply float_of_numeric_nonneg in Ev; [|exact Hg].
  destruct (contains "tb" t); [intros [= <-]; apply nonneg_leb, mul_1024_nonneg, Ev|].
  destruct (contains "gb" t); [intros [= <-]; apply nonneg_leb, Ev|].
  destruct (contains "mb" t); intros [= <-]; apply nonneg_leb;
    [apply div_1024_nonneg|]; exact Ev.
Qed.

Lemma update_first_size_ok (name : string) (r w : float)
    (l l' : list (client_record float)) :
  update_first name r w l = Some l' -> Forall size_ok l -> Forall size_ok l'.
Proof.
  revert l'. induction l as [|d l IH]; intros l' H Hl; simpl in H; [discriminate|].
  inversion Hl as [|? ? Hd Hl']; subst.
  destruct (String.eqb (client d) name).
  - injection H as <-. constructor; assumption.
  - destruct (update_first name r w l) as [u|]; [|discriminate].
    injection H as <-. constructor; [assumption|]. now apply IH.
Qed.

Lemma process_line_size_ok (l l' : list (client_record float)) (line : string) :
  process_line l line = Ok l' -> Forall size_ok l -> Forall size_ok l'.
Proof.
  unfold process_line. intros H Hl.
  destruct (is_empty (strip line)); [injection H as <-; exact Hl|].
  destruct (Nat.eqb (List.length (tokenize (strip line))) 4).
  - destruct (parse_data_size _) as [v|e] eqn:Ev; [|discriminate].
    cbn in H. injection H as <-.
    apply Forall_app. split; [exact Hl|].
    constructor; [|constructor]. exact (parse_data_size_nonneg _ _ Ev).
  - destruct (Nat.eqb (List.length (tokenize (strip line))) 5);
      [|injection H as <-; exact Hl].
    destruct (update_first _ _ _ l) as [u|] eqn:Eu; injection H as <-.
    + exact (update_first_size_ok _ _ _ _ _ Eu Hl).
    + apply Forall_app. split; [exact Hl|].
      constructor; [|constructor]. reflexivity.
Qed.

Lemma assemble_from_size_ok (lines : list string) :
  forall l l', assemble_from l lines = Ok l' ->
               Forall size_ok l -> Forall size_ok l'.
Proof.
  induction lines as [|line lines IH]; intros l l' H Hl; simpl in H.
  - injection H as <-. exact Hl.
  - destruct (process_line l line) as [l1|e] eqn:E1; [|discriminate].
    cbn in H. eapply IH; [exact H|]. eapply process_line_size_ok; eassumption.
Qed.

(** C4, as amended: on every input on which assembly completes, every
    record has [data_gb] at least 0; a size field that holds the error
    sentinel, starts with 0.00 or has no leading digit or dot is normalized
    to 0.0; a throughput field that holds the error sentinel, is blank or is
    not a float literal is normalized to 0.0 and never raises, and any other
    throughput field keeps the value of its literal, sign included. *)
Theorem assembled_fields_normalized :
  (forall (lines : list string) (clients_data : list (client_record float)),
      assemble lines = Ok clients_data ->
      Forall (fun d => (0 <=? data_gb d) = true) clients_data)
  /\ (forall s : string,
        contains "#div/0" (lower (strip s)) = true
        \/ lower (strip s) = EmptyString
        \/ PyFloat.float_of_string (lower (strip s)) = None ->
        parse_float_maybe s = 0)
  /\ (forall (s : string) (v : float),
        contains "#div/0" (lower (strip s)) = false ->
        PyFloat.float_of_string (lower (strip s)) = Some v ->
        parse_float_maybe s = v)
  /\ (forall s : string,
        contains "#div/0" (lower (strip s)) = true
        \/ startswith "0.00" (lower (strip s)) = true
        \/ span_num (lower (strip s)) = EmptyString ->
        parse_data_size s = Ok 0)
  /\ (forall (l : list (client_record float)) (line : string),
        columns line = Some 4%nat ->
        contains "#div/0" (lower (strip (size_field line))) = true
        \/ startswith "0.00" (lower (strip (size_field line))) = true
        \/ span_num (lower (strip (size_field line))) = EmptyString ->
        process_line l line
        = Ok (l ++ [mk_record (client_field line) 0 0 0])%list).
Proof.
  assert (Hsize : forall s : string,
             contains "#div/0" (lower (strip s)) = true
             \/ startswith "0.00" (lower (strip s)) = true
             \/ span_num (lower (strip s)) = EmptyString ->
             parse_data_size s = Ok 0).
  { intros s [H|[H|H]]; [apply parse_data_size_guard; auto..|].
    unfold parse_data_size, re_match_num. rewrite H.
    destruct (_ || _ || _); [reflexivity|]. destruct (_ || _); reflexivity. }
  split; [|split; [|split; [|split]]].
  - intros lines l H. apply (assemble_from_size_ok lines [] l H). constructor.
  - intros s. unfold parse_float_maybe. intros [H|[H|H]]; rewrite H.
    + reflexivity.
    + rewrite orb_true_r. reflexivity.
    + destruct (_ || _); reflexivity.
  - intros s v Hdiv Hv. unfold parse_float_maybe. rewrite Hdiv, Hv.
    destruct (lower (strip s)); [vm_compute in Hv; discriminate|reflexivity].
  - exact Hsize.
  - intros l line H4 H. unfold columns in H4. unfold process_line.
    destruct (is_empty (strip line)); [discriminate|]. injection H4 as ->.
    cbn [Nat.eqb]. fold (size_field line). fold (client_field line).
    rewrite (Hsize _ H). reflexivity.
Qed.

Lemma assembled_fields_normalized_witness :
  Forall (fun d => (0 <=? data_gb d) = true)
    [mk_record "aahs" (1.26 * 1024) 884.711 421.3;
     mk_record "bcd" 0.5 0 0;
     mk_record "efg" 0 0 0].
Proof.
  apply (proj1 assembled_fields_normalized sample_export).
  vm_compute. reflexivity.
Defined.

(** A negative or NaN throughput literal is stored as it is, and a size
    field with two dots aborts the assembly. *)
Lemma assembled_fields_can_be_negative :
  assemble [row ["acme"; "-5"; "nan"; "90%"; "10%"]]
    = Ok [mk_record "acme" 0 (-5) nan]
  /\ (0 <=? -5) = false
  /\ (0 <=? nan) = false
  /\ assemble [row ["acme"; "1 TB"; "1.2.3 TB"; "5%"]] = Raise ValueError.
Proof.
  repeat split; vm_compute; reflexivity.
Qed.

(** ** Totals that are zero *)

Lemma is_nan_iff (x : float) : is_nan x = true <-> Prim2SF x = S754_nan.
Proof.
  unfold is_nan. rewrite FloatAxioms.eqb_spec. unfold SFeqb.
  destruct (Prim2SF x) as [s|s| |s m e]; simpl; try destruct s; simpl;
    try rewrite Z.compare_refl;
    try (change (Pos.compare_cont Eq m m) with (Pos.compare m m);
         rewrite Pos.compare_refl);
    simpl; split; intros H; try discriminate H; reflexivity.
Qed.

Lemma is_nan_false_iff (x : float) :
  is_nan x = false <-> Prim2SF x <> S754_nan.
Proof.
  rewrite <- is_nan_iff. destruct (is_nan x); split; congruence.
Qed.

Lemma binary_round_aux_not_nan (s : bool) (m e : Z) (l : location) :
  (0 <= m)%Z -> binary_round_aux prec emax s m e l <> S754_nan.
Proof.
  intros H. unfold binary_round_aux.
  pose proof (shr_fexp_nonneg m e l H) as H1.
  destruct (shr_fexp prec emax m e l) as [mrs1 e1]. simpl in H1.
  pose proof (shr_fexp_nonneg _ e1 loc_Exact
                (round_nearest_even_nonneg _ (loc_of_shr_record mrs1) H1))
    as H2.
  destruct (shr_fexp prec emax _ e1 loc_Exact) as [mrs2 e2]. simpl in H2.
  destruct (shr_m mrs2); simpl; [discriminate| |lia].
  destruct (_ <=? _)%Z; discriminate.
Qed.

Lemma SFadd_finite (a b : spec_float) :
  finite_sf (SFadd prec emax a b) -> finite_sf a /\ finite_sf b.
Proof.
  destruct a as [sa|sa| |sa ma ea], b as [sb|sb| |sb mb eb]; simpl;
    try destruct sa; try destruct sb; simpl; tauto.
Qed.

Lemma fold_add_finite (l : list float) (acc : float) :
  finite_sf (Prim2SF (fold_left PrimFloat.add l acc)) ->
  Forall (fun x => finite_sf (Prim2SF x)) l.
Proof.
  revert acc. induction l as [|x l IH]; intros acc H; simpl in H; [constructor|].
  assert (Hacc : finite_sf (Prim2SF (acc + x))).
  { clear IH. revert H. generalize (acc + x). induction l as [|y l IHl];
      intros a H; simpl in H; [exact H|].
    apply IHl in H. rewrite FloatAxioms.add_spec in H.
    now apply SFadd_finite in H. }
  constructor; [|exact (IH _ H)].
  rewrite FloatAxioms.add_spec in Hacc. now apply SFadd_finite in Hacc.
Qed.

Lemma zero_sum_terms_finite (l : list float) :
  (py_sum l =? 0) = true -> Forall (fun x => finite_sf (Prim2SF x)) l.
Proof.
  intros H. apply eqb_zero_iff in H. apply (fold_add_finite l (lit 0 0)).
  unfold py_sum in H. cbn [fadd float_number] in H.
  destruct (Prim2SF _); simpl in *; tauto.
Qed.

Lemma div_epsilon_not_nan (x : float) :
  finite_sf (Prim2SF x) -> is_nan (x / EPSILON) = false.
Proof.
  intros Hx. apply is_nan_false_iff. rewrite FloatAxioms.div_spec.
  set (eps := Prim2SF EPSILON). vm_compute in eps. subst eps.
  destruct (Prim2SF x) as [s|s| |s m e]; simpl in *; try contradiction;
    [discriminate|].
  unfold SFdiv_core_binary.
  set (m' := match (_ - _ - _)%Z with Zpos _ => _ | Z0 => _ | Zneg _ => _ end).
  assert (Hm' : (0 <= m')%Z).
  { subst m'. destruct (_ - _ - _)%Z; try lia. apply Z.shiftl_nonneg. lia. }
  match goal with
  | |- context [Z.div_eucl m' ?d] =>
      pose proof (Z.div_pos m' d Hm' ltac:(lia)) as Hq;
      unfold Z.div in Hq; destruct (Z.div_eucl m' d) as [q r]
  end.
  apply binary_round_aux_not_nan. exact Hq.
Qed.

(** ** The zero guard of the allocation *)

(** C8, as amended: when every client has [data_gb == 0] the data total is
    replaced by 1e-9 and every [data_share] is zero, hence finite and not
    NaN, but zero and not an even split; the same holds of [iops_share]
    when every read and write rate is zero. Whenever a total is zero, also
    by rates or sizes that cancel, it is replaced by 1e-9 and each share is
    the client's value divided by 1e-9, which is never NaN. No division of
    the output loop has a zero divisor. *)
Theorem zero_totals_give_zero_shares :
  (forall (pure_data_only : bool) (total_cost : float)
      (clients_data : list (client_record float)),
      Forall (fun d => (data_gb d =? 0) = true) clients_data ->
      total_data_gb clients_data = EPSILON
      /\ Forall (fun r => (data_share r =? 0) = true)
           (allocate pure_data_only total_cost clients_data))
  /\ (forall (pure_data_only : bool) (total_cost : float)
        (clients_data : list (client_record float)),
        Forall (fun d => (avg_read_ops_s d =? 0) = true
                         /\ (avg_write_ops_s d =? 0) = true) clients_data ->
        total_iops clients_data = EPSILON
        /\ Forall (fun r => (iops_share r =? 0) = true)
             (allocate pure_data_only total_cost clients_data))
  /\ (forall clients_data : list (client_record float),
        (total_data_gb clients_data =? 0) = false
        /\ (total_iops clients_data =? 0) = false)
  /\ (forall (pure_data_only : bool) (total_cost : float)
        (clients_data : list (client_record float)),
        (py_sum (List.map iops_of clients_data) =? 0) = true ->
        total_iops clients_data = EPSILON
        /\ List.map iops_share (allocate pure_data_only total_cost clients_data)
           = List.map (fun d => iops_of d / EPSILON) clients_data
        /\ Forall (fun r => is_nan (iops_share r) = false)
             (allocate pure_data_only total_cost clients_data))
  /\ (forall (pure_data_only : bool) (total_cost : float)
        (clients_data : list (client_record float)),
        (py_sum (List.map data_gb clients_data) =? 0) = true ->
        total_data_gb clients_data = EPSILON
        /\ List.map data_share (allocate pure_data_only total_cost clients_data)
           = List.map (fun d => data_gb d / EPSILON) clients_data
        /\ Forall (fun r => is_nan (data_share r) = false)
             (allocate pure_data_only total_cost clients_data)).
Proof.
  split; [|split; [|split; [exact totals_nonzero|split]]];
    intros pure cost l Hl.
  - assert (Ht : total_data_gb l = EPSILON).
    { unfold total_data_gb, py_sum. cbn [feqb fadd float_number].
      change (lit 0 0) with 0. rewrite py_sum_zero; [reflexivity..|].
      rewrite Forall_map. exact Hl. }
    split; [exact Ht|]. unfold allocate. rewrite Ht, Forall_map.
    eapply Forall_impl; [exact Hl|]. intros d Hd.
    cbn. apply div_zero_epsilon, Hd.
  - assert (Ht : total_iops l = EPSILON).
    { unfold total_iops, py_sum. cbn [feqb fadd float_number].
      change (lit 0 0) with 0. rewrite py_sum_zero; [reflexivity..|].
      rewrite Forall_map. eapply Forall_impl; [exact Hl|].
      intros d [Hr Hw]. now apply add_zero_zero. }
    split; [exact Ht|]. unfold allocate. rewrite Ht, Forall_map.
    eapply Forall_impl; [exact Hl|]. intros d [Hr Hw].
    cbn. now apply div_zero_epsilon, add_zero_zero.
  - assert (Ht : total_iops l = EPSILON).
    { unfold total_iops. cbn [feqb float_number]. change (lit 0 0) with 0.
      now rewrite Hl. }
    split; [exact Ht|]. unfold allocate. rewrite Ht, List.map_map.
    split; [reflexivity|]. rewrite Forall_map.
    pose proof (zero_sum_terms_finite _ Hl) as Hfin.
    rewrite Forall_map in Hfin. eapply Forall_impl; [exact Hfin|].
    intros d Hd. cbn. apply div_epsilon_not_nan, Hd.
  - assert (Ht : total_data_gb l = EPSILON).
    { unfold total_data_gb. cbn [feqb float_number]. change (lit 0 0) with 0.
      now rewrite Hl. }
    split; [exact Ht|]. unfold allocate. rewrite Ht, List.map_map.
    split; [reflexivity|]. rewrite Forall_map.
    pose proof (zero_sum_terms_finite _ Hl) as Hfin.
    rewrite Forall_map in Hfin. eapply Forall_impl; [exact Hfin|].
    intros d Hd. cbn. apply div_epsilon_not_nan, Hd.
Qed.

Lemma zero_totals_give_zero_shares_witness :
  (total_data_gb idle_pair = EPSILON
   /\ Forall (fun r => (data_share r =? 0) = true)
        (allocate true TOTAL_CLUSTER_COST idle_pair))
  /\ (total_iops cancel_pair = EPSILON
      /\ List.map iops_share (allocate true TOTAL_CLUSTER_COST cancel_pair)
         = List.map (fun d => iops_of d / EPSILON) cancel_pair
      /\ Forall (fun r => is_nan (iops_share r) = false)
           (allocate true TOTAL_CLUSTER_COST cancel_pair)).
Proof.
  destruct zero_totals_give_zero_shares as (Hdata & _ & _ & Hiops & _).
  split.
  - apply Hdata. repeat constructor.
  - apply Hiops. vm_compute. reflexivity.
Defined.

(** With two clients of size zero the even split is one half; both data
    shares are 0.0. With rates 5 and -5 the IOPS total is zero and the
    shares are 5e9 and -5e9, and with rates 1e300 and -1e300 they are
    infinite. *)
Lemma zero_data_shares_not_even :
  List.map data_share (allocate true TOTAL_CLUSTER_COST idle_pair) = [0; 0]
  /\ ~ Forall (fun r => close_to 1e-6 (data_share r) 0.5 = true)
         (allocate true TOTAL_CLUSTER_COST idle_pair)
  /\ (py_sum (List.map iops_of cancel_pair) =? 0) = true
  /\ List.map iops_share (allocate true TOTAL_CLUSTER_COST cancel_pair)
     = [5000000000; -5000000000]
  /\ (py_sum (List.map iops_of huge_pair) =? 0) = true
  /\ List.map iops_share (allocate true TOTAL_CLUSTER_COST huge_pair)
     = [infinity; neg_infinity].
Proof.
  split; [vm_compute; reflexivity|].
  split; [|repeat split; vm_compute; reflexivity].
  intros H. inversion H as [|r l Hr _]; subst. vm_compute in Hr. discriminate.
Qed.

(** ** Conservation of the allocation, within a tolerance *)

(** The error of one binary64 operation is bounded from the definition of
    the rounding, [binary_round_aux]: the first shift leaves a mantissa of
    at most 53 bits, the rounding adds at most one unit in the last place,
    and a carry into a 54th bit is renormalized exactly. *)

Section RoundingSteps.
Local Open Scope Z_scope.

Lemma digits2_pos_bounds (p : positive) :
  2 ^ (Zpos (digits2_pos p) - 1) <= Zpos p < 2 ^ Zpos (digits2_pos p).
Proof.
  induction p as [p IH|p IH|]; cbn [digits2_pos].
  - rewrite Pos2Z.inj_succ, (Pos2Z.inj_xI p).
    replace (Z.succ (Zpos (digits2_pos p)) - 1)
      with (Z.succ (Zpos (digits2_pos p) - 1)) by lia.
    rewrite !Z.pow_succ_r by lia. revert IH.
    generalize (2 ^ (Zpos (digits2_pos p) - 1)) (2 ^ Zpos (digits2_pos p)). lia.
  - rewrite Pos2Z.inj_succ, (Pos2Z.inj_xO p).
    replace (Z.succ (Zpos (digits2_pos p)) - 1)
      with (Z.succ (Zpos (digits2_pos p) - 1)) by lia.
    rewrite !Z.pow_succ_r by lia. revert IH.
    generalize (2 ^ (Zpos (digits2_pos p) - 1)) (2 ^ Zpos (digits2_pos p)). lia.
  - simpl. lia.
Qed.

Lemma Zdigits2_bounds (m : Z) :
  0 < m -> 2 ^ (Zdigits2 m - 1) <= m < 2 ^ Zdigits2 m.
Proof.
  destruct m as [|p|p]; try lia. intros _. apply digits2_pos_bounds.
Qed.

Lemma Zdigits2_nonneg (m : Z) : 0 <= Zdigits2 m.
Proof. destruct m; simpl; lia. Qed.

(** A mantissa below [2 ^ n] has at most [n] digits. *)
Lemma Zdigits2_le (m n : Z) : 0 <= m < 2 ^ n -> 0 <= n -> Zdigits2 m <= n.
Proof.
  intros [H0 Hm] Hn. destruct (Z.eq_dec m 0) as [->|Hz]; [exact Hn|].
  destruct (Zdigits2_bounds m ltac:(lia)) as [Hlo _].
  destruct (Z.le_gt_cases (Zdigits2 m) n) as [|Hgt]; [assumption|].
  assert (2 ^ n <= 2 ^ (Zdigits2 m - 1)) by (apply Z.pow_le_mono_r; lia).
  lia.
Qed.

Lemma shr_1_half (mrs : shr_record) :
  0 <= shr_m mrs -> shr_m (shr_1 mrs) = shr_m mrs / 2.
Proof.
  destruct mrs as [m r s]. rewrite <- Z.div2_div.
  destruct m as [|p|p]; simpl; try lia; intros _; destruct p; reflexivity.
Qed.

Lemma iter_pos_count {A : Type} (I : Z -> A -> Prop) (f : A -> A) :
  (forall n x, I n x -> I (n + 1) (f x)) ->
  forall p n x, I n x -> I (n + Zpos p) (SpecFloat.iter_pos f p x).
Proof.
  intros Hf. induction p as [p IH|p IH|]; intros n x Hx; simpl.
  - replace (n + Zpos p~1) with (n + 1 + Zpos p + Zpos p) by lia. auto.
  - replace (n + Zpos p~0) with (n + Zpos p + Zpos p) by lia. auto.
  - auto.
Qed.

Lemma iter_shr_1 (p : positive) (mrs : shr_record) :
  0 <= shr_m mrs ->
  shr_m (SpecFloat.iter_pos shr_1 p mrs) = shr_m mrs / 2 ^ Zpos p.
Proof.
  intros H0.
  assert (Hstep : forall n x,
             0 <= n /\ shr_m x = shr_m mrs / 2 ^ n ->
             0 <= n + 1 /\ shr_m (shr_1 x) = shr_m mrs / 2 ^ (n + 1)).
  { intros n x [Hn Hx]. split; [lia|].
    rewrite shr_1_half, Hx.
    - rewrite Z.pow_add_r, Z.pow_1_r by lia.
      rewrite Z.div_div by (try apply Z.pow_pos_nonneg; lia). reflexivity.
    - rewrite Hx. apply Z.div_pos; [lia|apply Z.pow_pos_nonneg; lia]. }
  destruct (iter_pos_count
              (fun n r => 0 <= n /\ shr_m r = shr_m mrs / 2 ^ n) shr_1
              Hstep p 0 mrs) as [_ E].
  - split; [lia|]. now rewrite Z.div_1_r.
  - exact E.
Qed.

Lemma round_nearest_even_cases (m : Z) (l : location) :
  round_nearest_even m l = m \/ round_nearest_even m l = m + 1.
Proof. destruct l as [|[]]; simpl; try destruct (Z.even m); auto. Qed.

Lemma loc_of_shr_record_of_loc (m : Z) (l : location) :
  loc_of_shr_record (shr_record_of_loc m l) = l.
Proof. destruct l as [|[]]; reflexivity. Qed.

Lemma shr_m_of_loc (m : Z) (l : location) : shr_m (shr_record_of_loc m l) = m.
Proof. destruct l as [|[]]; reflexivity. Qed.

Lemma fexp_cases (e : Z) :
  (fexp prec emax e = e - 53 /\ -1074 <= e - 53)
  \/ (fexp prec emax e = -1074 /\ e - 53 < -1074).
Proof. unfold fexp, emin, prec, emax. lia. Qed.

(** The first shift of [binary_round_aux]: the mantissa is cut down to at
    most 53 bits. *)
Lemma shr_fexp_first (m e : Z) (l : location) :
  0 <= m ->
  exists m1 e1 l1,
    shr_fexp prec emax m e l = (Build_shr_record m1 (fst l1) (snd l1), e1)
    /\ 0 <= m1 < 2 ^ 53 /\ -1074 <= e1 /\ e <= e1
    /\ m1 * 2 ^ (e1 - e) <= m < (m1 + 1) * 2 ^ (e1 - e)
    /\ ((e1 = e /\ m1 = m
         /\ loc_of_shr_record (Build_shr_record m1 (fst l1) (snd l1)) = l)
        \/ (e < e1 /\ (e1 = -1074 \/ 2 ^ 52 <= m1))).
Proof.
  intros H0. unfold shr_fexp, shr.
  set (d := Zdigits2 m). set (k := fexp prec emax (d + e) - e).
  assert (Hd0 : 0 <= d) by apply Zdigits2_nonneg.
  assert (Hmd : m < 2 ^ d).
  { destruct (Z.eq_dec m 0) as [->|]; [apply Z.pow_pos_nonneg; lia|].
    apply Zdigits2_bounds. lia. }
  destruct k as [|p|p] eqn:Ek.
  - exists m, e, (shr_r (shr_record_of_loc m l), shr_s (shr_record_of_loc m l)).
    assert (Hd : d <= 53) by (destruct (fexp_cases (d + e)); lia).
    assert (2 ^ d <= 2 ^ 53) by (apply Z.pow_le_mono_r; lia).
    rewrite Z.sub_diag, Z.pow_0_r.
    split; [destruct l as [|[]]; reflexivity|]. split; [lia|].
    split; [destruct (fexp_cases (d + e)); lia|].
    split; [lia|]. split; [lia|].
    left. split; [reflexivity|]. split; [reflexivity|].
    destruct l as [|[]]; reflexivity.
  - set (r := SpecFloat.iter_pos shr_1 p (shr_record_of_loc m l)).
    assert (Hr : shr_m r = m / 2 ^ Zpos p).
    { unfold r. rewrite iter_shr_1; rewrite shr_m_of_loc; auto. }
    exists (shr_m r), (e + Zpos p), (shr_r r, shr_s r).
    assert (Hp : 0 < 2 ^ Zpos p) by (apply Z.pow_pos_nonneg; lia).
    replace (e + Zpos p - e) with (Zpos p) by lia.
    pose proof (Z.mul_div_le m _ Hp) as Hlo.
    pose proof (Z.mul_succ_div_gt m _ Hp) as Hhi.
    rewrite <- Hr in Hlo, Hhi.
    assert (H1 : 0 <= shr_m r) by (rewrite Hr; apply Z.div_pos; lia).
    assert (Hcase : e + Zpos p = -1074 \/ 2 ^ 52 <= shr_m r).
    { destruct (fexp_cases (d + e)) as [[E _]|[E _]]; [right|left; lia].
      assert (Ed : d = Zpos p + 53) by lia.
      rewrite Hr. apply Z.div_le_lower_bound; [lia|].
      rewrite <- Z.pow_add_r by lia.
      destruct (Z.eq_dec m 0) as [->|Hm0].
      - unfold d in Ed. simpl in Ed. lia.
      - destruct (Zdigits2_bounds m ltac:(lia)) as [Hlow _]. fold d in Hlow.
        replace (Zpos p + 52) with (d - 1) by lia. exact Hlow. }
    assert (Hup : shr_m r < 2 ^ 53).
    { rewrite Hr. apply Z.div_lt_upper_bound; [lia|].
      rewrite <- Z.pow_add_r by lia.
      assert (2 ^ d <= 2 ^ (Zpos p + 53)).
      { apply Z.pow_le_mono_r; [lia|]. destruct (fexp_cases (d + e)); lia. }
      lia. }
    split; [destruct r; reflexivity|]. split; [lia|].
    split; [destruct (fexp_cases (d + e)); lia|].
    split; [lia|]. split; [lia|].
    right. split; [lia|exact Hcase].
  - exists m, e, (shr_r (shr_record_of_loc m l), shr_s (shr_record_of_loc m l)).
    assert (Hd : d <= 53) by (destruct (fexp_cases (d + e)); lia).
    assert (2 ^ d <= 2 ^ 53) by (apply Z.pow_le_mono_r; lia).
    rewrite Z.sub_diag, Z.pow_0_r.
    split; [destruct l as [|[]]; reflexivity|]. split; [lia|].
    split; [destruct (fexp_cases (d + e)); lia|].
    split; [lia|]. split; [lia|].
    left. split; [reflexivity|]. split; [reflexivity|].
    destruct l as [|[]]; reflexivity.
Qed.

(** What [binary_round_aux] returns: the mantissa [m2] at the exponent
    [e1], both after the first shift and the rounding, renormalized when
    the rounding carried into a 54th bit. *)
Lemma binary_round_aux_cases (s : bool) (m e : Z) (l : location) :
  0 <= m ->
  exists m1 e1 m2,
    0 <= m1 < 2 ^ 53 /\ -1074 <= e1 /\ e <= e1
    /\ m1 * 2 ^ (e1 - e) <= m < (m1 + 1) * 2 ^ (e1 - e)
    /\ (m2 = m1 \/ m2 = m1 + 1)
    /\ ((e1 = e /\ m1 = m /\ m2 = round_nearest_even m l)
        \/ (e < e1 /\ (e1 = -1074 \/ 2 ^ 52 <= m1)))
    /\ binary_round_aux prec emax s m e l
       = match m2 with
         | Z0 => S754_zero s
         | Zpos p =>
             if m2 <? 2 ^ 53
             then if e1 <=? 971 then S754_finite s p e1 else S754_infinity s
             else if e1 + 1 <=? 971
                  then S754_finite s (2 ^ 52)%positive (e1 + 1)
                  else S754_infinity s
         | Zneg _ => S754_nan
         end.
Proof.
  intros H0.
  destruct (shr_fexp_first m e l H0)
    as (m1 & e1 & l1 & E1 & Hm1 & Hemin & Hee & Hcut & Hcase).
  set (m2 := round_nearest_even m1
               (loc_of_shr_record (Build_shr_record m1 (fst l1) (snd l1)))).
  exists m1, e1, m2.
  assert (Hm2 : m2 = m1 \/ m2 = m1 + 1) by apply round_nearest_even_cases.
  split; [exact Hm1|]. split; [exact Hemin|]. split; [exact Hee|].
  split; [exact Hcut|]. split; [exact Hm2|]. split.
  { destruct Hcase as [(-> & -> & Hl)|Hshift]; [left|right; exact Hshift].
    repeat split. unfold m2. now rewrite Hl. }
  unfold binary_round_aux. rewrite E1. cbn [shr_m]. fold m2.
  destruct (Z.ltb_spec m2 (2 ^ 53)) as [Hlt|Hge].
  - assert (Hd : Zdigits2 m2 <= 53) by (apply Zdigits2_le; lia).
    assert (Hk : fexp prec emax (Zdigits2 m2 + e1) - e1 <= 0)
      by (destruct (fexp_cases (Zdigits2 m2 + e1)); lia).
    unfold shr_fexp, shr.
    destruct (fexp prec emax (Zdigits2 m2 + e1) - e1) as [|p|p]; try lia;
      cbn [shr_record_of_loc shr_m];
      (destruct m2 as [|p2|p2]; [reflexivity|reflexivity|lia]).
  - assert (E2 : m2 = 2 ^ 53) by lia. rewrite E2.
    unfold shr_fexp, shr.
    replace (fexp prec emax (Zdigits2 (2 ^ 53) + e1) - e1) with 1.
    + reflexivity.
    + change (Zdigits2 (2 ^ 53)) with 54.
      destruct (fexp_cases (54 + e1)); lia.
Qed.

End RoundingSteps.

Section RealRounding.
Local Open Scope R_scope.

Lemma bpow_pos (e : Z) : 0 < bpow e.
Proof. apply powerRZ_lt. lra. Qed.

Lemma bpow_add (a b : Z) : bpow (a + b) = bpow a * bpow b.
Proof. apply powerRZ_add. lra. Qed.

Lemma bpow_IZR (k : Z) : (0 <= k)%Z -> bpow k = IZR (2 ^ k).
Proof.
  intros Hk. destruct k as [|p|p]; [reflexivity| |lia].
  symmetry. apply (Zpower_pos_powerRZ 2 p).
Qed.

Lemma bpow_le (a b : Z) : (a <= b)%Z -> bpow a <= bpow b.
Proof.
  intros H. replace b with (a + (b - a))%Z by lia. rewrite bpow_add.
  assert (1 <= bpow (b - a)).
  { rewrite bpow_IZR by lia. apply IZR_le.
    assert (0 < 2 ^ (b - a))%Z by (apply Z.pow_pos_nonneg; lia). lia. }
  pose proof (bpow_pos a). nra.
Qed.

Lemma bpow_cancel (a : Z) : bpow (- a) * bpow a = 1.
Proof. rewrite <- bpow_add. replace (- a + a)%Z with 0%Z by lia. reflexivity. Qed.

Lemma binary_round_aux_error (s : bool) (m e : Z) (l : location) (x : R) :
  (0 <= m)%Z ->
  IZR m * bpow e <= x <= IZR (m + 1) * bpow e ->
  (l = loc_Exact -> x = IZR m * bpow e) ->
  (l <> loc_Exact -> (2 ^ 52 <= m)%Z \/ (e <= -1074)%Z) ->
  (binary_round_aux prec emax s m e l = S754_infinity s /\ bpow 971 <= x)
  \/ ((binary_round_aux prec emax s m e l = S754_zero s
       \/ exists m' e', binary_round_aux prec emax s m e l = S754_finite s m' e')
      /\ (Rabs (mag (binary_round_aux prec emax s m e l) - x) <= bpow (-52) * x
          \/ (Rabs (mag (binary_round_aux prec emax s m e l) - x) <= bpow (-1074)
              /\ ~ (l = loc_Exact /\ (-1074 <= e)%Z)))).
Proof.
  intros H0 Hx Hexact Hinexact.
  destruct (binary_round_aux_cases s m e l H0)
    as (m1 & e1 & m2 & Hm1 & Hemin & Hee & Hcut & Hm2 & Hcase & ->).
  set (B := bpow e1).
  assert (HB : 0 < B) by apply bpow_pos.
  assert (HBe : B = bpow (e1 - e) * bpow e).
  { unfold B. rewrite <- bpow_add. f_equal. lia. }
  assert (Hpe : 0 < bpow e) by apply bpow_pos.
  assert (Hlo : IZR m1 * B <= x).
  { destruct Hcut as [Hc _]. apply IZR_le in Hc.
    rewrite mult_IZR, <- bpow_IZR in Hc by lia. rewrite HBe. nra. }
  assert (Hhi : x <= IZR (m1 + 1) * B).
  { destruct Hcut as [_ Hc]. assert (Hc' : (m + 1 <= (m1 + 1) * 2 ^ (e1 - e))%Z) by lia.
    apply IZR_le in Hc'.
    rewrite mult_IZR, <- bpow_IZR in Hc' by lia. rewrite HBe. nra. }
  rewrite plus_IZR in Hhi.
  assert (Hx0 : 0 <= x).
  { assert (0 <= IZR m1) by (apply IZR_le; lia). nra. }
  assert (Hv : Rabs (IZR m2 * B - x) <= B).
  { apply Rabs_le. destruct Hm2 as [->| ->]; [|rewrite plus_IZR]; lra. }
  assert (Hkind : IZR m2 * B = x
                  \/ (e1 = (-1074)%Z /\ ~ (l = loc_Exact /\ (-1074 <= e)%Z))
                  \/ bpow 52 * B <= x).
  { destruct Hcase as [(-> & -> & ->)|(Hlt & [->|H52])].
    - destruct l as [|c].
      + left. simpl. unfold B. now rewrite Hexact.
      + destruct Hinexact as [H52|He]; [discriminate| |].
        * right; right. apply IZR_le in H52. rewrite <- bpow_IZR in H52 by lia.
          nra.
        * right; left. split; [lia|]. intros [? _]; discriminate.
    - right; left. split; [reflexivity|]. intros [_ ?]. lia.
    - right; right. apply IZR_le in H52. rewrite <- bpow_IZR in H52 by lia. nra. }
  assert (Hrel : bpow 52 * B <= x -> B <= bpow (-52) * x).
  { intros H. assert (Hc : bpow (-52) * bpow 52 = 1) by apply (bpow_cancel 52).
    pose proof (bpow_pos (-52)).
    replace B with (bpow (-52) * (bpow 52 * B)) by (rewrite <- Rmult_assoc, Hc; ring).
    nra. }
  assert (Herr : Rabs (IZR m2 * B - x) <= bpow (-52) * x
                 \/ (Rabs (IZR m2 * B - x) <= bpow (-1074)
                     /\ ~ (l = loc_Exact /\ (-1074 <= e)%Z))).
  { destruct Hkind as [E|[[E Hn]|H52]].
    - left. rewrite E. replace (x - x) with 0 by ring. rewrite Rabs_R0.
      pose proof (bpow_pos (-52)). nra.
    - right. split; [|exact Hn].
      replace (bpow (-1074)) with B by (unfold B; now rewrite E). exact Hv.
    - left. specialize (Hrel H52). lra. }
  assert (Hover : (971 <= e1)%Z -> (0 < m2)%Z -> bpow 971 <= x).
  { intros He1 Hpos. pose proof (bpow_le 971 e1 He1) as Hle. fold B in Hle.
    destruct Hkind as [E|[[E _]|H52]].
    - rewrite <- E. assert (1 <= IZR m2) by (apply IZR_le; lia). nra.
    - lia.
    - assert (1 <= bpow 52).
      { rewrite bpow_IZR by lia. apply IZR_le. lia. }
      nra. }
  destruct m2 as [|p|p]; [| |lia].
  - right. split; [left; reflexivity|].
    simpl mag. rewrite Rmult_0_l in Herr. exact Herr.
  - destruct (Z.ltb_spec (Zpos p) (2 ^ 53)) as [Hlt|Hge].
    + destruct (Z.leb_spec e1 971) as [He|He].
      * right. split; [right; eauto|]. exact Herr.
      * left. split; [reflexivity|]. apply Hover; lia.
    + destruct (Z.leb_spec (e1 + 1) 971) as [He|He].
      * right. split; [right; eauto|].
        assert (Em : mag (S754_finite s (2 ^ 52) (e1 + 1)) = IZR (Zpos p) * B).
        { assert (Ep : Zpos p = (2 ^ 53)%Z) by lia. rewrite Ep.
          cbn [mag]. rewrite bpow_add. fold B.
          change (Z.pos (2 ^ 52)) with (2 ^ 52)%Z.
          rewrite <- !bpow_IZR by lia.
          replace 53%Z with (52 + 1)%Z by lia. rewrite bpow_add. ring. }
        rewrite Em. exact Herr.
      * left. split; [reflexivity|]. apply Hover; lia.
Qed.

End RealRounding.

Section Operations.
Local Open Scope R_scope.

Lemma valid_emin_ok (x : spec_float) : valid_binary x = true -> emin_ok x.
Proof.
  destruct x as [s|s| |s m e]; simpl; trivial.
  unfold valid_binary, SpecFloat.valid_binary, bounded, canonical_mantissa.
  intros H.
  apply andb_prop in H as [H _]. apply Z.eqb_eq in H.
  destruct (fexp_cases (Zpos (digits2_pos m) + e)); lia.
Qed.

Lemma Pos_iter_xO (m d : positive) :
  Zpos (Pos.iter xO m d) = (Zpos m * 2 ^ Zpos d)%Z.
Proof.
  induction d as [|d IH] using Pos.peano_ind.
  - simpl. lia.
  - rewrite Pos.iter_succ, Pos2Z.inj_succ, Z.pow_succ_r by lia.
    rewrite (Pos2Z.inj_xO (Pos.iter xO m d)), IH. ring.
Qed.

Lemma shl_align_value (mx : positive) (ex ez : Z) :
  snd (shl_align mx ex ez) = Z.min ex ez
  /\ IZR (Zpos (fst (shl_align mx ex ez))) * bpow (Z.min ex ez)
     = IZR (Zpos mx) * bpow ex.
Proof.
  unfold shl_align. destruct (ez - ex)%Z as [|d|d] eqn:E; cbn [fst snd].
  - replace (Z.min ex ez) with ex by lia. auto.
  - replace (Z.min ex ez) with ex by lia. auto.
  - replace (Z.min ex ez) with ez by lia. split; [reflexivity|].
    rewrite Pos_iter_xO, mult_IZR, <- bpow_IZR by lia.
    rewrite Rmult_assoc, <- bpow_add. do 2 f_equal. lia.
Qed.

Lemma binary_round_error (m : positive) (e : Z) :
  (-1074 <= e)%Z ->
  (binary_round prec emax false m e = S754_infinity false
   /\ bpow 971 <= IZR (Zpos m) * bpow e)
  \/ (finite_nonneg_sf (binary_round prec emax false m e)
      /\ Rabs (mag (binary_round prec emax false m e) - IZR (Zpos m) * bpow e)
         <= bpow (-52) * (IZR (Zpos m) * bpow e)).
Proof.
  intros He. unfold binary_round.
  destruct (shl_align_value m e (fexp prec emax (Zpos (digits2_pos m) + e)))
    as [E2 Ev].
  destruct (shl_align m e _) as [mz ez]. cbn [fst snd] in *.
  rewrite <- E2 in Ev. rewrite <- Ev.
  assert (Hez : (-1074 <= ez)%Z).
  { rewrite E2. destruct (fexp_cases (Zpos (digits2_pos m) + e)); lia. }
  destruct (binary_round_aux_error false (Zpos mz) ez loc_Exact
              (IZR (Zpos mz) * bpow ez)) as [Hinf|[Hfin Herr]].
  - lia.
  - rewrite plus_IZR. pose proof (bpow_pos ez). lra.
  - reflexivity.
  - intros H. now contradiction H.
  - left. exact Hinf.
  - right. split.
    + destruct Hfin as [->|(m' & e' & ->)]; exact I.
    + destruct Herr as [Hrel|[_ Hn]]; [exact Hrel|].
      exfalso. apply Hn. split; [reflexivity|exact Hez].
Qed.

Lemma SFadd_error (a b : spec_float) :
  finite_nonneg_sf a -> finite_nonneg_sf b -> emin_ok a -> emin_ok b ->
  (SFadd prec emax a b = S754_infinity false /\ bpow 971 <= mag a + mag b)
  \/ (finite_nonneg_sf (SFadd prec emax a b)
      /\ Rabs (mag (SFadd prec emax a b) - (mag a + mag b))
         <= bpow (-52) * (mag a + mag b)).
Proof.
  assert (Hz : forall x, 0 <= x -> Rabs (x - x) <= bpow (-52) * x).
  { intros x Hx. replace (x - x) with 0 by ring. rewrite Rabs_R0.
    pose proof (bpow_pos (-52)). nra. }
  assert (Hmag : forall s m e, 0 <= mag (S754_finite s m e)).
  { intros s m e. cbn [mag]. pose proof (bpow_pos e).
    assert (0 < IZR (Zpos m)) by (apply IZR_lt; lia). nra. }
  destruct a as [sa|sa| |sa ma ea], b as [sb|sb| |sb mb eb];
    try contradiction; intros Ha Hb Hea Heb.
  - right. destruct sa, sb; cbn [SFadd mag]; split; try exact I;
      rewrite Rplus_0_l; apply Hz; lra.
  - right. destruct sb; [contradiction|]. cbn [SFadd]. split; [exact I|].
    cbn [mag]. rewrite Rplus_0_l. apply Hz. apply (Hmag false mb eb).
  - right. destruct sa; [contradiction|]. cbn [SFadd]. split; [exact I|].
    cbn [mag]. rewrite Rplus_0_r. apply Hz. apply (Hmag false ma ea).
  - destruct sa, sb; try contradiction. cbn [SFadd cond_Zopp].
    destruct (shl_align_value ma ea (Z.min ea eb)) as [_ Va].
    destruct (shl_align_value mb eb (Z.min ea eb)) as [_ Vb].
    replace (Z.min ea (Z.min ea eb)) with (Z.min ea eb) in Va by lia.
    replace (Z.min eb (Z.min ea eb)) with (Z.min ea eb) in Vb by lia.
    cbn [mag emin_ok] in *. rewrite <- Va, <- Vb, <- Rmult_plus_distr_r, <- plus_IZR.
    cbn [Z.add binary_normalize]. apply binary_round_error. lia.
Qed.

Lemma SFmul_error (a b : spec_float) :
  finite_nonneg_sf a -> finite_nonneg_sf b ->
  (SFmul prec emax a b = S754_infinity false /\ bpow 971 <= mag a * mag b)
  \/ (finite_nonneg_sf (SFmul prec emax a b)
      /\ (Rabs (mag (SFmul prec emax a b) - mag a * mag b)
          <= bpow (-52) * (mag a * mag b)
          \/ Rabs (mag (SFmul prec emax a b) - mag a * mag b) <= bpow (-1074))).
Proof.
  assert (Hz : Rabs (0 - 0) <= bpow (-52) * 0).
  { replace (0 - 0) with 0 by ring. rewrite Rabs_R0. lra. }
  destruct a as [sa|sa| |sa ma ea], b as [sb|sb| |sb mb eb];
    try contradiction; intros Ha Hb.
  - right. cbn [SFmul mag]. split; [exact I|]. left. now rewrite Rmult_0_l.
  - right. destruct sb; [contradiction|]. cbn [SFmul mag].
    split; [exact I|]. left. now rewrite Rmult_0_l.
  - right. destruct sa; [contradiction|]. cbn [SFmul mag].
    split; [exact I|]. left. now rewrite Rmult_0_r.
  - destruct sa, sb; try contradiction. cbn [SFmul xorb mag].
    replace (IZR (Zpos ma) * bpow ea * (IZR (Zpos mb) * bpow eb))
      with (IZR (Zpos (ma * mb)) * bpow (ea + eb))
      by (rewrite Pos2Z.inj_mul, mult_IZR, bpow_add; ring).
    destruct (binary_round_aux_error false (Zpos (ma * mb)) (ea + eb) loc_Exact
                (IZR (Zpos (ma * mb)) * bpow (ea + eb))) as [Hinf|[Hfin Herr]].
    + lia.
    + rewrite plus_IZR. pose proof (bpow_pos (ea + eb)). lra.
    + reflexivity.
    + intros H. now contradiction H.
    + left. exact Hinf.
    + right. split.
      * destruct Hfin as [->|(m' & e' & ->)]; exact I.
      * destruct Herr as [Hrel|[Habs _]]; auto.
Qed.

End Operations.

Section Division.
Local Open Scope R_scope.

Lemma new_location_exact (nb k : Z) : new_location nb k = loc_Exact -> k = 0%Z.
Proof.
  unfold new_location, new_location_even, new_location_odd.
  destruct (Z.even nb); destruct (Z.eqb_spec k 0); auto; discriminate.
Qed.

(** The quotient handed to the rounding has 53 bits or sits at [emin]. *)
Lemma SFdiv_core_binary_spec (ma mb : positive) (ea eb : Z) :
  exists q e' l,
    SFdiv_core_binary prec emax (Zpos ma) ea (Zpos mb) eb = (q, e', l)
    /\ (0 <= q)%Z
    /\ (e' <= ea - eb)%Z
    /\ (q * Zpos mb <= Zpos ma * 2 ^ (ea - eb - e') < (q + 1) * Zpos mb)%Z
    /\ (l = loc_Exact -> (Zpos ma * 2 ^ (ea - eb - e') = q * Zpos mb)%Z)
    /\ ((2 ^ 52 <= q)%Z \/ (e' <= -1074)%Z).
Proof.
  unfold SFdiv_core_binary.
  set (d1 := Zdigits2 (Zpos ma)). set (d2 := Zdigits2 (Zpos mb)).
  set (e' := Z.min (fexp prec emax (d1 + ea - (d2 + eb))) (ea - eb)).
  set (s := (ea - eb - e')%Z).
  assert (Hs : (0 <= s)%Z) by (unfold s, e'; lia).
  set (m' := match s with
             | 0%Z => Zpos ma
             | Zpos _ => Z.shiftl (Zpos ma) s
             | Zneg _ => 0%Z
             end).
  assert (Hm' : m' = (Zpos ma * 2 ^ s)%Z).
  { unfold m'. destruct s as [|p|p] eqn:Es; [lia| |lia].
    apply Z.shiftl_mul_pow2. lia. }
  pose proof (Z_div_mod m' (Zpos mb) ltac:(lia)) as Hdiv.
  destruct (Z.div_eucl m' (Zpos mb)) as [q r]. destruct Hdiv as [Hqr Hr].
  exists q, e', (new_location (Zpos mb) r).
  assert (Hm0 : (0 <= m')%Z).
  { rewrite Hm'. apply Z.mul_nonneg_nonneg; [lia|]. apply Z.pow_nonneg. lia. }
  assert (Hq0 : (0 <= q)%Z) by nia.
  split; [reflexivity|]. split; [exact Hq0|]. split; [unfold e'; lia|].
  fold s. rewrite <- Hm'. split; [lia|]. split.
  { intros Hl. apply new_location_exact in Hl. lia. }
  destruct (Z.le_gt_cases e' (-1074)) as [He|He]; [right; exact He|left].
  assert (Hsd : (d2 - d1 + 53 <= s)%Z).
  { unfold s. destruct (fexp_cases (d1 + ea - (d2 + eb))) as [[E _]|[E _]];
      unfold e' in *; lia. }
  destruct (Zdigits2_bounds (Zpos ma) ltac:(lia)) as [Hma _].
  destruct (Zdigits2_bounds (Zpos mb) ltac:(lia)) as [_ Hmb].
  fold d1 in Hma. fold d2 in Hmb.
  assert (Hd1 : (1 <= d1)%Z) by (unfold d1; simpl; lia).
  assert (Hd2 : (1 <= d2)%Z) by (unfold d2; simpl; lia).
  assert (Hpow : (2 ^ d2 * 2 ^ 52 <= 2 ^ (d1 - 1) * 2 ^ s)%Z).
  { rewrite <- !Z.pow_add_r by lia. apply Z.pow_le_mono_r; lia. }
  assert (H2s : (0 < 2 ^ s)%Z) by (apply Z.pow_pos_nonneg; lia).
  assert (Hge : (Zpos mb * 2 ^ 52 <= m')%Z).
  { rewrite Hm'.
    assert ((Zpos mb * 2 ^ 52 <= 2 ^ d2 * 2 ^ 52)%Z)
      by (apply Z.mul_le_mono_nonneg_r; lia).
    assert ((2 ^ (d1 - 1) * 2 ^ s <= Zpos ma * 2 ^ s)%Z)
      by (apply Z.mul_le_mono_nonneg_r; lia).
    lia. }
  apply Z.div_le_lower_bound with (b := Zpos mb) in Hge; [|lia].
  replace (m' / Zpos mb)%Z with q in Hge; [exact Hge|].
  apply Z.div_unique with r; [lia|]. lia.
Qed.

Lemma SFdiv_error (a : spec_float) (mb : positive) (eb : Z) :
  finite_nonneg_sf a ->
  (SFdiv prec emax a (S754_finite false mb eb) = S754_infinity false
   /\ bpow 971 <= mag a / mag (S754_finite false mb eb))
  \/ (finite_nonneg_sf (SFdiv prec emax a (S754_finite false mb eb))
      /\ (Rabs (mag (SFdiv prec emax a (S754_finite false mb eb))
                - mag a / mag (S754_finite false mb eb))
          <= bpow (-52) * (mag a / mag (S754_finite false mb eb))
          \/ Rabs (mag (SFdiv prec emax a (S754_finite false mb eb))
                   - mag a / mag (S754_finite false mb eb))
             <= bpow (-1074))).
Proof.
  destruct a as [sa|sa| |sa ma ea]; try contradiction; intros Ha.
  - right. cbn [SFdiv mag]. split; [exact I|]. left.
    unfold Rdiv. rewrite Rmult_0_l, Rminus_diag, Rabs_R0. lra.
  - destruct sa; [contradiction|]. cbn [SFdiv xorb].
    destruct (SFdiv_core_binary_spec ma mb ea eb)
      as (q & e' & l & -> & Hq0 & He' & Hq & Hex & Hpre).
    cbn [mag].
    set (x := IZR (Zpos ma) * bpow ea / (IZR (Zpos mb) * bpow eb)).
    set (t := bpow e').
    assert (Ht : 0 < t) by apply bpow_pos.
    assert (Hb : 0 < IZR (Zpos mb)) by (apply IZR_lt; lia).
    assert (Hpb : 0 < bpow eb) by apply bpow_pos.
    set (M := IZR (Zpos ma * 2 ^ (ea - eb - e'))).
    assert (Hx : x * IZR (Zpos mb) = M * t).
    { unfold x, t, M. rewrite mult_IZR, <- bpow_IZR by lia.
      replace (bpow ea) with (bpow (ea - eb - e') * bpow e' * bpow eb).
      - field. lra.
      - rewrite <- !bpow_add. f_equal. lia. }
    assert (Hlo : IZR q * t <= x).
    { destruct Hq as [Hq _]. apply IZR_le in Hq. fold M in Hq.
      rewrite mult_IZR in Hq.
      apply Rmult_le_reg_r with (IZR (Zpos mb)); [exact Hb|]. rewrite Hx.
      apply Rmult_le_compat_r with (r := t) in Hq; lra. }
    assert (Hhi : x <= IZR (q + 1) * t).
    { destruct Hq as [_ Hq]. apply Z.lt_le_incl, IZR_le in Hq. fold M in Hq.
      rewrite mult_IZR in Hq.
      apply Rmult_le_reg_r with (IZR (Zpos mb)); [exact Hb|]. rewrite Hx.
      apply Rmult_le_compat_r with (r := t) in Hq; lra. }
    destruct (binary_round_aux_error false q e' l x) as [Hinf|[Hfin Herr]].
    + exact Hq0.
    + split; assumption.
    + intros Hl. specialize (Hex Hl).
      apply Rmult_eq_reg_r with (IZR (Zpos mb)); [|lra].
      rewrite Hx. unfold M, t. rewrite Hex, mult_IZR. ring.
    + intros _. exact Hpre.
    + left. exact Hinf.
    + right. split.
      * destruct Hfin as [->|(m' & e'' & ->)]; exact I.
      * destruct Herr as [Hrel|[Habs _]]; auto.
Qed.

End Division.

Section FloatErrors.
Local Open Scope R_scope.

Lemma finite_nonneg_of_leb (x : float) :
  (0 <=? x)%float = true -> finite_sf (Prim2SF x) -> finite_nonneg x.
Proof.
  unfold finite_nonneg. rewrite FloatAxioms.leb_spec.
  change (Prim2SF 0) with (S754_zero false).
  destruct (Prim2SF x) as [s|s| |s m e]; simpl; try contradiction; trivial.
  destruct s; [discriminate|trivial].
Qed.

Lemma finite_nonneg_finite (x : float) : finite_nonneg x -> finite_sf (Prim2SF x).
Proof.
  unfold finite_nonneg. destruct (Prim2SF x) as [s|s| |s m e]; simpl; trivial.
Qed.

Lemma value_mag (x : float) : finite_nonneg x -> value x = mag (Prim2SF x).
Proof.
  unfold finite_nonneg, value.
  destruct (Prim2SF x) as [s|s| |s m e]; simpl; try contradiction; trivial.
  destruct s; [contradiction|trivial].
Qed.

Lemma mag_nonneg (x : spec_float) : 0 <= mag x.
Proof.
  destruct x as [s|s| |s m e]; simpl; try lra.
  pose proof (bpow_pos e). assert (0 < IZR (Zpos m)) by (apply IZR_lt; lia). nra.
Qed.

Lemma value_nonneg (x : float) : finite_nonneg x -> 0 <= value x.
Proof. intros H. rewrite (value_mag x H). apply mag_nonneg. Qed.

Lemma value_pos (x : float) :
  finite_nonneg x -> (x =? 0)%float = false -> 0 < value x.
Proof.
  intros H Hz. rewrite (value_mag x H). unfold finite_nonneg in H.
  rewrite FloatAxioms.eqb_spec in Hz.
  change (Prim2SF 0) with (S754_zero false) in Hz.
  destruct (Prim2SF x) as [s|s| |s m e]; simpl in *; try contradiction.
  - discriminate.
  - pose proof (bpow_pos e). assert (0 < IZR (Zpos m)) by (apply IZR_lt; lia).
    nra.
Qed.

Lemma u52_pos : 0 < u52.
Proof. apply bpow_pos. Qed.

Lemma eta_pos : 0 < eta.
Proof. apply bpow_pos. Qed.

Lemma u52_small : 4096 * u52 <= 1.
Proof.
  assert (H : bpow 12 * bpow (-12) = 1).
  { rewrite <- bpow_add. reflexivity. }
  assert (H12 : bpow 12 = 4096).
  { rewrite bpow_IZR by lia. reflexivity. }
  assert (Hle : u52 <= bpow (-12)) by (apply bpow_le; lia).
  rewrite H12 in H. lra.
Qed.

Lemma eta_le_u52 : eta <= u52.
Proof. apply bpow_le. lia. Qed.

Lemma bpow_971_big : 4 * bpow 900 < bpow 971.
Proof.
  replace 971%Z with (900 + 71)%Z by lia. rewrite bpow_add.
  pose proof (bpow_pos 900).
  assert (4 < bpow 71).
  { rewrite bpow_IZR by lia. apply IZR_lt. reflexivity. }
  nra.
Qed.

Lemma one_le_bpow_900 : 1 <= bpow 900.
Proof. apply (bpow_le 0 900). lia. Qed.

(** Addition of two finite non-negative floats: overflow, or a relative
    error of at most [2^-52]. *)
Lemma add_error (a b : float) :
  finite_nonneg a -> finite_nonneg b ->
  (Prim2SF (a + b) = S754_infinity false /\ bpow 971 <= value a + value b)
  \/ (finite_nonneg (a + b)
      /\ Rabs (value (a + b) - (value a + value b))
         <= u52 * (value a + value b)).
Proof.
  intros Ha Hb. rewrite (value_mag a Ha), (value_mag b Hb).
  destruct (SFadd_error (Prim2SF a) (Prim2SF b) Ha Hb
              (valid_emin_ok _ (Prim2SF_valid a))
              (valid_emin_ok _ (Prim2SF_valid b))) as [H|[H1 H2]].
  - left. now rewrite FloatAxioms.add_spec.
  - right. assert (Hg : finite_nonneg (a + b)).
    { unfold finite_nonneg. now rewrite FloatAxioms.add_spec. }
    split; [exact Hg|]. rewrite (value_mag _ Hg), FloatAxioms.add_spec.
    exact H2.
Qed.

Lemma mul_error (a b : float) :
  finite_nonneg a -> finite_nonneg b ->
  (Prim2SF (a * b) = S754_infinity false /\ bpow 971 <= value a * value b)
  \/ (finite_nonneg (a * b)
      /\ Rabs (value (a * b) - value a * value b)
         <= u52 * (value a * value b) + eta).
Proof.
  intros Ha Hb. rewrite (value_mag a Ha), (value_mag b Hb).
  destruct (SFmul_error (Prim2SF a) (Prim2SF b) Ha Hb) as [H|[H1 H2]].
  - left. now rewrite FloatAxioms.mul_spec.
  - right. assert (Hg : finite_nonneg (a * b)).
    { unfold finite_nonneg. now rewrite FloatAxioms.mul_spec. }
    split; [exact Hg|]. rewrite (value_mag _ Hg), FloatAxioms.mul_spec.
    unfold SF64mul.
    pose proof (mag_nonneg (Prim2SF a)). pose proof (mag_nonneg (Prim2SF b)).
    pose proof u52_pos. pose proof eta_pos. unfold u52, eta in *.
    assert (0 <= mag (Prim2SF a) * mag (Prim2SF b)) by nra.
    destruct H2 as [H2|H2]; nra.
Qed.

Lemma div_error (a b : float) :
  finite_nonneg a -> finite_nonneg b -> (b =? 0)%float = false ->
  (Prim2SF (a / b) = S754_infinity false /\ bpow 971 <= value a / value b)
  \/ (finite_nonneg (a / b)
      /\ Rabs (value (a / b) - value a / value b)
         <= u52 * (value a / value b) + eta).
Proof.
  intros Ha Hb Hz. pose proof (value_pos b Hb Hz) as Hpos.
  rewrite (value_mag a Ha), (value_mag b Hb) in *.
  assert (Eb : exists mb eb, Prim2SF b = S754_finite false mb eb).
  { unfold finite_nonneg in Hb.
    destruct (Prim2SF b) as [s|s| |s m e]; simpl in *; try contradiction.
    - lra.
    - destruct s; [contradiction|eauto]. }
  destruct Eb as (mb & eb & Eb). rewrite Eb in *.
  destruct (SFdiv_error (Prim2SF a) mb eb Ha) as [H|[H1 H2]].
  - left. now rewrite FloatAxioms.div_spec, Eb.
  - right. assert (Hg : finite_nonneg (a / b)).
    { unfold finite_nonneg. now rewrite FloatAxioms.div_spec, Eb. }
    split; [exact Hg|]. rewrite (value_mag _ Hg), FloatAxioms.div_spec, Eb.
    unfold SF64div.
    pose proof (mag_nonneg (Prim2SF a)) as Hna.
    pose proof u52_pos. pose proof eta_pos. unfold u52, eta in *.
    assert (0 <= mag (Prim2SF a) / mag (S754_finite false mb eb)).
    { apply Rmult_le_pos; [exact Hna|]. apply Rlt_le, Rinv_0_lt_compat, Hpos. }
    destruct H2 as [H2|H2]; nra.
Qed.

End FloatErrors.

Section Sums.
Local Open Scope R_scope.

Lemma Rabs_bound (x a : R) : Rabs x <= a -> - a <= x <= a.
Proof.
  intros H. pose proof (Rle_abs x). pose proof (Rle_abs (- x)) as Hn.
  rewrite Rabs_Ropp in Hn. lra.
Qed.

Lemma Rsum_nonneg (l : list R) : Forall (fun x => 0 <= x) l -> 0 <= Rsum l.
Proof.
  induction l as [|x l IH]; intros H; simpl; [lra|].
  inversion H; subst. specialize (IH ltac:(assumption)). lra.
Qed.

Lemma Rsum_member_le (l : list R) (x : R) :
  Forall (fun y => 0 <= y) l -> In x l -> x <= Rsum l.
Proof.
  induction l as [|y l IH]; intros H Hin; simpl; [destruct Hin|].
  inversion H as [|? ? Hy Hl]; subst. pose proof (Rsum_nonneg l Hl).
  destruct Hin as [->|Hin]; [lra|]. specialize (IH Hl Hin). lra.
Qed.

Lemma fold_add_finite_acc (l : list float) (acc : float) :
  finite_sf (Prim2SF (fold_left PrimFloat.add l acc)) -> finite_sf (Prim2SF acc).
Proof.
  revert acc. induction l as [|x l IH]; intros acc H; simpl in H; [exact H|].
  apply IH in H. rewrite FloatAxioms.add_spec in H.
  now apply SFadd_finite in H.
Qed.

(** The running sum of [sum]: after [k] additions the accumulator is within
    a factor [1 - k u] to [1 + 2 k u] of the exact sum. *)
Lemma fold_add_error (l : list float) :
  forall (acc : float) (k : nat) (E : R),
    finite_nonneg acc -> Forall finite_nonneg l ->
    finite_sf (Prim2SF (fold_left PrimFloat.add l acc)) ->
    0 <= E ->
    (1 - INR k * u52) * E <= value acc <= (1 + 2 * INR k * u52) * E ->
    2 * (INR k + INR (List.length l)) * u52 <= 1 ->
    finite_nonneg (fold_left PrimFloat.add l acc)
    /\ (1 - (INR k + INR (List.length l)) * u52)
         * (E + Rsum (List.map value l))
       <= value (fold_left PrimFloat.add l acc)
       <= (1 + 2 * (INR k + INR (List.length l)) * u52)
            * (E + Rsum (List.map value l)).
Proof.
  pose proof u52_pos as Hu.
  induction l as [|x l IH]; intros acc k E Hacc Hl Hfin HE Hb Hk.
  - simpl. rewrite !Rplus_0_r. auto.
  - cbn [fold_left] in *. inversion Hl as [|? ? Hx Hl']; subst.
    pose proof (fold_add_finite_acc _ _ Hfin) as Hfin1.
    destruct (add_error acc x Hacc Hx) as [[Hinf _]|[Hg Herr]].
    { rewrite Hinf in Hfin1. contradiction. }
    apply Rabs_bound in Herr.
    pose proof (value_nonneg x Hx) as Hvx.
    pose proof (pos_INR k) as HK. pose proof (pos_INR (List.length l)) as HL.
    cbn [List.length] in Hk. rewrite S_INR in Hk.
    set (K := INR k) in *. set (L := INR (List.length l)) in *.
    set (A := value acc) in *. set (v := value x) in *.
    set (v' := value (acc + x)) in *.
    destruct (IH (acc + x)%float (S k) (E + v)) as [Hg' Hb'];
      try assumption.
    + lra.
    + rewrite S_INR. fold K.
      assert (HKu : 0 <= K * u52) by (apply Rmult_le_pos; lra).
      assert (HKu1 : 2 * K * u52 <= 1).
      { assert (0 <= L * u52) by (apply Rmult_le_pos; lra). lra. }
      assert (H1 : 0 <= (1 - u52) * (A - (1 - K * u52) * E)).
      { apply Rmult_le_pos; [|lra].
        assert (0 <= L * u52) by (apply Rmult_le_pos; lra). lra. }
      assert (H2 : 0 <= (1 + u52) * ((1 + 2 * K * u52) * E - A)).
      { apply Rmult_le_pos; lra. }
      assert (H3 : 0 <= u52 * E * (1 - 2 * K * u52)).
      { apply Rmult_le_pos; [apply Rmult_le_pos|]; lra. }
      assert (H4 : 0 <= K * u52 * v) by (apply Rmult_le_pos; lra).
      assert (H5 : 0 <= u52 * v) by (apply Rmult_le_pos; lra).
      assert (H6 : 0 <= K * u52 * u52 * E).
      { apply Rmult_le_pos; [apply Rmult_le_pos|]; lra. }
      fold v'. split; lra.
    + rewrite S_INR. fold K L. lra.
    + split; [exact Hg'|].
      cbn [List.length List.map Rsum fold_right]. rewrite !S_INR in *.
      fold K L v in Hb' |- *. fold (Rsum (List.map value l)) in *.
      replace (K + (L + 1)) with (K + 1 + L) by ring.
      replace (E + (v + Rsum (List.map value l)))
        with (E + v + Rsum (List.map value l)) by ring.
      exact Hb'.
Qed.

End Sums.

Section Shares.
Local Open Scope R_scope.

Lemma Rsum_error {A : Type} (f g : A -> R) (a b : R) (l : list A) :
  (forall x, In x l -> Rabs (f x - g x) <= a * g x + b) ->
  Rabs (Rsum (List.map f l) - Rsum (List.map g l))
  <= a * Rsum (List.map g l) + INR (List.length l) * b.
Proof.
  induction l as [|x l IH]; intros H.
  - simpl. rewrite Rminus_diag, Rabs_R0. lra.
  - cbn [List.map Rsum fold_right List.length]. rewrite S_INR.
    fold (Rsum (List.map f l)) (Rsum (List.map g l)).
    specialize (IH (fun y Hy => H y (or_intror Hy))).
    pose proof (H x (or_introl eq_refl)) as Hx.
    replace (f x + Rsum (List.map f l) - (g x + Rsum (List.map g l)))
      with ((f x - g x) + (Rsum (List.map f l) - Rsum (List.map g l))) by ring.
    pose proof (Rabs_triang (f x - g x)
                  (Rsum (List.map f l) - Rsum (List.map g l))).
    lra.
Qed.

Lemma Rsum_scal {A : Type} (f : A -> R) (c : R) (l : list A) :
  Rsum (List.map (fun x => f x * c) l) = Rsum (List.map f l) * c.
Proof.
  induction l as [|x l IH]; simpl; [ring|].
  fold (Rsum (List.map (fun x => f x * c) l)) (Rsum (List.map f l)).
  rewrite IH. ring.
Qed.

Lemma Rsum_blend {A : Type} (f g : A -> R) (a b : R) (l : list A) :
  Rsum (List.map (fun x => f x * a + g x * b) l)
  = Rsum (List.map f l) * a + Rsum (List.map g l) * b.
Proof.
  induction l as [|x l IH]; simpl; [ring|].
  fold (Rsum (List.map (fun x => f x * a + g x * b) l))
    (Rsum (List.map f l)) (Rsum (List.map g l)).
  rewrite IH. ring.
Qed.

Lemma finite_nonneg_zero : finite_nonneg 0%float.
Proof. exact I. Qed.

Lemma value_zero : value 0%float = 0.
Proof. reflexivity. Qed.

(** The shares of a list of finite non-negative floats in their float sum:
    none overflows, each is at most 2, and they sum to 1 within
    [(3 n + 2) 2^-52]. *)
Lemma py_sum_fold (l : list float) :
  py_sum l = fold_left PrimFloat.add l 0%float.
Proof. reflexivity. Qed.

Lemma shares_error (l : list float) :
  Forall finite_nonneg l ->
  finite_sf (Prim2SF (py_sum l)) ->
  (py_sum l =? 0)%float = false ->
  4 * INR (List.length l) * u52 <= 1 ->
  Forall (fun x => finite_nonneg (x / py_sum l)
                   /\ value (x / py_sum l) <= 3
                   /\ value (x / py_sum l)
                      <= 1 + (2 * INR (List.length l) + 3) * u52) l
  /\ Rabs (Rsum (List.map (fun x => value (x / py_sum l)) l) - 1)
     <= (3 * INR (List.length l) + 2) * u52.
Proof.
  rewrite py_sum_fold.
  intros Hl Hfin Hnz Hn.
  pose proof u52_pos as Hu. pose proof eta_pos as Heta.
  pose proof u52_small as Hu1.
  pose proof eta_le_u52 as Heu. pose proof (pos_INR (List.length l)) as HN.
  set (T := fold_left PrimFloat.add l 0%float) in *.
  set (N := INR (List.length l)) in *.
  destruct (fold_add_error l 0%float 0%nat 0 finite_nonneg_zero Hl Hfin)
    as [HT Hb].
  { lra. }
  { rewrite value_zero. simpl. lra. }
  { simpl. fold N. lra. }
  fold T in HT, Hb. simpl INR in Hb. fold N in Hb.
  rewrite !Rplus_0_l in Hb.
  set (S := Rsum (List.map value l)) in *.
  pose proof (value_pos T HT Hnz) as HTpos.
  set (t := value T) in *.
  assert (HNu : 0 <= N * u52) by (apply Rmult_le_pos; lra).
  assert (HS : 0 < S).
  { destruct (Rlt_le_dec 0 S) as [|HS0]; [assumption|].
    assert ((1 - N * u52) * S <= 0).
    { rewrite <- (Rmult_0_r (1 - N * u52)).
      apply Rmult_le_compat_l; lra. }
    assert ((1 + 2 * N * u52) * S <= 0).
    { rewrite <- (Rmult_0_r (1 + 2 * N * u52)).
      apply Rmult_le_compat_l; lra. }
    lra. }
  set (rho := S / t).
  assert (Hrho : rho * t = S) by (unfold rho; field; lra).
  assert (Hrho0 : 0 < rho) by (apply Rdiv_lt_0_compat; lra).
  assert (Hup : rho <= 1 + 2 * N * u52).
  { assert (H1 : (1 - N * u52) * rho <= 1).
    { apply Rmult_le_reg_r with t; [lra|].
      rewrite Rmult_assoc, Hrho. lra. }
    assert (H2 : 0 <= N * u52 * (1 - 2 * (N * u52)))
      by (apply Rmult_le_pos; lra).
    destruct (Rle_lt_dec rho (1 + 2 * N * u52)) as [|Hgt]; [assumption|].
    assert (H3 : (1 - N * u52) * (1 + 2 * N * u52) < (1 - N * u52) * rho)
      by (apply Rmult_lt_compat_l; lra).
    lra. }
  assert (Hlow : 1 - 2 * N * u52 <= rho).
  { assert (H1 : 1 <= (1 + 2 * N * u52) * rho).
    { apply Rmult_le_reg_r with t; [lra|].
      rewrite Rmult_assoc, Hrho. lra. }
    assert (H2 : 0 <= (2 * N * u52) * (2 * N * u52))
      by (apply Rmult_le_pos; lra).
    destruct (Rle_lt_dec (1 - 2 * N * u52) rho) as [|Hlt]; [assumption|].
    assert (H3 : (1 + 2 * N * u52) * rho < (1 + 2 * N * u52) * (1 - 2 * N * u52))
      by (apply Rmult_lt_compat_l; lra).
    lra. }
  assert (Hmem : forall x, In x l ->
             finite_nonneg (x / T)
             /\ Rabs (value (x / T) - value x * / t) <= u52 * (value x * / t) + eta
             /\ 0 <= value x * / t <= rho).
  { intros x Hx.
    assert (Hgx : finite_nonneg x).
    { rewrite List.Forall_forall in Hl. now apply Hl. }
    pose proof (value_nonneg x Hgx) as Hvx.
    assert (HxS : value x <= S).
    { apply Rsum_member_le.
      - rewrite Forall_map. eapply Forall_impl; [exact Hl|].
        intros y Hy. now apply value_nonneg.
      - now apply List.in_map. }
    assert (Hq : 0 <= value x * / t <= rho).
    { assert (0 < / t) by (apply Rinv_0_lt_compat; lra).
      split; [apply Rmult_le_pos; lra|].
      unfold rho, Rdiv. apply Rmult_le_compat_r; lra. }
    destruct (div_error x T Hgx HT Hnz) as [[_ Hover]|[Hg Herr]].
    - exfalso. fold t in Hover. unfold Rdiv in Hover.
      pose proof bpow_971_big. pose proof one_le_bpow_900. lra.
    - fold t in Herr. unfold Rdiv in Herr. auto. }
  split.
  - apply List.Forall_forall. intros x Hx.
    destruct (Hmem x Hx) as (Hg & Herr & Hq). split; [exact Hg|].
    apply Rabs_bound in Herr.
    assert (0 <= u52 * (value x * / t)) by (apply Rmult_le_pos; lra).
    assert (u52 * (value x * / t) <= u52 * 2)
      by (apply Rmult_le_compat_l; lra).
    split; lra.
  - pose proof (Rsum_error (fun x => value (x / T)) (fun x => value x * / t)
                  u52 eta l (fun x Hx => proj1 (proj2 (Hmem x Hx)))) as Hsum.
    rewrite Rsum_scal in Hsum. fold S N in Hsum.
    change (S * / t) with rho in Hsum.
    assert (0 <= u52 * rho) by (apply Rmult_le_pos; lra).
    assert (u52 * rho <= u52 * 2) by (apply Rmult_le_compat_l; lra).
    assert (N * eta <= N * u52) by (apply Rmult_le_compat_l; lra).
    apply Rabs_bound in Hsum. apply Rabs_le. lra.
Qed.

End Shares.

Section Order.
Local Open Scope R_scope.

Lemma is_finite_iff (x : float) :
  is_finite x = true <-> finite_sf (Prim2SF x).
Proof.
  unfold is_finite, is_infinity.
  destruct (is_nan x) eqn:En.
  - apply is_nan_iff in En. rewrite En. simpl. split; [discriminate|tauto].
  - apply is_nan_false_iff in En.
    rewrite FloatAxioms.eqb_spec, FloatAxioms.abs_spec.
    change (Prim2SF infinity) with (S754_infinity false).
    destruct (Prim2SF x) as [s|s| |s m e]; simpl; split;
      try tauto; try discriminate; try reflexivity.
Qed.

(** The mantissa of a valid finite float has at most 53 bits, and exactly
    53 above the smallest exponent. *)
Lemma valid_mantissa (s : bool) (m : positive) (e : Z) :
  valid_binary (S754_finite s m e) = true ->
  (Zpos m < 2 ^ 53)%Z /\ ((-1074 < e)%Z -> (2 ^ 52 <= Zpos m)%Z).
Proof.
  unfold valid_binary, SpecFloat.valid_binary, bounded, canonical_mantissa.
  intros H. apply andb_prop in H as [H _]. apply Z.eqb_eq in H.
  destruct (digits2_pos_bounds m) as [Hlo Hhi].
  set (d := Zpos (digits2_pos m)) in *.
  destruct (fexp_cases (d + e)) as [[E He]|[E He]].
  - assert (d = 53%Z) by lia. split.
    + now replace 53%Z with d by lia.
    + intros _. replace 52%Z with (d - 1)%Z by lia. exact Hlo.
  - assert (d < 53)%Z by lia. split; [|lia].
    assert (2 ^ d <= 2 ^ 53)%Z by (apply Z.pow_le_mono_r; lia). lia.
Qed.

(** [<=] on finite non-negative floats is [<=] on their values. *)
Lemma leb_value (x y : float) :
  finite_nonneg x -> finite_nonneg y -> (x <=? y)%float = true ->
  value x <= value y.
Proof.
  intros Hx Hy. rewrite (value_mag x Hx), (value_mag y Hy).
  rewrite FloatAxioms.leb_spec. unfold finite_nonneg in *.
  pose proof (Prim2SF_valid x) as Vx. pose proof (Prim2SF_valid y) as Vy.
  pose proof (mag_nonneg (Prim2SF y)) as Hy0.
  destruct (Prim2SF x) as [sx|sx| |sx mx ex]; try contradiction.
  { intros _. exact Hy0. }
  destruct sx; [contradiction|].
  destruct (Prim2SF y) as [sy|sy| |sy my ey]; try contradiction.
  { discriminate. }
  destruct sy; [contradiction|].
  unfold SFleb, SFcompare. cbn [mag].
  destruct (valid_mantissa _ _ _ Vx) as [Hmx _].
  destruct (valid_mantissa _ _ _ Vy) as [_ Hmy].
  pose proof (valid_emin_ok _ Vx) as Hex. cbn [emin_ok] in Hex.
  destruct (Z.compare_spec ex ey) as [->|Hlt|Hgt].
  - change (Pos.compare_cont Eq mx my) with (Pos.compare mx my).
    destruct (Pos.compare_spec mx my) as [->|Hm|Hm]; intros H;
      try discriminate.
    + lra.
    + pose proof (bpow_pos ey). assert (IZR (Zpos mx) <= IZR (Zpos my))
        by (apply IZR_le; lia). nra.
  - intros _. specialize (Hmy ltac:(lia)).
    apply Z.lt_le_incl, IZR_le in Hmx. apply IZR_le in Hmy.
    rewrite <- bpow_IZR in Hmx, Hmy by lia.
    pose proof (bpow_pos ex). pose proof (bpow_pos ey).
    assert (Hle : bpow (53 + ex) <= bpow (52 + ey)) by (apply bpow_le; lia).
    rewrite !bpow_add in Hle.
    assert (IZR (Zpos mx) * bpow ex <= bpow 53 * bpow ex)
      by (apply Rmult_le_compat_r; lra).
    assert (bpow 52 * bpow ey <= IZR (Zpos my) * bpow ey)
      by (apply Rmult_le_compat_r; lra).
    lra.
  - discriminate.
Qed.

Lemma value_bpow_900 : value 0x1p900%float = bpow 900.
Proof.
  unfold value. change (Prim2SF 0x1p900) with (S754_finite false (2 ^ 52) 848).
  cbn [SF2R mag]. change (Z.pos (2 ^ 52)) with (2 ^ 52)%Z.
  rewrite <- bpow_IZR, <- bpow_add by lia. reflexivity.
Qed.

End Order.

Section Costs.
Local Open Scope R_scope.

(** One weighted share of the blended policy. *)
Lemma blend_error (a b dw iw : float) :
  finite_nonneg a -> finite_nonneg b -> finite_nonneg dw -> finite_nonneg iw ->
  value a <= 3 -> value b <= 3 -> value dw + value iw = 1 ->
  finite_nonneg (a * dw + b * iw)
  /\ Rabs (value (a * dw + b * iw) - (value a * value dw + value b * value iw))
     <= 3 * u52 * (value a * value dw + value b * value iw) + 3 * eta
  /\ value (a * dw + b * iw) <= 4.
Proof.
  intros Ha Hb Hdw Hiw Ha3 Hb3 Hone.
  pose proof u52_pos as Hu. pose proof eta_pos as Heta.
  pose proof u52_small as Hu1. pose proof eta_le_u52 as Heu.
  pose proof (value_nonneg a Ha) as Ha0. pose proof (value_nonneg b Hb) as Hb0.
  pose proof (value_nonneg dw Hdw) as Hdw0.
  pose proof (value_nonneg iw Hiw) as Hiw0.
  pose proof bpow_971_big as Hbig. pose proof one_le_bpow_900 as H900.
  set (va := value a) in *. set (vb := value b) in *.
  set (vd := value dw) in *. set (vi := value iw) in *.
  assert (Hp0 : 0 <= va * vd) by (apply Rmult_le_pos; lra).
  assert (Hq0 : 0 <= vb * vi) by (apply Rmult_le_pos; lra).
  assert (Hp3 : va * vd <= 3 * vd) by (apply Rmult_le_compat_r; lra).
  assert (Hq3 : vb * vi <= 3 * vi) by (apply Rmult_le_compat_r; lra).
  destruct (mul_error a dw Ha Hdw) as [[_ Hover]|[Hgp Hp]].
  { exfalso. fold va vd in Hover. lra. }
  destruct (mul_error b iw Hb Hiw) as [[_ Hover]|[Hgq Hq]].
  { exfalso. fold vb vi in Hover. lra. }
  fold va vd in Hp. fold vb vi in Hq.
  apply Rabs_bound in Hp. apply Rabs_bound in Hq.
  set (p := value (a * dw)) in *. set (q := value (b * iw)) in *.
  assert (Hup : 0 <= u52 * (va * vd)) by (apply Rmult_le_pos; lra).
  assert (Huq : 0 <= u52 * (vb * vi)) by (apply Rmult_le_pos; lra).
  assert (Hup' : u52 * (va * vd) <= u52 * 3) by (apply Rmult_le_compat_l; lra).
  assert (Huq' : u52 * (vb * vi) <= u52 * 3) by (apply Rmult_le_compat_l; lra).
  pose proof (value_nonneg _ Hgp) as Hpp. pose proof (value_nonneg _ Hgq) as Hqq.
  fold p in Hpp. fold q in Hqq.
  destruct (add_error (a * dw) (b * iw) Hgp Hgq) as [[_ Hover]|[Hg Hw]].
  { exfalso. fold p q in Hover. lra. }
  fold p q in Hw. apply Rabs_bound in Hw.
  set (w := value (a * dw + b * iw)) in *.
  set (X := va * vd + vb * vi) in *.
  assert (HX3 : X <= 3) by (unfold X; lra).
  assert (Hupq : u52 * (p + q) <= u52 * (X + u52 * X + 2 * eta)).
  { apply Rmult_le_compat_l; [lra|]. unfold X. lra. }
  assert (HuuX : u52 * (u52 * X) <= u52 * X).
  { rewrite <- (Rmult_1_l (u52 * X)) at 2.
    apply Rmult_le_compat_r; [|lra]. apply Rmult_le_pos; unfold X; lra. }
  assert (Hue : u52 * (2 * eta) <= eta).
  { replace (u52 * (2 * eta)) with ((2 * u52) * eta) by ring.
    rewrite <- (Rmult_1_l eta) at 2. apply Rmult_le_compat_r; lra. }
  assert (HuX : 0 <= u52 * X) by (apply Rmult_le_pos; unfold X; lra).
  assert (HuX' : u52 * X <= u52 * 3) by (apply Rmult_le_compat_l; lra).
  split; [exact Hg|]. split.
  - apply Rabs_le. unfold X in *. lra.
  - unfold X in *. lra.
Qed.

(** The costs of shares that sum to 1 within [tau]. *)
Lemma costs_error {A : Type} (w : A -> float) (C : float) (tau : R)
    (l : list A) :
  (forall x, In x l -> finite_nonneg (w x) /\ value (w x) <= 4) ->
  finite_nonneg C -> value C <= bpow 900 ->
  Rabs (Rsum (List.map (fun x => value (w x)) l) - 1) <= tau -> tau <= 1 ->
  (forall x, In x l -> finite_nonneg (w x * C))
  /\ Rabs (Rsum (List.map (fun x => value (w x * C)) l) - value C)
     <= (tau + 2 * u52) * value C + INR (List.length l) * eta.
Proof.
  intros Hw HC HC900 Hsum Htau.
  pose proof u52_pos as Hu. pose proof eta_pos as Heta.
  pose proof (value_nonneg C HC) as HC0.
  pose proof bpow_971_big as Hbig.
  assert (Hmem : forall x, In x l ->
             finite_nonneg (w x * C)
             /\ Rabs (value (w x * C) - value (w x) * value C)
                <= u52 * (value (w x) * value C) + eta).
  { intros x Hx. destruct (Hw x Hx) as [Hg H4].
    pose proof (value_nonneg _ Hg) as H0.
    destruct (mul_error (w x) C Hg HC) as [[_ Hover]|[Hgc Herr]]; [|auto].
    exfalso.
    assert (value (w x) * value C <= 4 * bpow 900)
      by (apply Rmult_le_compat; lra).
    lra. }
  split; [intros x Hx; apply (Hmem x Hx)|].
  pose proof (Rsum_error (fun x => value (w x * C))
                (fun x => value (w x) * value C) u52 eta l
                (fun x Hx => proj2 (Hmem x Hx))) as He.
  rewrite Rsum_scal in He.
  set (W := Rsum (List.map (fun x => value (w x)) l)) in *.
  set (c := value C) in *. set (N := INR (List.length l)) in *.
  apply Rabs_bound in He. apply Rabs_bound in Hsum.
  assert (H1 : (W - 1) * c <= tau * c) by (apply Rmult_le_compat_r; lra).
  assert (H2 : - (tau * c) <= (W - 1) * c).
  { replace (- (tau * c)) with ((- tau) * c) by ring.
    apply Rmult_le_compat_r; lra. }
  assert (H3 : 0 <= W * c) by (apply Rmult_le_pos; lra).
  assert (H4 : u52 * (W * c) <= u52 * (2 * c)).
  { apply Rmult_le_compat_l; [lra|]. apply Rmult_le_compat_r; lra. }
  assert (H5 : 0 <= u52 * (W * c)) by (apply Rmult_le_pos; lra).
  apply Rabs_le. lra.
Qed.

End Costs.

Section Weights.
Local Open Scope R_scope.

Lemma count_small (n : nat) :
  (Z.of_nat n <= 2 ^ 40)%Z -> 4096 * (INR n * u52) <= 1.
Proof.
  intros H. rewrite INR_IZR_INZ. apply IZR_le in H.
  rewrite <- bpow_IZR in H by lia.
  assert (H12 : bpow 12 = 4096) by (rewrite bpow_IZR by lia; reflexivity).
  assert (Hc : bpow 12 * (bpow 40 * bpow (-52)) = 1).
  { rewrite <- !bpow_add. reflexivity. }
  pose proof u52_pos as Hu. unfold u52 in *.
  assert (IZR (Z.of_nat n) * bpow (-52) <= bpow 40 * bpow (-52))
    by (apply Rmult_le_compat_r; lra).
  rewrite H12 in Hc. lra.
Qed.

Lemma weights_sum (heavy : bool) :
  finite_nonneg (fst (weights heavy)) /\ finite_nonneg (snd (weights heavy))
  /\ value (fst (weights heavy)) + value (snd (weights heavy)) = 1.
Proof.
  assert (H53 : bpow (-53) * 9007199254740992 = 1).
  { change 9007199254740992 with (IZR (2 ^ 53)).
    rewrite <- bpow_IZR by lia. apply (bpow_cancel 53). }
  assert (H54 : bpow (-54) * 18014398509481984 = 1).
  { change 18014398509481984 with (IZR (2 ^ 54)).
    rewrite <- bpow_IZR by lia. apply (bpow_cancel 54). }
  destruct heavy; cbn [weights fst snd]; unfold finite_nonneg, value.
  - change (Prim2SF HEAVY_DATA_WEIGHT)
      with (S754_finite false 4503599627370496 (-54)).
    change (Prim2SF HEAVY_IOPS_WEIGHT)
      with (S754_finite false 6755399441055744 (-53)).
    cbn [finite_nonneg_sf SF2R mag]. repeat split. lra.
  - change (Prim2SF DEFAULT_DATA_WEIGHT)
      with (S754_finite false 4503599627370496 (-53)).
    change (Prim2SF DEFAULT_IOPS_WEIGHT)
      with (S754_finite false 4503599627370496 (-53)).
    cbn [finite_nonneg_sf SF2R mag]. repeat split. lra.
Qed.

Lemma guard_passes (t : float) :
  (t =? 0)%float = false -> (if feqb t (lit 0 0) then EPSILON else t) = t.
Proof.
  intros H. cbn [feqb float_number]. change (lit 0 0) with 0%float.
  now rewrite H.
Qed.

Lemma finite_nonneg_terms (l : list float) :
  Forall (fun x => (0 <=? x)%float = true) l ->
  is_finite (py_sum l) = true ->
  Forall finite_nonneg l.
Proof.
  intros Hl Hfin. apply is_finite_iff in Hfin. rewrite py_sum_fold in Hfin.
  apply fold_add_finite in Hfin.
  rewrite List.Forall_forall in *. intros x Hx.
  apply finite_nonneg_of_leb; auto.
Qed.

Lemma iops_finite_nonneg (d : client_record float) :
  (0 <=? avg_read_ops_s d)%float = true ->
  (0 <=? avg_write_ops_s d)%float = true ->
  finite_sf (Prim2SF (iops_of d)) ->
  finite_nonneg (iops_of d).
Proof.
  intros Hr Hw Hfin. unfold iops_of in *. cbn [fadd float_number] in *.
  pose proof Hfin as Hboth. rewrite FloatAxioms.add_spec in Hboth.
  apply SFadd_finite in Hboth as [Hfr Hfw].
  destruct (add_error _ _ (finite_nonneg_of_leb _ Hr Hfr)
              (finite_nonneg_of_leb _ Hw Hfw)) as [[Hinf _]|[Hg _]].
  - rewrite Hinf in Hfin. contradiction.
  - exact Hg.
Qed.

End Weights.

Section WeightedShares.
Local Open Scope R_scope.

(** The weighted shares of one allocation: finite, at most 4, and summing
    to 1 within the tolerance. *)
Lemma weighted_shares_error (pure_data_only : bool) (total_cost : float)
    (clients_data : list (client_record float)) :
  Forall (fun d => (0 <=? data_gb d)%float = true) clients_data ->
  is_finite (py_sum (List.map data_gb clients_data)) = true ->
  (py_sum (List.map data_gb clients_data) =? 0)%float = false ->
  (pure_data_only = true
   \/ (Forall (fun d => (0 <=? avg_read_ops_s d)%float = true
                        /\ (0 <=? avg_write_ops_s d)%float = true)
         clients_data
       /\ is_finite (py_sum (List.map iops_of clients_data)) = true
       /\ (py_sum (List.map iops_of clients_data) =? 0)%float = false
       /\ exists heavy, forall d, In d clients_data -> is_heavy d = heavy)) ->
  (Z.of_nat (List.length clients_data) <= 2 ^ 40)%Z ->
  let w := fun d =>
             weighted_share
               (alloc_row_of pure_data_only total_cost
                  (total_data_gb clients_data) (total_iops clients_data) d) in
  (forall d, In d clients_data -> finite_nonneg (w d) /\ value (w d) <= 4)
  /\ Rabs (Rsum (List.map (fun d => value (w d)) clients_data) - 1)
     <= share_tolerance (List.length clients_data).
Proof.
  intros Hsize Hfin Hnz Hpolicy Hcount w.
  pose proof (count_small _ Hcount) as Hn.
  pose proof u52_pos as Hu. pose proof eta_pos as Heta.
  pose proof eta_le_u52 as Heu. pose proof u52_small as Hu1.
  pose proof (pos_INR (List.length clients_data)) as HN.
  set (N := INR (List.length clients_data)) in *.
  assert (HNu : 0 <= N * u52) by (apply Rmult_le_pos; lra).
  (* the data shares *)
  assert (Hd : Forall finite_nonneg (List.map data_gb clients_data)).
  { apply finite_nonneg_terms; [|exact Hfin]. now rewrite Forall_map. }
  destruct (shares_error (List.map data_gb clients_data) Hd
              (proj1 (is_finite_iff _) Hfin) Hnz) as [Hds Hdsum].
  { rewrite List.length_map. fold N. lra. }
  rewrite List.length_map in Hdsum. fold N in Hdsum.
  rewrite Forall_map in Hds. rewrite List.map_map in Hdsum.
  assert (Etd : total_data_gb clients_data
                = py_sum (List.map data_gb clients_data)).
  { unfold total_data_gb. cbv zeta. now apply guard_passes. }
  set (td := py_sum (List.map data_gb clients_data)) in *.
  rewrite List.Forall_forall in Hds.
  destruct pure_data_only;
    [clear Hpolicy
    |destruct Hpolicy as [Hp|(Hrates & Hifin & Hinz & heavy & Hheavy)];
     [discriminate Hp|]].
  - (* pure size *)
    assert (Ew : forall d, w d = (data_gb d / td)%float).
    { intros d. unfold w. rewrite Etd. reflexivity. }
    split.
    + intros d Hin. rewrite Ew. destruct (Hds d Hin) as (Hg & H3 & _).
      split; [assumption|lra].
    + rewrite (List.map_ext _ (fun d => value (data_gb d / td)))
        by (intros d; now rewrite Ew).
      unfold share_tolerance. fold N. fold u52.
      apply Rabs_bound in Hdsum. apply Rabs_le. lra.
  - (* blended *)
    assert (Hi : Forall finite_nonneg (List.map iops_of clients_data)).
    { pose proof (proj1 (is_finite_iff _) Hifin) as Hfi.
      rewrite py_sum_fold in Hfi. apply fold_add_finite in Hfi.
      rewrite Forall_map in Hfi |- *. rewrite List.Forall_forall in *.
      intros d Hin. destruct (Hrates d Hin) as [Hr Hw].
      apply iops_finite_nonneg; auto. }
    destruct (shares_error (List.map iops_of clients_data) Hi
                (proj1 (is_finite_iff _) Hifin) Hinz) as [His Hisum].
    { rewrite List.length_map. fold N. lra. }
    rewrite List.length_map in Hisum. fold N in Hisum.
    rewrite Forall_map in His. rewrite List.map_map in Hisum.
    assert (Eti : total_iops clients_data
                  = py_sum (List.map iops_of clients_data)).
    { unfold total_iops. cbv zeta. now apply guard_passes. }
    set (ti := py_sum (List.map iops_of clients_data)) in *.
    rewrite List.Forall_forall in His.
    destruct (weights_sum heavy) as (Hdw & Hiw & Hone).
    set (dw := fst (weights heavy)) in *. set (iw := snd (weights heavy)) in *.
    assert (Ew : forall d, In d clients_data ->
                 w d = (data_gb d / td * dw + iops_of d / ti * iw)%float).
    { intros d Hin. unfold w, alloc_row_of. cbn [weighted_share].
      rewrite Etd, Eti, (Hheavy d Hin). unfold dw, iw.
      destruct heavy; reflexivity. }
    assert (Hmem : forall d, In d clients_data ->
               finite_nonneg (w d)
               /\ Rabs (value (w d)
                        - (value (data_gb d / td) * value dw
                           + value (iops_of d / ti) * value iw))
                  <= 3 * u52 * (value (data_gb d / td) * value dw
                                + value (iops_of d / ti) * value iw)
                     + 3 * eta
               /\ value (w d) <= 4).
    { intros d Hin. rewrite (Ew d Hin).
      destruct (Hds d Hin) as (Hg1 & H1 & _).
      destruct (His d Hin) as (Hg2 & H2 & _).
      now apply blend_error. }
    split; [intros d Hin; destruct (Hmem d Hin) as (? & _ & ?); auto|].
    pose proof (Rsum_error (fun d => value (w d))
                  (fun d => value (data_gb d / td) * value dw
                            + value (iops_of d / ti) * value iw)
                  (3 * u52) (3 * eta) clients_data
                  (fun d Hin => proj1 (proj2 (Hmem d Hin)))) as Hsum.
    rewrite Rsum_blend in Hsum. fold N in Hsum.
    set (Sd := Rsum (List.map (fun d => value (data_gb d / td)) clients_data))
      in *.
    set (Si := Rsum (List.map (fun d => value (iops_of d / ti)) clients_data))
      in *.
    set (W := Rsum (List.map (fun d => value (w d)) clients_data)) in *.
    pose proof (value_nonneg dw Hdw) as Hdw0.
    pose proof (value_nonneg iw Hiw) as Hiw0.
    set (vd := value dw) in *. set (vi := value iw) in *.
    apply Rabs_bound in Hdsum. apply Rabs_bound in Hisum.
    apply Rabs_bound in Hsum.
    set (tau := (3 * N + 2) * u52) in *.
    assert (Htau : tau <= 1) by (unfold tau; lra).
    assert (Htau0 : 0 <= tau) by (unfold tau; lra).
    assert (H1 : (Sd - 1) * vd <= tau * vd)
      by (apply Rmult_le_compat_r; lra).
    assert (H2 : (- tau) * vd <= (Sd - 1) * vd)
      by (apply Rmult_le_compat_r; lra).
    assert (H3 : (Si - 1) * vi <= tau * vi)
      by (apply Rmult_le_compat_r; lra).
    assert (H4 : (- tau) * vi <= (Si - 1) * vi)
      by (apply Rmult_le_compat_r; lra).
    assert (H5 : tau * vd + tau * vi = tau) by (rewrite <- Rmult_plus_distr_l, Hone; ring).
    set (X := Sd * vd + Si * vi) in *.
    assert (HX : 1 - tau <= X <= 1 + tau) by (unfold X; lra).
    assert (H6 : 3 * u52 * X <= 3 * u52 * 2)
      by (apply Rmult_le_compat_l; lra).
    assert (H7 : 0 <= 3 * u52 * X) by (apply Rmult_le_pos; lra).
    assert (H8 : N * (3 * eta) <= 3 * (N * u52)).
    { replace (N * (3 * eta)) with (3 * (N * eta)) by ring.
      apply Rmult_le_compat_l; [lra|]. apply Rmult_le_compat_l; lra. }
    unfold share_tolerance. fold N. fold u52.
    apply Rabs_le. unfold tau in *. lra.
Qed.

End WeightedShares.

(** C3, as amended: when the sizes are not negative and their float total
    is finite and not zero, the total cost is between 0 and [2^900] and
    there are at most [2^40] clients, then under the pure-size policy no
    weighted share and no cost overflows, the weighted shares sum to 1
    within [(6 n + 8) 2^-52] and the costs to the total cost within
    [(6 n + 10) 2^-52] times the total cost plus [n 2^-1074]; under the
    blended policy the same holds when moreover no rate is negative, the
    float total of the IOPS is finite and not zero, and all clients get the
    same weight pair. The sums are the exact sums of the binary64 values
    the script computes. *)
Theorem allocation_conserved (pure_data_only : bool) (total_cost : float)
    (clients_data : list (client_record float)) :
  Forall (fun d => (0 <=? data_gb d) = true) clients_data ->
  is_finite (py_sum (List.map data_gb clients_data)) = true ->
  (py_sum (List.map data_gb clients_data) =? 0) = false ->
  (pure_data_only = true
   \/ (Forall (fun d => (0 <=? avg_read_ops_s d) = true
                        /\ (0 <=? avg_write_ops_s d) = true) clients_data
       /\ is_finite (py_sum (List.map iops_of clients_data)) = true
       /\ (py_sum (List.map iops_of clients_data) =? 0) = false
       /\ exists heavy, forall d, In d clients_data -> is_heavy d = heavy)) ->
  (0 <=? total_cost) = true -> (total_cost <=? 0x1p900) = true ->
  (Z.of_nat (List.length clients_data) <= 2 ^ 40)%Z ->
  Forall (fun r => is_finite (weighted_share r) = true
                   /\ is_finite (monthly_cost r) = true)
    (allocate pure_data_only total_cost clients_data)
  /\ (Rabs (Rsum (List.map (fun r => value (weighted_share r))
                    (allocate pure_data_only total_cost clients_data)) - 1)
      <= share_tolerance (List.length clients_data))%R
  /\ (Rabs (Rsum (List.map (fun r => value (monthly_cost r))
                    (allocate pure_data_only total_cost clients_data))
            - value total_cost)
      <= cost_tolerance (List.length clients_data) (value total_cost))%R.
Proof.
  intros Hsize Hfin Hnz Hpolicy Hc0 Hc900 Hcount.
  destruct (weighted_shares_error pure_data_only total_cost clients_data
              Hsize Hfin Hnz Hpolicy Hcount) as [Hw Hsum].
  set (w := fun d =>
              weighted_share
                (alloc_row_of pure_data_only total_cost
                   (total_data_gb clients_data) (total_iops clients_data) d))
    in *.
  assert (HC : finite_nonneg total_cost).
  { apply finite_nonneg_of_leb; [exact Hc0|].
    rewrite FloatAxioms.leb_spec in Hc0, Hc900.
    change (Prim2SF 0x1p900) with (S754_finite false (2 ^ 52) 848) in Hc900.
    change (Prim2SF 0) with (S754_zero false) in Hc0.
    destruct (Prim2SF total_cost) as [s|s| |s m e]; simpl; trivial.
    - destruct s; discriminate.
    - discriminate. }
  assert (HC900 : (value total_cost <= bpow 900)%R).
  { rewrite <- value_bpow_900. apply leb_value; [exact HC|exact I|exact Hc900]. }
  pose proof (count_small _ Hcount) as Hn.
  pose proof u52_pos as Hu. pose proof u52_small as Hu1.
  pose proof (pos_INR (List.length clients_data)) as HN.
  assert (Htau : (share_tolerance (List.length clients_data) <= 1)%R).
  { unfold share_tolerance. fold u52. lra. }
  destruct (costs_error w total_cost _ clients_data Hw HC HC900 Hsum Htau)
    as [Hcost Hcsum].
  unfold allocate. rewrite !List.map_map, Forall_map.
  split; [|split].
  - apply List.Forall_forall. intros d Hin. cbn [weighted_share monthly_cost].
    split; apply is_finite_iff, finite_nonneg_finite.
    + apply (Hw d Hin).
    + apply (Hcost d Hin).
  - exact Hsum.
  - unfold cost_tolerance. fold u52 eta. unfold share_tolerance in Hcsum.
    fold u52 in Hcsum.
    replace ((6 * INR (List.length clients_data) + 10) * u52 * value total_cost)%R
      with (((6 * INR (List.length clients_data) + 8) * u52 + 2 * u52)
            * value total_cost)%R by ring.
    exact Hcsum.
Qed.

Lemma allocation_conserved_witness :
  Forall (fun r => is_finite (weighted_share r) = true
                   /\ is_finite (monthly_cost r) = true)
    (allocate false TOTAL_CLUSTER_COST light_pair)
  /\ (Rabs (Rsum (List.map (fun r => value (weighted_share r))
                    (allocate false TOTAL_CLUSTER_COST light_pair)) - 1)
      <= share_tolerance 2)%R
  /\ (Rabs (Rsum (List.map (fun r => value (monthly_cost r))
                    (allocate false TOTAL_CLUSTER_COST light_pair))
            - value TOTAL_CLUSTER_COST)
      <= cost_tolerance 2 (value TOTAL_CLUSTER_COST))%R.
Proof.
  apply (allocation_conserved false TOTAL_CLUSTER_COST light_pair).
  - repeat constructor.
  - vm_compute. reflexivity.
  - vm_compute. reflexivity.
  - right. split; [repeat constructor|]. split; [vm_compute; reflexivity|].
    split; [vm_compute; reflexivity|].
    exists false. intros d [<-|[<-|[]]]; vm_compute; reflexivity.
  - vm_compute. reflexivity.
  - vm_compute. reflexivity.
  - vm_compute. discriminate.
Defined.

Lemma Rsum_values (rows : list (alloc_row float)) (ws : list float) :
  List.map weighted_share rows = ws ->
  Rsum (List.map (fun r => value (weighted_share r)) rows)
  = Rsum (List.map value ws).
Proof. intros <-. now rewrite List.map_map. Qed.

Lemma bpow_52 : (bpow (-52) * 4503599627370496 = 1)%R.
Proof.
  change 4503599627370496%R with (IZR (2 ^ 52)).
  rewrite <- bpow_IZR by lia. apply (bpow_cancel 52).
Qed.

Lemma bpow_53 : (bpow (-53) * 9007199254740992 = 1)%R.
Proof.
  change 9007199254740992%R with (IZR (2 ^ 53)).
  rewrite <- bpow_IZR by lia. apply (bpow_cancel 53).
Qed.

Lemma bpow_54 : (bpow (-54) * 18014398509481984 = 1)%R.
Proof.
  change 18014398509481984%R with (IZR (2 ^ 54)).
  rewrite <- bpow_IZR by lia. apply (bpow_cancel 54).
Qed.

Lemma bpow_55 : (bpow (-55) * 36028797018963968 = 1)%R.
Proof.
  change 36028797018963968%R with (IZR (2 ^ 55)).
  rewrite <- bpow_IZR by lia. apply (bpow_cancel 55).
Qed.

(** Every hypothesis of the conservation has its counterexample. A record
    set of total size zero has shares summing to 0. A blended allocation
    over a light and a heavy client has shares summing to 1.25 and costs
    summing to 300000 for a total of 240000. Two sizes of 1e308 have an
    infinite float total and shares summing to 0. Two light clients without
    any rate have a zero IOPS total and blended shares summing to 0.5.
    Three light clients with the rates 2000, 3e-13 and -2000 have a finite
    non-zero IOPS total and blended shares summing to less than 0.83. The
    sums are given as the script would add them and as exact sums. *)
Lemma allocation_not_conserved :
  (py_sum (List.map weighted_share (allocate true TOTAL_CLUSTER_COST idle_pair))
     = 0
   /\ py_sum (List.map monthly_cost (allocate true TOTAL_CLUSTER_COST idle_pair))
     = 0)
  /\ (py_sum (List.map weighted_share
                (allocate false TOTAL_CLUSTER_COST mixed_pair)) = 1.25
      /\ py_sum (List.map monthly_cost
                   (allocate false TOTAL_CLUSTER_COST mixed_pair)) = 300000)
  /\ ~ (close_to 1e-6
          (py_sum (List.map weighted_share
                     (allocate true TOTAL_CLUSTER_COST idle_pair))) 1 = true)
  /\ ~ (close_to 1e-6
          (py_sum (List.map weighted_share
                     (allocate false TOTAL_CLUSTER_COST mixed_pair))) 1 = true)
  /\ (Rsum (List.map (fun r => value (weighted_share r))
              (allocate true TOTAL_CLUSTER_COST idle_pair)) = 0)%R
  /\ (Rsum (List.map (fun r => value (weighted_share r))
              (allocate false TOTAL_CLUSTER_COST mixed_pair)) = 5 / 4)%R
  /\ is_finite (py_sum (List.map data_gb huge_sizes)) = false
  /\ (Rsum (List.map (fun r => value (weighted_share r))
              (allocate true TOTAL_CLUSTER_COST huge_sizes)) = 0)%R
  /\ (py_sum (List.map iops_of quiet_pair) =? 0) = true
  /\ (Rsum (List.map (fun r => value (weighted_share r))
              (allocate false TOTAL_CLUSTER_COST quiet_pair)) = 1 / 2)%R
  /\ List.map is_heavy swing_trio = [false; false; false]
  /\ is_finite (py_sum (List.map iops_of swing_trio)) = true
  /\ (py_sum (List.map iops_of swing_trio) =? 0) = false
  /\ (Rsum (List.map (fun r => value (weighted_share r))
              (allocate false TOTAL_CLUSTER_COST swing_trio))
      < 83 / 100)%R
  /\ (83 / 100 < 1 - share_tolerance 3)%R.
Proof.
  pose proof bpow_52 as H52. pose proof bpow_53 as H53.
  pose proof bpow_54 as H54. pose proof bpow_55 as H55.
  split; [split; vm_compute; reflexivity|].
  split; [split; vm_compute; reflexivity|].
  split; [intros H; vm_compute in H; discriminate|].
  split; [intros H; vm_compute in H; discriminate|].
  split.
  { rewrite (Rsum_values _ [0; 0]) by (vm_compute; reflexivity).
    float_values. lra. }
  split.
  { rewrite (Rsum_values _ [0.5; 0.75]) by (vm_compute; reflexivity).
    float_values. lra. }
  split; [vm_compute; reflexivity|].
  split.
  { rewrite (Rsum_values _ [0; 0]) by (vm_compute; reflexivity).
    float_values. lra. }
  split; [vm_compute; reflexivity|].
  split.
  { rewrite (Rsum_values _ [0.125; 0.375]) by (vm_compute; reflexivity).
    float_values. lra. }
  split; [vm_compute; reflexivity|].
  split; [vm_compute; reflexivity|].
  split; [vm_compute; reflexivity|].
  split.
  { rewrite (Rsum_values _ [4398046511104000; 0.82637364333226659;
                            -4398046511104000])
      by (vm_compute; reflexivity).
    float_values. lra. }
  unfold share_tolerance. simpl INR. lra.
Qed.

(** * Further properties *)

(** ** The assembly loop, line by line *)

Lemma process_line_blank (l : list (client_record float)) (line : string) :
  columns line = None -> process_line l line = Ok l.
Proof.
  unfold columns, process_line.
  destruct (is_empty (strip line)); [reflexivity|discriminate].
Qed.

Lemma process_line_ignored (l : list (client_record float)) (line : string) :
  ignored line -> process_line l line = Ok l.
Proof.
  unfold ignored, columns, process_line. intros [H4 H5].
  destruct (is_empty (strip line)); [reflexivity|].
  destruct (Nat.eqb_spec (List.length (tokenize (strip line))) 4%nat) as [E|_];
    [rewrite E in H4; now contradiction H4|].
  destruct (Nat.eqb_spec (List.length (tokenize (strip line))) 5%nat) as [E|_];
    [rewrite E in H5; now contradiction H5|].
  reflexivity.
Qed.

Lemma process_line_size (l : list (client_record float)) (line : string) :
  columns line = Some 4%nat ->
  process_line l line
  = match parse_data_size (size_field line) with
    | Ok v => Ok (l ++ [mk_record (client_field line) v 0 0])%list
    | Raise e => Raise e
    end.
Proof.
  unfold columns, process_line, size_field, client_field.
  destruct (is_empty (strip line)); [discriminate|]. intros [= ->].
  cbn [Nat.eqb]. destruct (parse_data_size _); reflexivity.
Qed.

Lemma process_line_throughput (l : list (client_record float)) (line : string) :
  columns line = Some 5%nat ->
  process_line l line
  = Ok (match update_first (client_field line)
                (parse_float_maybe (read_field line))
                (parse_float_maybe (write_field line)) l with
        | Some updated => updated
        | None => (l ++ [mk_record (client_field line) 0
                           (parse_float_maybe (read_field line))
                           (parse_float_maybe (write_field line))])%list
        end).
Proof.
  unfold columns, process_line, client_field, read_field, write_field.
  destruct (is_empty (strip line)); [discriminate|]. intros [= ->].
  cbn [Nat.eqb]. destruct (update_first _ _ _ l); reflexivity.
Qed.

(** Every line is of one of the four kinds. *)
Lemma columns_cases (line : string) :
  columns line = Some 4%nat \/ columns line = Some 5%nat \/ ignored line.
Proof.
  unfold ignored. destruct (columns line) as [n|].
  - destruct (Nat.eq_dec n 4%nat) as [->|]; [auto|].
    destruct (Nat.eq_dec n 5%nat) as [->|]; [auto|].
    right; right; split; congruence.
  - right; right; split; discriminate.
Qed.

Lemma assemble_from_app (l : list (client_record float)) (a b : list string) :
  assemble_from l (a ++ b)%list
  = match assemble_from l a with
    | Ok l' => assemble_from l' b
    | Raise e => Raise e
    end.
Proof.
  revert l. induction a as [|line a IH]; intros l; simpl; [reflexivity|].
  destruct (process_line l line) as [l1|e]; cbn; [apply IH|reflexivity].
Qed.

Lemma assemble_from_ignored (l : list (client_record float)) (junk : list string) :
  Forall ignored junk -> assemble_from l junk = Ok l.
Proof.
  induction junk as [|line junk IH]; intros H; simpl; [reflexivity|].
  inversion H; subst. rewrite process_line_ignored by assumption. cbn. auto.
Qed.

Lemma process_line_extends (l l' : list (client_record float)) (line : string) :
  process_line l line = Ok l' ->
  List.map client l `prefix_of` List.map client l'
  /\ List.map data_gb l `prefix_of` List.map data_gb l'
  /\ (List.length l <= List.length l' <= S (List.length l))%nat.
Proof.
  destruct (columns_cases line) as [H4|[H5|Hi]].
  - rewrite (process_line_size l line H4).
    destruct (parse_data_size _) as [v|e]; [|discriminate]. intros [= <-].
    rewrite !List.map_app, List.length_app. simpl.
    repeat split; try apply prefix_app_r; try reflexivity; lia.
  - rewrite (process_line_throughput l line H5). intros [= <-].
    destruct (update_first _ _ _ l) as [u|] eqn:Eu.
    + destruct (update_first_clients _ _ _ _ _ Eu) as (Hc & Hd & _).
      rewrite Hc, Hd.
      assert (List.length u = List.length l) as ->
        by (rewrite <- (List.length_map client u), Hc; apply List.length_map).
      repeat split; try reflexivity; lia.
    + rewrite !List.map_app, List.length_app. simpl.
      repeat split; try apply prefix_app_r; try reflexivity; lia.
  - rewrite (process_line_ignored l line Hi). intros [= <-].
    repeat split; try reflexivity; lia.
Qed.

(** X1: the assembly only ever appends: the records present before a run of
    lines stay first, in their order, with their client and their size
    unchanged, and each line adds at most one record. *)
Theorem assembly_is_append_only (l l' : list (client_record float))
    (lines : list string) :
  assemble_from l lines = Ok l' ->
  List.map client l `prefix_of` List.map client l'
  /\ List.map data_gb l `prefix_of` List.map data_gb l'
  /\ (List.length l <= List.length l' <= List.length l + List.length lines)%nat.
Proof.
  revert l. induction lines as [|line lines IH]; intros l H; simpl in H.
  - injection H as <-. repeat split; try reflexivity; simpl; lia.
  - destruct (process_line l line) as [l1|e] eqn:E1; [|discriminate].
    cbn in H. destruct (process_line_extends _ _ _ E1) as (Hc1 & Hd1 & Hn1).
    destruct (IH _ H) as (Hc & Hd & Hn).
    repeat split; try (etrans; eassumption); simpl; lia.
Qed.

Lemma assembly_is_append_only_witness :
  List.map client [mk_record "zed" 7 0 0]
    `prefix_of` List.map client [mk_record "zed" 7 0 0;
                                 mk_record "acme" 1228.8 900 100]
  /\ List.map data_gb [mk_record "zed" 7 0 0]
    `prefix_of` List.map data_gb [mk_record "zed" 7 0 0;
                                  mk_record "acme" 1228.8 900 100]
  /\ (1 <= 2 <= 1 + 2)%nat.
Proof.
  apply (assembly_is_append_only [mk_record "zed" 7 0 0]
           [mk_record "zed" 7 0 0; mk_record "acme" 1228.8 900 100]
           [acme_size; acme_throughput]).
  vm_compute. reflexivity.
Defined.

Lemma process_line_keeps_unique (l : list (client_record float)) (line : string) :
  columns line <> Some 4%nat ->
  NoDup (List.map client l) ->
  exists l', process_line l line = Ok l' /\ NoDup (List.map client l').
Proof.
  intros Hn Hl. destruct (columns_cases line) as [H4|[H5|Hi]].
  - contradiction.
  - rewrite (process_line_throughput l line H5). eexists. split; [reflexivity|].
    destruct (update_first _ _ _ l) as [u|] eqn:Eu.
    + destruct (update_first_clients _ _ _ _ _ Eu) as (-> & _). exact Hl.
    + apply update_first_None in Eu. rewrite List.map_app. simpl.
      apply NoDup_app. split; [exact Hl|]. split.
      * intros x Hx [<-|[]]%list_elem_of_In. apply Eu.
        now apply list_elem_of_In.
      * apply NoDup_singleton.
  - rewrite (process_line_ignored l line Hi). eauto.
Qed.

Lemma assemble_from_keeps_unique (lines : list string) :
  forall l : list (client_record float),
    Forall (fun line => columns line <> Some 4%nat) lines ->
    NoDup (List.map client l) ->
    exists l', assemble_from l lines = Ok l' /\ NoDup (List.map client l').
Proof.
  induction lines as [|line lines IH]; intros l Hlines Hl; simpl.
  - eauto.
  - inversion Hlines as [|? ? Hline Hrest]; subst.
    destruct (process_line_keeps_unique l line Hline Hl) as (l1 & -> & Hl1).
    cbn. apply IH; assumption.
Qed.

Lemma update_first_found (name : string) (r w : float)
    (l u : list (client_record float)) :
  update_first name r w l = Some u -> In name (List.map client l).
Proof.
  revert u. induction l as [|d l IH]; intros u H; simpl in H; [discriminate|].
  simpl. destruct (String.eqb_spec (client d) name) as [E|E]; [now left|].
  destruct (update_first name r w l) as [u'|]; [|discriminate].
  right. now apply (IH u').
Qed.

Lemma process_line_members (l l' : list (client_record float))
    (line : string) :
  columns line <> Some 4%nat ->
  process_line l line = Ok l' ->
  forall c, In c (List.map client l')
            <-> In c (List.map client l)
                \/ (columns line = Some 5%nat /\ client_field line = c).
Proof.
  intros Hn. destruct (columns_cases line) as [H4|[H5|Hi]]; [contradiction| |].
  - rewrite (process_line_throughput l line H5). intros [= <-] c.
    destruct (update_first _ _ _ l) as [u|] eqn:Eu.
    + destruct (update_first_clients _ _ _ _ _ Eu) as (-> & _).
      split; [auto|]. intros [H|[_ <-]]; [exact H|].
      exact (update_first_found _ _ _ _ _ Eu).
    + rewrite List.map_app, List.in_app_iff. simpl. tauto.
  - rewrite (process_line_ignored l line Hi). intros [= <-] c.
    destruct Hi as [_ Hi]. tauto.
Qed.

Lemma assemble_from_members (lines : list string) :
  forall l l' : list (client_record float),
    Forall (fun line => columns line <> Some 4%nat) lines ->
    assemble_from l lines = Ok l' ->
    forall c, In c (List.map client l')
              <-> In c (List.map client l)
                  \/ exists line, In line lines /\ columns line = Some 5%nat
                                  /\ client_field line = c.
Proof.
  induction lines as [|line lines IH]; intros l l' Hlines H c; simpl in H.
  - injection H as <-. split; [auto|]. now intros [H|(? & [] & _)].
  - inversion Hlines as [|? ? Hline Hrest]; subst.
    destruct (process_line l line) as [l1|e] eqn:E1; [|discriminate].
    cbn in H. rewrite (IH _ _ Hrest H c), (process_line_members _ _ _ Hline E1 c).
    simpl. split.
    + intros [[Hl|Hline5]|(x & Hx & Hx5)]; [auto| |].
      * right. exists line. tauto.
      * right. exists x. tauto.
    + intros [Hl|(x & [<-|Hx] & Hx5)]; [auto|auto|].
      right. exists x. tauto.
Qed.

Lemma unique_client_counts_once (l : list (client_record float)) (c : string) :
  NoDup (List.map client l) ->
  In c (List.map client l) ->
  List.length (List.filter (fun d => String.eqb (client d) c) l) = 1%nat.
Proof.
  induction l as [|x l IH]; simpl; [tauto|]. intros Hn Hc.
  apply NoDup_cons in Hn as [Hx Hn].
  destruct (String.eqb_spec (client x) c) as [E|E].
  - simpl. f_equal. subst c. clear IH Hc Hn.
    induction l as [|y l IHl]; simpl; [reflexivity|].
    destruct (String.eqb_spec (client y) (client x)) as [E|_].
    + exfalso. apply Hx. rewrite <- E. simpl. left.
    + apply IHl. intros H. apply Hx. simpl. now right.
  - apply IH; [exact Hn|]. destruct Hc as [Hc|Hc]; [contradiction|exact Hc].
Qed.

(** X2: when the size rows come first and name distinct clients, whatever
    follows them without a further size row is assembled without an
    exception and leaves exactly one record per client: the clients of the
    result are those of the size rows and those named by a throughput row
    that follows, no client name occurs twice, every such client has one
    record and only one, and the sizes of the size rows stay first, in
    their order. *)
Theorem sizes_first_gives_unique_clients (sizes rest : list string)
    (l0 : list (client_record float)) :
  assemble sizes = Ok l0 ->
  NoDup (List.map client l0) ->
  Forall (fun line => columns line <> Some 4%nat) rest ->
  exists l', assemble (sizes ++ rest) = Ok l'
             /\ NoDup (List.map client l')
             /\ List.map data_gb l0 `prefix_of` List.map data_gb l'
             /\ (forall c, In c (List.map client l')
                           <-> In c (List.map client l0)
                               \/ exists line,
                                    In line rest /\ columns line = Some 5%nat
                                    /\ client_field line = c)
             /\ (forall c, In c (List.map client l0)
                           \/ (exists line,
                                 In line rest /\ columns line = Some 5%nat
                                 /\ client_field line = c) ->
                           List.length
                             (List.filter
                                (fun d => String.eqb (client d) c) l') = 1%nat).
Proof.
  intros H0 Hu Hrest. unfold assemble in *. rewrite assemble_from_app, H0.
  destruct (assemble_from_keeps_unique rest l0 Hrest Hu) as (l' & Hl' & Hn).
  exists l'. pose proof (assemble_from_members rest l0 l' Hrest Hl') as Hm.
  split; [assumption|]. split; [assumption|]. split; [|split; [exact Hm|]].
  - clear Hn Hu H0 Hm. revert l0 l' Hl'.
    induction rest as [|line rest IH]; intros l0 l' Hl'; simpl in Hl'.
    + injection Hl' as <-. reflexivity.
    + destruct (process_line l0 line) as [l1|e] eqn:E1; [|discriminate].
      cbn in Hl'. inversion Hrest; subst.
      destruct (process_line_extends _ _ _ E1) as (_ & Hd1 & _).
      etrans; [exact Hd1|]. now apply IH.
  - intros c Hc. apply unique_client_counts_once; [exact Hn|].
    apply Hm, Hc.
Qed.

Lemma sizes_first_gives_unique_clients_witness :
  exists l', assemble ([acme_size; row ["zed"; "1 GB"; "2 GB"; "0%"]]
                       ++ [acme_throughput; EmptyString; acme_throughput;
                           row ["new"; "1"; "2"; "50%"; "50%"]]) = Ok l'
             /\ NoDup (List.map client l')
             /\ List.map data_gb [mk_record "acme" 1228.8 0 0;
                                  mk_record "zed" 2 0 0]
                `prefix_of` List.map data_gb l'
             /\ (forall c, In c (List.map client l')
                           <-> In c ["acme"; "zed"]
                               \/ exists line,
                                    In line [acme_throughput; EmptyString;
                                             acme_throughput;
                                             row ["new"; "1"; "2"; "50%"; "50%"]]
                                    /\ columns line = Some 5%nat
                                    /\ client_field line = c)
             /\ (forall c, In c ["acme"; "zed"]
                           \/ (exists line,
                                 In line [acme_throughput; EmptyString;
                                          acme_throughput;
                                          row ["new"; "1"; "2"; "50%"; "50%"]]
                                 /\ columns line = Some 5%nat
                                 /\ client_field line = c) ->
                           List.length
                             (List.filter
                                (fun d => String.eqb (client d) c) l') = 1%nat).
Proof.
  apply (sizes_first_gives_unique_clients
           [acme_size; row ["zed"; "1 GB"; "2 GB"; "0%"]]
           [acme_throughput; EmptyString; acme_throughput;
            row ["new"; "1"; "2"; "50%"; "50%"]]
           [mk_record "acme" 1228.8 0 0; mk_record "zed" 2 0 0]).
  - vm_compute. reflexivity.
  - apply NoDup_cons. split; [|apply NoDup_singleton].
    intros [E|[]]%list_elem_of_In. discriminate E.
  - repeat constructor; vm_compute; discriminate.
Defined.

(** ** What a throughput row writes *)

Lemma first_of_update_first (name : string) (r w : float)
    (l u : list (client_record float)) :
  update_first name r w l = Some u ->
  exists d, first_of name l = Some d
            /\ first_of name u = Some (mk_record name (data_gb d) r w)
            /\ forall other, other <> name -> first_of other u = first_of other l.
Proof.
  revert u. induction l as [|d l IH]; intros u H; simpl in H; [discriminate|].
  destruct (String.eqb_spec (client d) name) as [E|E].
  - injection H as <-. exists d. simpl.
    destruct (String.eqb_spec (client d) name) as [_|N]; [|contradiction].
    rewrite E. repeat split. intros other Ho.
    destruct (String.eqb_spec name other) as [->|_]; [now contradiction Ho|].
    reflexivity.
  - destruct (update_first name r w l) as [u'|]; [|discriminate].
    injection H as <-. destruct (IH u' eq_refl) as (d' & H1 & H2 & H3).
    exists d'. simpl.
    destruct (String.eqb_spec (client d) name) as [N|_]; [contradiction|].
    repeat split; try assumption. intros other Ho.
    destruct (String.eqb (client d) other); [reflexivity|]. now apply H3.
Qed.

Lemma first_of_append (name : string) (l : list (client_record float))
    (d : client_record float) :
  client d = name ->
  ~ In name (List.map client l) ->
  first_of name l = None
  /\ first_of name (l ++ [d]) = Some d
  /\ forall other, other <> name -> first_of other (l ++ [d]) = first_of other l.
Proof.
  intros Hd Hn. induction l as [|x l IH]; simpl.
  - rewrite Hd, String.eqb_refl. repeat split. intros other Ho.
    destruct (String.eqb_spec name other) as [->|_]; [now contradiction Ho|].
    reflexivity.
  - simpl in Hn.
    destruct (String.eqb_spec (client x) name) as [E|_]; [tauto|].
    destruct IH as (H1 & H2 & H3); [tauto|].
    repeat split; try assumption. intros other Ho.
    destruct (String.eqb (client x) other); [reflexivity|]. now apply H3.
Qed.

(** X3: after a throughput row, the first record of its client holds the
    two rates parsed from this row, whatever rates it held before, and the
    size it already had, or 0.0 when the client is new; the first record of
    every other client is the one it was. *)
Theorem throughput_row_overwrites (l l' : list (client_record float))
    (line : string) :
  columns line = Some 5%nat ->
  process_line l line = Ok l' ->
  first_of (client_field line) l'
  = Some (mk_record (client_field line)
            (match first_of (client_field line) l with
             | Some d => data_gb d
             | None => 0
             end)
            (parse_float_maybe (read_field line))
            (parse_float_maybe (write_field line)))
  /\ forall other, other <> client_field line ->
                   first_of other l' = first_of other l.
Proof.
  intros H5. rewrite (process_line_throughput l line H5). intros [= <-].
  destruct (update_first _ _ _ l) as [u|] eqn:Eu.
  - destruct (first_of_update_first _ _ _ _ _ Eu) as (d & -> & -> & H3).
    split; [reflexivity|exact H3].
  - apply update_first_None in Eu.
    destruct (first_of_append (client_field line) l
                (mk_record (client_field line) 0
                   (parse_float_maybe (read_field line))
                   (parse_float_maybe (write_field line))) eq_refl Eu)
      as (-> & -> & H3).
    split; [reflexivity|exact H3].
Qed.

Lemma throughput_row_overwrites_witness :
  first_of "acme" [mk_record "zed" 7 1 1; mk_record "acme" 3 900 100]
  = Some (mk_record "acme" 3 900 100)
  /\ forall other, other <> "acme" ->
       first_of other [mk_record "zed" 7 1 1; mk_record "acme" 3 900 100]
       = first_of other [mk_record "zed" 7 1 1; mk_record "acme" 3 55 66].
Proof.
  apply (throughput_row_overwrites
           [mk_record "zed" 7 1 1; mk_record "acme" 3 55 66]
           [mk_record "zed" 7 1 1; mk_record "acme" 3 900 100]
           acme_throughput); vm_compute; reflexivity.
Defined.

(** ** Lines that do not count, and the line that aborts *)

(** X4: blank lines and lines of neither four nor five columns can stand
    anywhere in the input without changing what is assembled. *)
Theorem ignored_lines_do_not_matter (a junk b : list string) :
  Forall ignored junk ->
  assemble (a ++ junk ++ b) = assemble (a ++ b).
Proof.
  intros Hj. unfold assemble. rewrite !assemble_from_app.
  destruct (assemble_from [] a) as [l|e]; [|reflexivity].
  rewrite assemble_from_app, (assemble_from_ignored l junk Hj). reflexivity.
Qed.

Lemma ignored_lines_do_not_matter_witness :
  assemble ([acme_size]
            ++ [EmptyString; "a header line"; row ["x"; "y"; "z"];
                "one  two  three  four  five  six"]
            ++ [acme_throughput])
  = assemble ([acme_size] ++ [acme_throughput]).
Proof.
  apply (ignored_lines_do_not_matter [acme_size]
           [EmptyString; "a header line"; row ["x"; "y"; "z"];
            "one  two  three  four  five  six"]
           [acme_throughput]).
  repeat constructor; vm_compute; discriminate.
Defined.

(** X5: a size row whose size field makes [parse_data_size] raise aborts
    the whole assembly, whatever was read before it and whatever follows:
    no record survives. *)
Theorem bad_size_field_aborts (line : string) :
  columns line = Some 4%nat ->
  parse_data_size (size_field line) = Raise ValueError ->
  forall (l : list (client_record float)) (a b : list string),
    assemble_from l (a ++ line :: b) = Raise ValueError.
Proof.
  intros H4 Hbad l a b. rewrite assemble_from_app.
  destruct (assemble_from l a) as [l1|[]]; [|reflexivity].
  simpl. rewrite (process_line_size l1 line H4), Hbad. reflexivity.
Qed.

Lemma bad_size_field_aborts_witness :
  assemble_from [] ([acme_size; acme_throughput]
                    ++ row ["bad"; "1 TB"; "1.2.3 TB"; "0%"] :: [acme_size])
  = Raise ValueError.
Proof.
  apply (bad_size_field_aborts (row ["bad"; "1 TB"; "1.2.3 TB"; "0%"]));
    vm_compute; reflexivity.
Defined.

(** ** The normalizer does its own trimming and lower-casing *)

Lemma lower_char_facts (c : ascii) :
  is_space (lower_char c) = is_space c
  /\ lower_char (lower_char c) = lower_char c.
Proof.
  destruct c as [[] [] [] [] [] [] [] []]; vm_compute; split; reflexivity.
Qed.

Lemma lower_idempotent (s : string) : lower (lower s) = lower s.
Proof.
  induction s as [|c s IH]; simpl; [reflexivity|].
  rewrite IH, (proj2 (lower_char_facts c)). reflexivity.
Qed.

Lemma lstrip_lower (s : string) : lstrip (lower s) = lower (lstrip s).
Proof.
  induction s as [|c s IH]; simpl; [reflexivity|].
  rewrite (proj1 (lower_char_facts c)). destruct (is_space c); auto.
Qed.

Lemma rstrip_lower (s : string) : rstrip (lower s) = lower (rstrip s).
Proof.
  induction s as [|c s IH]; simpl; [reflexivity|].
  rewrite IH, (proj1 (lower_char_facts c)).
  destruct (rstrip s); simpl; [destruct (is_space c)|]; reflexivity.
Qed.

Lemma rstrip_idempotent (s : string) : rstrip (rstrip s) = rstrip s.
Proof.
  induction s as [|c s IH]; simpl; [reflexivity|].
  destruct (rstrip s) as [|c' r] eqn:E.
  - destruct (is_space c) eqn:Ec; simpl; [reflexivity|]. now rewrite Ec.
  - simpl in *. rewrite IH. reflexivity.
Qed.

Lemma lstrip_rstrip_lstrip (s : string) :
  lstrip (rstrip (lstrip s)) = rstrip (lstrip s).
Proof.
  induction s as [|c s IH]; simpl; [reflexivity|].
  destruct (is_space c) eqn:Ec; [exact IH|].
  simpl. destruct (rstrip s); rewrite ?Ec; simpl; rewrite ?Ec; reflexivity.
Qed.

Lemma strip_idempotent (s : string) : strip (strip s) = strip s.
Proof.
  unfold strip. now rewrite lstrip_rstrip_lstrip, rstrip_idempotent.
Qed.

Lemma strip_lower (s : string) : strip (lower s) = lower (strip s).
Proof.
  unfold strip. now rewrite lstrip_lower, rstrip_lower.
Qed.

(** X6: both normalizers trim and lower-case their argument themselves:
    trimming or lower-casing a field before the call changes no result, an
    exception included. *)
Theorem normalizers_ignore_case_and_margins (s : string) :
  parse_data_size (strip s) = parse_data_size s
  /\ parse_data_size (lower s) = parse_data_size s
  /\ parse_float_maybe (strip s) = parse_float_maybe s
  /\ parse_float_maybe (lower s) = parse_float_maybe s.
Proof.
  unfold parse_data_size, parse_float_maybe.
  rewrite strip_idempotent, strip_lower, lower_idempotent. repeat split.
Qed.

(** ** Order of the floats *)

Lemma SFleb_key (x y : spec_float) :
  SFleb x y = true
  <-> x <> S754_nan /\ y <> S754_nan /\ key_le (sf_key x) (sf_key y).
Proof.
  unfold SFleb, key_le.
  destruct x as [sx|sx| |sx mx ex], y as [sy|sy| |sy my ey];
    try destruct sx; try destruct sy; simpl;
    try (split; [intros H; try discriminate H;
                 repeat split; try discriminate; lia
                |intros (H1 & H2 & H3); try reflexivity;
                 try (now contradiction H1); try (now contradiction H2); lia]).
  - change (Pos.compare_cont Eq mx my) with (Pos.compare mx my).
    destruct (Z.compare_spec ex ey), (Pos.compare_spec mx my); simpl;
      (split; [intros Hle; try discriminate Hle;
               repeat split; try discriminate; lia
              |intros (_ & _ & Hle); try reflexivity; lia]).
  - change (Pos.compare_cont Eq mx my) with (Pos.compare mx my).
    destruct (Z.compare_spec ex ey), (Pos.compare_spec mx my); simpl;
      (split; [intros Hle; try discriminate Hle;
               repeat split; try discriminate; lia
              |intros (_ & _ & Hle); try reflexivity; lia]).
Qed.

Lemma leb_trans (x y z : float) :
  (x <=? y) = true -> (y <=? z) = true -> (x <=? z) = true.
Proof.
  rewrite !FloatAxioms.leb_spec, !SFleb_key.
  intros (Hx & Hy & Hxy) (_ & Hz & Hyz). repeat split; try assumption.
  unfold key_le in *.
  destruct (sf_key (Prim2SF x)) as [[a1 a2] a3].
  destruct (sf_key (Prim2SF y)) as [[b1 b2] b3].
  destruct (sf_key (Prim2SF z)) as [[c1 c2] c3].
  simpl in *. lia.
Qed.

(** ** The tier grows with the load *)

(** X7: more data or more operations never gets a cheaper tier: when
    neither the size nor the rate decreases, the cost of the recommended
    tier does not decrease. *)
Theorem tier_cost_is_monotone (data_gb iops data_gb' iops' : float) :
  (data_gb <=? data_gb') = true ->
  (iops <=? iops') = true ->
  (tier_cost (recommend_cluster_tier data_gb iops)
   <=? tier_cost (recommend_cluster_tier data_gb' iops')) = true.
Proof.
  intros Hd Hi.
  assert (Hd' : forall k, (k <=? data_gb) = true -> (k <=? data_gb') = true)
    by (intros k Hk; exact (leb_trans _ _ _ Hk Hd)).
  assert (Hi' : forall k, (k <=? iops) = true -> (k <=? iops') = true)
    by (intros k Hk; exact (leb_trans _ _ _ Hk Hi)).
  unfold recommend_cluster_tier.
  repeat match goal with
         | |- context [(?k <=? data_gb)] =>
             let E := fresh "E" in
             destruct (k <=? data_gb) eqn:E; [rewrite (Hd' k E)|]
         | |- context [(?k <=? iops)] =>
             let E := fresh "E" in
             destruct (k <=? iops) eqn:E; [rewrite (Hi' k E)|]
         end;
    repeat match goal with
           | |- context [(?k <=? data_gb')] => destruct (k <=? data_gb')
           | |- context [(?k <=? iops')] => destruct (k <=? iops')
           end;
    vm_compute; reflexivity.
Qed.

Lemma tier_cost_is_monotone_witness :
  (tier_cost (recommend_cluster_tier 400 100)
   <=? tier_cost (recommend_cluster_tier 400 9000)) = true.
Proof.
  apply (tier_cost_is_monotone 400 100 400 9000); reflexivity.
Defined.



(** ** Fields the reports never show *)

Lemma round_keeps_nonneg (x : float) (ndigits : nat) :
  (0 <=? x) = true -> (0 <=? PyRound.round x ndigits) = true.
Proof.
  intros H. unfold PyRound.round.
  destruct (Prim2SF x) as [s|s| |s m e] eqn:E; try exact H.
  rewrite FloatAxioms.leb_spec, E in H.
  change (Prim2SF 0) with (S754_zero false) in H.
  destruct s; [discriminate H|].
  apply nonneg_leb, of_decimal_nonneg.
Qed.

(** X9: on every input on which assembly completes, the tier report writes
    no negative and no NaN [Data_GB], rounding included. *)
Theorem tier_report_sizes_nonneg (lines : list string)
    (clients_data : list (client_record float)) :
  assemble lines = Ok clients_data ->
  Forall (fun r => (0 <=? Data_GB r) = true) (tier_report clients_data).
Proof.
  intros H. unfold tier_report. rewrite Forall_map.
  eapply Forall_impl; [exact (assemble_from_size_ok lines [] _ H (List.Forall_nil _))|].
  intros d Hd. cbn. apply round_keeps_nonneg, Hd.
Qed.

Lemma tier_report_sizes_nonneg_witness :
  Forall (fun r => (0 <=? Data_GB r) = true)
    (tier_report [mk_record "aahs" (1.26 * 1024) 884.711 421.3;
                  mk_record "bcd" 0.5 0 0;
                  mk_record "efg" 0 0 0]).
Proof.
  apply (tier_report_sizes_nonneg sample_export). vm_compute. reflexivity.
Defined.

Lemma process_line_client_normal (l l' : list (client_record float))
    (line : string) :
  process_line l line = Ok l' ->
  Forall (fun d => lower (strip (client d)) = client d) l ->
  Forall (fun d => lower (strip (client d)) = client d) l'.
Proof.
  assert (Hn : lower (strip (client_field line)) = client_field line).
  { unfold client_field.
    now rewrite <- strip_lower, lower_idempotent, strip_lower, strip_idempotent. }
  intros H Hl. destruct (columns_cases line) as [H4|[H5|Hi]].
  - rewrite (process_line_size l line H4) in H.
    destruct (parse_data_size _); [|discriminate]. injection H as <-.
    apply Forall_app. split; [exact Hl|]. repeat constructor. exact Hn.
  - rewrite (process_line_throughput l line H5) in H. injection H as <-.
    destruct (update_first _ _ _ l) as [u|] eqn:Eu.
    + destruct (update_first_clients _ _ _ _ _ Eu) as (Hc & _).
      rewrite <- (Forall_map client (fun c => lower (strip c) = c)) in Hl |- *.
      now rewrite Hc.
    + apply Forall_app. split; [exact Hl|]. repeat constructor. exact Hn.
  - rewrite (process_line_ignored l line Hi) in H. now injection H as <-.
Qed.

(** X10: every assembled record has a client name that is already trimmed
    and lower-case: trimming and lower-casing it again changes nothing. *)
Theorem assembled_clients_are_normalized (lines : list string)
    (clients_data : list (client_record float)) :
  assemble lines = Ok clients_data ->
  Forall (fun d => lower (strip (client d)) = client d) clients_data.
Proof.
  unfold assemble. assert (H0 : Forall (fun d : client_record float =>
                                  lower (strip (client d)) = client d) [])
    by constructor.
  revert H0. generalize (@nil (client_record float)) as l.
  induction lines as [|line lines IH]; intros l Hl H; simpl in H.
  - now injection H as <-.
  - destruct (process_line l line) as [l1|e] eqn:E1; [|discriminate].
    cbn in H. eapply IH; [|exact H]. eapply process_line_client_normal; eassumption.
Qed.

Lemma assembled_clients_are_normalized_witness :
  Forall (fun d => lower (strip (client d)) = client d)
    [mk_record "acme corp" 1228.8 900 100].
Proof.
  apply (assembled_clients_are_normalized
           [row ["  ACME Corp "; "1.00 TB"; "1.20 TB"; "5.00%"];
            row ["Acme CORP"; "900.0"; "100.0"; "90%"; "10%"]]).
  vm_compute. reflexivity.
Defined.

(** ** What the pure-size policy looks at *)

(** X12: under the pure-size policy the rates do not matter: two record
    sets with the same sizes, in the same order, get the same data shares,
    weighted shares and monthly costs, whatever their read and write rates
    and whoever the clients are. *)
Theorem pure_policy_ignores_throughput {F : Type} `{Number F} (total_cost : F)
    (l l' : list (client_record F)) :
  List.map data_gb l = List.map data_gb l' ->
  List.map data_share (allocate true total_cost l)
  = List.map data_share (allocate true total_cost l')
  /\ List.map weighted_share (allocate true total_cost l)
     = List.map weighted_share (allocate true total_cost l')
  /\ List.map monthly_cost (allocate true total_cost l)
     = List.map monthly_cost (allocate true total_cost l').
Proof.
  intros Hd.
  assert (Ht : total_data_gb l = total_data_gb l')
    by (unfold total_data_gb; now rewrite Hd).
  unfold allocate. rewrite !List.map_map, Ht. cbn.
  rewrite <- !(List.map_map data_gb (fun x => fdiv x (total_data_gb l'))).
  rewrite <- !(List.map_map data_gb
                 (fun x => fmul (fdiv x (total_data_gb l')) total_cost)).
  now rewrite Hd.
Qed.

Lemma pure_policy_ignores_throughput_witness :
  List.map data_share (allocate true 240000 mixed_pair)
  = List.map data_share
      (allocate true 240000 [mk_record "x" 100 7 7; mk_record "y" 0 0 1])
  /\ List.map weighted_share (allocate true 240000 mixed_pair)
     = List.map weighted_share
         (allocate true 240000 [mk_record "x" 100 7 7; mk_record "y" 0 0 1])
  /\ List.map monthly_cost (allocate true 240000 mixed_pair)
     = List.map monthly_cost
         (allocate true 240000 [mk_record "x" 100 7 7; mk_record "y" 0 0 1]).
Proof.
  apply (pure_policy_ignores_throughput 240000 mixed_pair
           [mk_record "x" 100 7 7; mk_record "y" 0 0 1]).
  reflexivity.
Defined.

(** ** A NaN in the input spreads *)

Lemma add_nan (x y : float) :
  is_nan x = true \/ is_nan y = true -> is_nan (x + y) = true.
Proof.
  rewrite !is_nan_iff, FloatAxioms.add_spec. intros [->| ->].
  - reflexivity.
  - destruct (Prim2SF x); reflexivity.
Qed.

Lemma py_sum_nan (l : list float) (acc : float) :
  is_nan acc = true \/ Exists (fun x => is_nan x = true) l ->
  is_nan (fold_left PrimFloat.add l acc) = true.
Proof.
  revert acc. induction l as [|x l IH]; intros acc [H|H]; simpl.
  - exact H.
  - inversion H.
  - apply IH. left. apply add_nan. auto.
  - apply IH. inversion H; subst; [left; apply add_nan; auto|right; assumption].
Qed.

Lemma nan_total (t x : float) :
  is_nan t = true ->
  is_nan (x / (if t =? 0 then EPSILON else t)) = true.
Proof.
  intros Ht. assert (E : (t =? 0) = false).
  { apply is_nan_iff in Ht. rewrite FloatAxioms.eqb_spec, Ht. reflexivity. }
  rewrite E. apply is_nan_iff. apply is_nan_iff in Ht.
  rewrite FloatAxioms.div_spec, Ht. destruct (Prim2SF x); reflexivity.
Qed.

(** X13: one NaN spoils the IOPS column of the allocation: if some record
    has a NaN read or write rate, which a throughput row whose field reads
    NaN gives it, every client's IOPS share is NaN. *)
Theorem nan_spoils_every_share (pure_data_only : bool) (total_cost : float)
    (clients_data : list (client_record float)) :
  Exists (fun d => is_nan (avg_read_ops_s d) = true
                   \/ is_nan (avg_write_ops_s d) = true) clients_data ->
  Forall (fun r => is_nan (iops_share r) = true)
    (allocate pure_data_only total_cost clients_data)
  /\ is_nan (parse_float_maybe " NaN ") = true.
Proof.
  intros Hex. split; [|reflexivity]. unfold allocate.
  rewrite Forall_map. apply List.Forall_forall. intros d _. cbn.
  unfold total_iops. cbn. apply nan_total, py_sum_nan. right.
  apply List.Exists_exists in Hex. destruct Hex as (x & Hx & Hn).
  apply List.Exists_exists. exists (iops_of x). split.
  - now apply (List.in_map iops_of).
  - apply add_nan, Hn.
Qed.

Lemma nan_spoils_every_share_witness :
  assemble nan_export
  = Ok [mk_record "acme" 1228.8 nan 5; mk_record "zed" 0 100 200]
  /\ Forall (fun r => is_nan (iops_share r) = true)
       (allocate true 240000
          [mk_record "acme" 1228.8 nan 5; mk_record "zed" 0 100 200])
  /\ is_nan (parse_float_maybe " NaN ") = true.
Proof.
  split; [vm_compute; reflexivity|].
  apply (nan_spoils_every_share true 240000
           [mk_record "acme" 1228.8 nan 5; mk_record "zed" 0 100 200]).
  left. left. reflexivity.
Defined.

(** ** Columns of a TAB-separated line *)

Lemma split_char_cons (sep : ascii) (s : string) :
  exists f fs, split_char sep s = f :: fs.
Proof.
  destruct s as [|c s]; simpl; [eauto|].
  destruct (Ascii.eqb c sep); [eauto|]. destruct (split_char sep s); eauto.
Qed.

Lemma concat_split_char (sep : ascii) (s : string) :
  String.concat (String sep EmptyString) (split_char sep s) = s.
Proof.
  induction s as [|c s IH]; simpl; [reflexivity|].
  destruct (split_char_cons sep s) as (f & fs & E). rewrite E in *.
  destruct (Ascii.eqb_spec c sep) as [->|_].
  - change (String.concat (String sep EmptyString) (EmptyString :: f :: fs))
      with (String sep (String.concat (String sep EmptyString) (f :: fs))).
    now rewrite IH.
  - destruct fs as [|g fs].
    + simpl in *. now rewrite IH.
    + change (String.concat (String sep EmptyString) (String c f :: g :: fs))
        with (String c (String.concat (String sep EmptyString) (f :: g :: fs))).
      now rewrite IH.
Qed.

Lemma split_char_fields (sep : ascii) (s : string) :
  Forall (fun f => ~ In sep (list_ascii_of_string f)) (split_char sep s)
  /\ List.length (split_char sep s)
     = S (count_occ ascii_dec (list_ascii_of_string s) sep).
Proof.
  induction s as [|c s IH]; simpl.
  - split; [repeat constructor; intros []|reflexivity].
  - destruct IH as (Hf & Hn).
    destruct (split_char_cons sep s) as (f & fs & E). rewrite E in *.
    destruct (Ascii.eqb_spec c sep) as [->|Hc].
    + destruct (ascii_dec sep sep) as [_|N]; [|now contradiction N].
      split; [constructor; [intros []|exact Hf]|]. simpl in Hn |- *. lia.
    + destruct (ascii_dec c sep) as [Y|_]; [contradiction|].
      split; [|exact Hn]. inversion Hf; subst.
      constructor; [|assumption]. simpl. intros [Y|Y]; [congruence|contradiction].
Qed.

(** X14: a line with three or more TABs is cut at its TABs and nowhere
    else: it has one column more than it has TABs, no column contains a
    TAB, and joining the columns with TABs gives the line back. *)
Theorem tab_line_columns (raw_line : string) :
  (3 <= count_occ ascii_dec (list_ascii_of_string raw_line) TAB)%nat ->
  List.length (tokenize raw_line)
  = S (count_occ ascii_dec (list_ascii_of_string raw_line) TAB)
  /\ Forall (fun f => ~ In TAB (list_ascii_of_string f)) (tokenize raw_line)
  /\ String.concat (String TAB EmptyString) (tokenize raw_line) = raw_line.
Proof.
  intros H3. destruct (split_char_fields TAB raw_line) as (Hf & Hn).
  unfold tokenize. rewrite Hn.
  destruct (Nat.ltb_spec (S (count_occ ascii_dec
                               (list_ascii_of_string raw_line) TAB)) 4);
    [lia|].
  rewrite Hn. repeat split; [exact Hf|apply concat_split_char].
Qed.

Lemma tab_line_columns_witness :
  List.length (tokenize (row ["acme"; "1.00 TB"; "1.20  TB"; "5.00%"; "x"]))
  = S (count_occ ascii_dec
         (list_ascii_of_string
            (row ["acme"; "1.00 TB"; "1.20  TB"; "5.00%"; "x"])) TAB)
  /\ Forall (fun f => ~ In TAB (list_ascii_of_string f))
       (tokenize (row ["acme"; "1.00 TB"; "1.20  TB"; "5.00%"; "x"]))
  /\ String.concat (String TAB EmptyString)
       (tokenize (row ["acme"; "1.00 TB"; "1.20  TB"; "5.00%"; "x"]))
     = row ["acme"; "1.00 TB"; "1.20  TB"; "5.00%"; "x"].
Proof.
  apply (tab_line_columns (row ["acme"; "1.00 TB"; "1.20  TB"; "5.00%"; "x"])).
  vm_compute. lia.
Defined.

(** ** Clients without a size, in the script as configured *)

Lemma leb_zero_cases (x : float) :
  (0 <=? x) = true
  <-> match Prim2SF x with
      | S754_zero _ => True
      | S754_nan => False
      | S754_infinity s | S754_finite s _ _ => s = false
      end.
Proof.
  rewrite FloatAxioms.leb_spec. change (Prim2SF 0) with (S754_zero false).
  destruct (Prim2SF x) as [s|s| |s m e]; simpl; try destruct s;
    intuition discriminate.
Qed.

Lemma add_keeps_nonneg (x y : float) :
  (0 <=? x) = true -> (0 <=? y) = true -> (0 <=? x + y) = true.
Proof.
  rewrite !leb_zero_cases, FloatAxioms.add_spec.
  destruct (Prim2SF x) as [sx|sx| |sx mx ex];
    destruct (Prim2SF y) as [sy|sy| |sy my ey]; simpl;
    intros Hx Hy; try contradiction; subst; try trivial;
    try (destruct sx, sy; simpl; trivial).
  set (r := binary_normalize _ _ _ _ _).
  assert (Hr : nonneg_sf r).
  { subst r. unfold SF64add. simpl. apply binary_round_nonneg. }
  destruct r as [s|s| |s m e]; simpl in *; trivial.
Qed.

Lemma py_sum_keeps_nonneg (l : list float) (acc : float) :
  (0 <=? acc) = true ->
  Forall (fun x => (0 <=? x) = true) l ->
  (0 <=? fold_left PrimFloat.add l acc) = true.
Proof.
  revert acc. induction l as [|x l IH]; intros acc Ha Hl; simpl; [exact Ha|].
  inversion Hl; subst. apply IH; [apply add_keeps_nonneg|]; assumption.
Qed.

Lemma zero_over_positive (x t : float) :
  (x =? 0) = true -> (0 <=? t) = true -> (t =? 0) = false ->
  (x / t =? 0) = true /\ (x / t * TOTAL_CLUSTER_COST =? 0) = true.
Proof.
  rewrite !eqb_zero_iff, leb_zero_cases, FloatAxioms.mul_spec,
    FloatAxioms.div_spec.
  intros Hx Ht Hn.
  assert (Ht0 : ~ is_zero_sf (Prim2SF t)).
  { intros Hz. apply eqb_zero_iff in Hz. congruence. }
  set (c := Prim2SF TOTAL_CLUSTER_COST). vm_compute in c. subst c.
  destruct (Prim2SF x) as [sx| | |]; try contradiction.
  destruct (Prim2SF t) as [st|st| |st mt et]; simpl in *;
    try contradiction; try (now contradiction Ht0); subst; split; trivial.
Qed.

(** X16: in the script as configured (pure-size policy, total 240000), on
    every input on which assembly completes, a record of size zero, and so
    every client seen only in throughput rows, gets a data share, a
    weighted share and a monthly cost of zero, whatever its rates. *)
Theorem unsized_clients_cost_nothing (lines : list string)
    (clients_data : list (client_record float)) :
  assemble lines = Ok clients_data ->
  Forall2 (fun d r => (data_gb d =? 0) = true ->
                      (data_share r =? 0) = true
                      /\ (weighted_share r =? 0) = true
                      /\ (monthly_cost r =? 0) = true)
    clients_data (allocation_report clients_data).
Proof.
  intros H.
  pose proof (assemble_from_size_ok lines [] _ H (List.Forall_nil _)) as Hok.
  assert (Ht : (0 <=? total_data_gb clients_data) = true).
  { unfold total_data_gb, py_sum. cbn [feqb fadd float_number].
    change (lit 0 0) with 0.
    destruct (_ =? 0) eqn:E; [reflexivity|].
    apply py_sum_keeps_nonneg; [reflexivity|].
    rewrite Forall_map. exact Hok. }
  pose proof (proj1 (totals_nonzero clients_data)) as Hn.
  unfold allocation_report, allocate.
  apply Forall2_fmap_r, Forall_Forall2_diag, List.Forall_forall.
  intros d _ Hd. cbn.
  destruct (zero_over_positive _ _ Hd Ht Hn) as (H1 & H2). auto.
Qed.

Lemma unsized_clients_cost_nothing_witness :
  Forall2 (fun d r => (data_gb d =? 0) = true ->
                      (data_share r =? 0) = true
                      /\ (weighted_share r =? 0) = true
                      /\ (monthly_cost r =? 0) = true)
    [mk_record "acme" 1228.8 900 100; mk_record "new" 0 1 2]
    (allocation_report
       [mk_record "acme" 1228.8 900 100; mk_record "new" 0 1 2]).
Proof.
  apply (unsized_clients_cost_nothing
           [acme_size; acme_throughput; row ["new"; "1"; "2"; "50%"; "50%"]]).
  vm_compute. reflexivity.
Defined.

(** ** Shares of non-negative usage *)

Lemma finite_nonneg_leb (x : float) : finite_nonneg x -> (0 <=? x) = true.
Proof.
  unfold finite_nonneg. rewrite FloatAxioms.leb_spec.
  change (Prim2SF 0) with (S754_zero false).
  destruct (Prim2SF x) as [s|s| |s m e]; simpl; try contradiction; trivial.
  destruct s; [contradiction|trivial].
Qed.

Lemma shares_of_total (l : list float) :
  Forall (fun x => (0 <=? x) = true) l ->
  is_finite (py_sum l) = true -> (py_sum l =? 0) = false ->
  (Z.of_nat (List.length l) <= 2 ^ 40)%Z ->
  Forall (fun x => is_finite (x / py_sum l) = true
                   /\ (0 <=? x / py_sum l) = true
                   /\ (value (x / py_sum l)
                       <= 1 + (2 * INR (List.length l) + 3) * bpow (-52))%R) l.
Proof.
  intros Hl Hfin Hnz Hcount.
  pose proof (count_small _ Hcount) as Hn. pose proof u52_pos as Hu.
  destruct (shares_error l (finite_nonneg_terms l Hl Hfin)
              (proj1 (is_finite_iff _) Hfin) Hnz) as [Hs _]; [lra|].
  eapply Forall_impl; [exact Hs|]. intros x (Hg & _ & Hb).
  split; [apply is_finite_iff, finite_nonneg_finite, Hg|].
  split; [apply finite_nonneg_leb, Hg|exact Hb].
Qed.

(** X11: on binary64 floats a share is a fraction, up to rounding: when no
    size is negative and the float total of the sizes is finite and not
    zero, every data share is finite, at least 0 and at most
    [1 + (2 n + 3) 2^-52] for [n <= 2^40] clients, under either policy; so
    is every IOPS share when no rate is negative and the float total of the
    IOPS is finite and not zero. *)
Theorem shares_are_fractions (pure_data_only : bool) (total_cost : float)
    (clients_data : list (client_record float)) :
  (Z.of_nat (List.length clients_data) <= 2 ^ 40)%Z ->
  (Forall (fun d => (0 <=? data_gb d) = true) clients_data ->
   is_finite (py_sum (List.map data_gb clients_data)) = true ->
   (py_sum (List.map data_gb clients_data) =? 0) = false ->
   Forall (fun r => is_finite (data_share r) = true
                    /\ (0 <=? data_share r) = true
                    /\ (value (data_share r)
                        <= 1 + (2 * INR (List.length clients_data) + 3)
                               * bpow (-52))%R)
     (allocate pure_data_only total_cost clients_data))
  /\ (Forall (fun d => (0 <=? avg_read_ops_s d) = true
                       /\ (0 <=? avg_write_ops_s d) = true) clients_data ->
      is_finite (py_sum (List.map iops_of clients_data)) = true ->
      (py_sum (List.map iops_of clients_data) =? 0) = false ->
      Forall (fun r => is_finite (iops_share r) = true
                       /\ (0 <=? iops_share r) = true
                       /\ (value (iops_share r)
                           <= 1 + (2 * INR (List.length clients_data) + 3)
                                  * bpow (-52))%R)
        (allocate pure_data_only total_cost clients_data)).
Proof.
  intros Hcount. split.
  - intros Hsize Hfin Hnz.
    assert (Hl : Forall (fun x => (0 <=? x) = true)
                   (List.map data_gb clients_data))
      by now rewrite Forall_map.
    pose proof (shares_of_total _ Hl Hfin Hnz) as Hs.
    rewrite List.length_map, Forall_map in Hs. specialize (Hs Hcount).
    unfold allocate. rewrite Forall_map.
    assert (Et : total_data_gb clients_data
                 = py_sum (List.map data_gb clients_data)).
    { unfold total_data_gb. cbv zeta. now apply guard_passes. }
    eapply Forall_impl; [exact Hs|]. intros d Hd.
    cbn [alloc_row_of data_share]. rewrite Et. exact Hd.
  - intros Hrates Hfin Hnz.
    assert (Hl : Forall (fun x => (0 <=? x) = true)
                   (List.map iops_of clients_data)).
    { rewrite Forall_map. eapply Forall_impl; [exact Hrates|].
      intros d [Hr Hw]. now apply add_keeps_nonneg. }
    pose proof (shares_of_total _ Hl Hfin Hnz) as Hs.
    rewrite List.length_map, Forall_map in Hs. specialize (Hs Hcount).
    unfold allocate. rewrite Forall_map.
    assert (Et : total_iops clients_data
                 = py_sum (List.map iops_of clients_data)).
    { unfold total_iops. cbv zeta. now apply guard_passes. }
    eapply Forall_impl; [exact Hs|]. intros d Hd.
    cbn [alloc_row_of iops_share]. rewrite Et. exact Hd.
Qed.

Lemma shares_are_fractions_witness :
  Forall (fun r => is_finite (data_share r) = true
                   /\ (0 <=? data_share r) = true
                   /\ (value (data_share r)
                       <= 1 + (2 * INR 2 + 3) * bpow (-52))%R)
    (allocate false TOTAL_CLUSTER_COST light_pair)
  /\ Forall (fun r => is_finite (iops_share r) = true
                      /\ (0 <=? iops_share r) = true
                      /\ (value (iops_share r)
                          <= 1 + (2 * INR 2 + 3) * bpow (-52))%R)
       (allocate false TOTAL_CLUSTER_COST light_pair).
Proof.
  assert (Hcount : (Z.of_nat (List.length light_pair) <= 2 ^ 40)%Z)
    by (vm_compute; discriminate).
  destruct (shares_are_fractions false TOTAL_CLUSTER_COST light_pair Hcount)
    as [Hdata Hiops].
  split.
  - apply Hdata; [repeat constructor|vm_compute; reflexivity..].
  - apply Hiops; [repeat constructor|vm_compute; reflexivity..].
Defined.

(** ** Columns of a line without TABs *)

Lemma span_space_empty (s : string) :
  fst (span_space s) = EmptyString -> starts_clean s.
Proof.
  destruct s as [|c s]; simpl; [trivial|].
  destruct (is_space c); [|reflexivity].
  destruct (span_space s); discriminate.
Qed.

Lemma span_space_short (c : ascii) (s : string) :
  Nat.leb 2 (String.length (fst (span_space (String c s)))) = false ->
  is_space c = true -> starts_clean s.
Proof.
  simpl. intros H Hc. rewrite Hc in H. apply span_space_empty.
  destruct (span_space s) as [w r]. simpl in *.
  destruct w; [reflexivity|discriminate].
Qed.

Lemma re_split_from_step (c : ascii) (s : string) :
  re_split_from 0 (String c s)
  = if Nat.leb 2 (String.length (fst (span_space (String c s))))
    then EmptyString
         :: re_split_from (String.length (fst (span_space (String c s))) - 1) s
    else match re_split_from 0 s with
         | [] => [String c EmptyString]
         | f :: fs => String c f :: fs
         end.
Proof. reflexivity. Qed.

Lemma re_split_from_cons (skip : nat) (s : string) :
  exists f fs, re_split_from skip s = f :: fs.
Proof.
  revert skip. induction s as [|c s IH]; intros skip; [simpl; eauto|].
  destruct skip as [|k]; [|apply (IH k)].
  rewrite re_split_from_step.
  destruct (Nat.leb 2 _); [eauto|]. destruct (re_split_from 0 s); eauto.
Qed.

Lemma re_split_head_clean (s : string) :
  starts_clean s ->
  exists f fs, re_split_from 0 s = f :: fs /\ starts_clean f.
Proof.
  destruct s as [|c s]; [simpl; eauto|]. intros Hc.
  rewrite re_split_from_step. simpl in Hc |- *. rewrite Hc. simpl.
  destruct (re_split_from 0 s); eauto.
Qed.

Lemma has_ws2_cons (c : ascii) (f : string) :
  has_ws2 f = false ->
  is_space c = false \/ starts_clean f ->
  has_ws2 (String c f) = false.
Proof.
  intros Hf H. destruct f as [|b f]; [reflexivity|].
  change (has_ws2 (String c (String b f)))
    with ((is_space c && is_space b) || has_ws2 (String b f)).
  rewrite Hf, orb_false_r. destruct H as [->|H]; [reflexivity|].
  simpl in H. rewrite H. apply andb_false_r.
Qed.

Lemma re_split_from_no_gap (s : string) :
  forall skip, Forall (fun f => has_ws2 f = false) (re_split_from skip s).
Proof.
  induction s as [|c s IH]; intros skip; [repeat constructor|].
  destruct skip as [|k]; [|apply (IH k)].
  rewrite re_split_from_step.
  destruct (Nat.leb 2 _) eqn:E; [constructor; [reflexivity|apply IH]|].
  pose proof (IH 0%nat) as H0.
  destruct (is_space c) eqn:Ec.
  - destruct (re_split_head_clean s (span_space_short c s E Ec))
      as (f & fs & Ef & Hf).
    rewrite Ef in *. inversion H0; subst. constructor; [|assumption].
    apply has_ws2_cons; auto.
  - destruct (re_split_from_cons 0 s) as (f & fs & Ef). rewrite Ef in *.
    inversion H0; subst. constructor; [|assumption].
    apply has_ws2_cons; auto.
Qed.

Lemma re_split_single (s : string) :
  has_ws2 s = false -> re_split_from 0 s = [s].
Proof.
  induction s as [|c s IH]; intros H; [reflexivity|].
  assert (Hs : has_ws2 s = false).
  { destruct s as [|b s]; [reflexivity|].
    change (has_ws2 (String c (String b s)))
      with ((is_space c && is_space b) || has_ws2 (String b s)) in H.
    now apply orb_false_elim in H. }
  assert (E : Nat.leb 2 (String.length (fst (span_space (String c s)))) = false).
  { simpl. destruct (is_space c) eqn:Ec; [|reflexivity].
    destruct s as [|b s]; [reflexivity|].
    change (has_ws2 (String c (String b s)))
      with ((is_space c && is_space b) || has_ws2 (String b s)) in H.
    apply orb_false_elim in H. destruct H as (H & _).
    rewrite Ec in H. simpl in H. simpl. rewrite H. reflexivity. }
  rewrite re_split_from_step, E, (IH Hs). reflexivity.
Qed.

Lemma append_nil (s : string) : EmptyString ++ s = s.
Proof. reflexivity. Qed.

Lemma append_cons (c : ascii) (a b : string) :
  String c a ++ b = String c (a ++ b).
Proof. reflexivity. Qed.

Lemma span_space_run (w rest : string) :
  all_space w = true -> starts_clean rest -> span_space (w ++ rest) = (w, rest).
Proof.
  intros Hw Hr. induction w as [|c w IH].
  - rewrite append_nil. destruct rest as [|b rest]; [reflexivity|].
    cbn [starts_clean span_space] in *. now rewrite Hr.
  - cbn [all_space] in Hw. apply andb_prop in Hw as [Hc Hw].
    rewrite append_cons. cbn [span_space]. now rewrite Hc, (IH Hw).
Qed.

Lemma re_split_from_skip (u rest : string) :
  re_split_from (String.length u) (u ++ rest) = re_split_from 0 rest.
Proof.
  induction u as [|c u IH]; [now rewrite append_nil|].
  rewrite append_cons. exact IH.
Qed.

Lemma re_split_run (w rest : string) :
  all_space w = true -> (2 <= String.length w)%nat -> starts_clean rest ->
  re_split_from 0 (w ++ rest) = EmptyString :: re_split_from 0 rest.
Proof.
  intros Hw Hn Hr. destruct w as [|c w]; [simpl in Hn; lia|].
  rewrite append_cons, re_split_from_step, <- append_cons.
  rewrite (span_space_run _ _ Hw Hr). cbn [fst].
  destruct (Nat.leb_spec 2 (String.length (String c w))) as [_|]; [|lia].
  cbn [String.length]. rewrite Nat.sub_succ, Nat.sub_0_r.
  now rewrite re_split_from_skip.
Qed.

Lemma has_ws2_tail (c : ascii) (s : string) :
  has_ws2 (String c s) = false -> has_ws2 s = false.
Proof.
  destruct s as [|b s]; [reflexivity|].
  change (has_ws2 (String c (String b s)))
    with ((is_space c && is_space b) || has_ws2 (String b s)).
  intros H. now apply orb_false_elim in H.
Qed.

(** A field, the run that ends it, and the rest of the line. *)
Lemma re_split_field (f w rest : string) :
  has_ws2 f = false -> ends_clean f ->
  all_space w = true -> (2 <= String.length w)%nat -> starts_clean rest ->
  re_split_from 0 (f ++ w ++ rest) = f :: re_split_from 0 rest.
Proof.
  intros Hf He Hw Hn Hr. induction f as [|c f IH].
  - rewrite append_nil. apply re_split_run; assumption.
  - rewrite append_cons, re_split_from_step.
    assert (E : Nat.leb 2 (String.length
                             (fst (span_space (String c (f ++ w ++ rest)))))
                = false).
    { cbn [span_space]. destruct (is_space c) eqn:Ec; [|reflexivity].
      destruct f as [|b f].
      - cbn [ends_clean] in He. congruence.
      - change (has_ws2 (String c (String b f)))
          with ((is_space c && is_space b) || has_ws2 (String b f)) in Hf.
        apply orb_false_elim in Hf as [Hcb _].
        rewrite Ec in Hcb. cbn [andb] in Hcb.
        rewrite append_cons. cbn [span_space]. rewrite Hcb. reflexivity. }
    rewrite E, IH; [reflexivity|exact (has_ws2_tail _ _ Hf)|].
    destruct f; [exact I|exact He].
Qed.

Lemma span_space_parts (s : string) :
  s = fst (span_space s) ++ snd (span_space s)
  /\ all_space (fst (span_space s)) = true
  /\ starts_clean (snd (span_space s)).
Proof.
  induction s as [|c s IH]; [repeat split|].
  cbn [span_space]. destruct (is_space c) eqn:Ec.
  - destruct (span_space s) as [w r]. cbn [fst snd] in *.
    destruct IH as (E & Hw & Hr). rewrite append_cons. cbn [all_space].
    rewrite Ec, Hw. now rewrite <- E.
  - cbn [fst snd]. rewrite append_nil. repeat split. exact Ec.
Qed.

(** A line with a run splits into a first field, its run and a rest. *)
Lemma has_ws2_parts (s : string) :
  has_ws2 s = true ->
  exists f w rest, s = f ++ w ++ rest
                   /\ has_ws2 f = false /\ ends_clean f
                   /\ all_space w = true /\ (2 <= String.length w)%nat
                   /\ starts_clean rest.
Proof.
  induction s as [|c s IH]; [discriminate|].
  destruct s as [|b s]; [discriminate|].
  change (has_ws2 (String c (String b s)))
    with ((is_space c && is_space b) || has_ws2 (String b s)).
  destruct (is_space c && is_space b) eqn:Ecb.
  - intros _. apply andb_prop in Ecb as [Ec Eb].
    destruct (span_space_parts (String c (String b s))) as (E & Hw & Hr).
    exists EmptyString, (fst (span_space (String c (String b s)))),
      (snd (span_space (String c (String b s)))).
    rewrite append_nil. repeat split; try assumption.
    cbn [span_space]. rewrite Ec, Eb. destruct (span_space s).
    cbn [fst String.length]. lia.
  - cbn [orb]. intros H.
    destruct (IH H) as (f & w & rest & E & Hf & He & Hw & Hn & Hr).
    exists (String c f), w, rest. rewrite E, append_cons.
    repeat split; try assumption.
    + destruct f as [|a f]; [reflexivity|].
      change (has_ws2 (String c (String a f)))
        with ((is_space c && is_space a) || has_ws2 (String a f)).
      rewrite Hf, orb_false_r. rewrite append_cons in E.
      injection E as -> _. exact Ecb.
    + destruct f as [|a f]; [|exact He].
      destruct w as [|a w]; [simpl in Hn; lia|].
      rewrite append_nil, append_cons in E. injection E as -> _.
      cbn [all_space] in Hw. apply andb_prop in Hw as [Ha _].
      rewrite Ha, andb_true_r in Ecb. exact Ecb.
Qed.

Lemma count_tab_app (a b : string) :
  count_occ ascii_dec (list_ascii_of_string (a ++ b)) TAB
  = (count_occ ascii_dec (list_ascii_of_string a) TAB
     + count_occ ascii_dec (list_ascii_of_string b) TAB)%nat.
Proof.
  induction a as [|c a IH]; [reflexivity|].
  rewrite append_cons.
  cbn [list_ascii_of_string count_occ]. destruct (ascii_dec c TAB); lia.
Qed.

Lemma tokenize_few_tabs (s : string) :
  (count_occ ascii_dec (list_ascii_of_string s) TAB < 3)%nat ->
  tokenize s = re_split_from 0 s.
Proof.
  intros H3. destruct (split_char_fields TAB s) as (_ & Hn).
  unfold tokenize. rewrite Hn.
  destruct (Nat.ltb_spec (S (count_occ ascii_dec (list_ascii_of_string s) TAB)) 4);
    [reflexivity|lia].
Qed.

(** X15: a line with fewer than three TABs is cut at its runs of two or
    more whitespace characters, and only there: no column contains such a
    run; a line without any such run, its fields one blank apart, is a
    single column; a line made of a field without a run that does not end
    in whitespace, then a run, then a rest that does not start with
    whitespace, gives that field followed by the columns of the rest; and
    every line with a run is of that form. *)
Theorem fallback_columns (raw_line : string) :
  (count_occ ascii_dec (list_ascii_of_string raw_line) TAB < 3)%nat ->
  Forall (fun f => has_ws2 f = false) (tokenize raw_line)
  /\ (has_ws2 raw_line = false -> tokenize raw_line = [raw_line])
  /\ (forall f w rest,
        raw_line = f ++ w ++ rest ->
        has_ws2 f = false -> ends_clean f ->
        all_space w = true -> (2 <= String.length w)%nat ->
        starts_clean rest ->
        tokenize raw_line = f :: tokenize rest)
  /\ (has_ws2 raw_line = true ->
      exists f w rest,
        raw_line = f ++ w ++ rest
        /\ has_ws2 f = false /\ ends_clean f
        /\ all_space w = true /\ (2 <= String.length w)%nat
        /\ starts_clean rest
        /\ tokenize raw_line = f :: tokenize rest).
Proof.
  intros H3. rewrite (tokenize_few_tabs raw_line H3).
  assert (Hfield : forall f w rest,
             raw_line = f ++ w ++ rest ->
             has_ws2 f = false -> ends_clean f ->
             all_space w = true -> (2 <= String.length w)%nat ->
             starts_clean rest ->
             re_split_from 0 raw_line = f :: tokenize rest).
  { intros f w rest E Hf He Hw Hn Hr.
    rewrite tokenize_few_tabs.
    - rewrite E. now apply re_split_field.
    - rewrite E, !count_tab_app in H3. lia. }
  split; [apply re_split_from_no_gap|].
  split; [apply re_split_single|]. split; [exact Hfield|].
  intros H. destruct (has_ws2_parts raw_line H)
    as (f & w & rest & E & Hf & He & Hw & Hn & Hr).
  exists f, w, rest. repeat split; try assumption.
  now apply (Hfield f w rest).
Qed.

Lemma fallback_columns_witness :
  Forall (fun f => has_ws2 f = false)
    (tokenize "aahs  1.24 TB   1.26 TB  1.75%")
  /\ tokenize "aahs  1.24 TB   1.26 TB  1.75%"
     = "aahs" :: tokenize "1.24 TB   1.26 TB  1.75%"
  /\ tokenize "aahs 1.24 TB 1.26 TB 1.75%" = ["aahs 1.24 TB 1.26 TB 1.75%"].
Proof.
  split; [|split].
  - apply (fallback_columns "aahs  1.24 TB   1.26 TB  1.75%").
    vm_compute. lia.
  - assert (H3 : (count_occ ascii_dec
                    (list_ascii_of_string "aahs  1.24 TB   1.26 TB  1.75%")
                    TAB < 3)%nat) by (vm_compute; lia).
    destruct (fallback_columns "aahs  1.24 TB   1.26 TB  1.75%" H3)
      as (_ & _ & Hfield & _).
    apply (Hfield "aahs" "  " "1.24 TB   1.26 TB  1.75%");
      reflexivity.
  - apply (fallback_columns "aahs 1.24 TB 1.26 TB 1.75%");
      [vm_compute; lia | reflexivity].
Defined.
